(** * Return analytics of [app.py]: a shallow embedding

    The development embeds the return pipeline of [app.py]:
    [resample_and_calculate_returns] and the [/api/stock-data] handler
    [get_stock_data], together with the pandas operations they call
    ([pct_change], [resample(...).last()], [concat(axis=1)], [mean(axis=1)],
    [dropna], [round], [.loc[start:]], [DataFrame.corr]).

    Conventions of the embedding.
    - A timestamp is the proleptic Gregorian ordinal of its day (what
      [datetime.date.toordinal] returns), a [Z].  The dates of the tables
      and of the answer are kept as ordinals.  [strftime] with
      ['%Y-%m-%d'] is modelled where the handler compares date strings,
      in the filter of the stock-level rows; the start date of a request
      keeps its string beside the day that is read from it.
    - A float64 is an exact rational extended with NaN and the two
      infinities; rounding error of binary floating point is not modelled,
      except in [Binary64], which replays the arithmetic of one return on
      the machine format.  In particular [round(2)] rounds the exact
      value: where the exact return lies half-way between two hundredths,
      or within the rounding error of such a point, the machine value may
      fall on the other side and the code may show the neighbouring
      hundredth.
    - A price table keeps only its [Close] column, whose entries are finite.
      The data source returns tables indexed by strictly increasing dates.
    - Two behaviours changed between pandas releases, the default
      [fill_method] of [pct_change] and the aliases that [resample]
      accepts; the release is the parameter [fill_pad] of the model. *)

From Stdlib Require Import ZArith QArith Qround Qreduction List Sorted Ascii String Bool Lia.
From Stdlib Require Import Reals Qreals Lra.
From Stdlib Require PrimFloat.
From Stdlib Require Lqa.
From Stdlib Require Import Permutation.
Import ListNotations.
Open Scope Z_scope.

(** ** float64 values *)

Inductive float64 : Type :=
| NaN
| Inf (neg : bool)
| Num (q : Q).

Definition Qneg (q : Q) : bool := (Qnum q <? 0)%Z.
Definition Qzero (q : Q) : bool := (Qnum q =? 0)%Z.

Definition isna (x : float64) : bool :=
  match x with NaN => true | _ => false end.

Definition notna (x : float64) : bool := negb (isna x).

Definition isfinite (x : float64) : bool :=
  match x with Num _ => true | _ => false end.

Definition fopp (x : float64) : float64 :=
  match x with
  | NaN => NaN
  | Inf s => Inf (negb s)
  | Num q => Num (Qred (- q))
  end.

Definition fadd (x y : float64) : float64 :=
  match x, y with
  | NaN, _ | _, NaN => NaN
  | Inf a, Inf b => if Bool.eqb a b then Inf a else NaN
  | Inf a, Num _ => Inf a
  | Num _, Inf b => Inf b
  | Num p, Num q => Num (Qred (p + q))
  end.

Definition fsub (x y : float64) : float64 := fadd x (fopp y).

Definition fmul (x y : float64) : float64 :=
  match x, y with
  | NaN, _ | _, NaN => NaN
  | Inf a, Inf b => Inf (xorb a b)
  | Inf a, Num q => if Qzero q then NaN else Inf (xorb a (Qneg q))
  | Num p, Inf b => if Qzero p then NaN else Inf (xorb (Qneg p) b)
  | Num p, Num q => Num (Qred (p * q))
  end.

Definition fdiv (x y : float64) : float64 :=
  match x, y with
  | NaN, _ | _, NaN => NaN
  | Inf _, Inf _ => NaN
  | Inf a, Num q => Inf (xorb a (Qneg q))
  | Num _, Inf _ => Num 0
  | Num p, Num q =>
      if Qzero q then (if Qzero p then NaN else Inf (Qneg p))
      else Num (Qred (p / q))
  end.

(** [numpy.rint]: round to the nearest integer, ties to even. *)
Definition rint (q : Q) : Z :=
  let f := Qfloor q in
  match Qcompare (q - inject_Z f) (1 # 2) with
  | Lt => f
  | Gt => f + 1
  | Eq => if Z.even f then f else f + 1
  end.

(** [numpy.round(x, 2)] is [rint(x * 100) / 100]. *)
Definition Qround2 (q : Q) : Q := Qred (inject_Z (rint (q * 100)) / 100).

(** [round(2)] of a cell, on its exact value. *)
Definition fround2 (x : float64) : float64 :=
  match x with
  | Num q => Num (Qround2 q)
  | _ => x
  end.

(** Equality of float64 values up to the representation of the rational. *)
Definition feq (x y : float64) : Prop :=
  match x, y with
  | NaN, NaN => True
  | Inf a, Inf b => a = b
  | Num p, Num q => (p == q)%Q
  | _, _ => False
  end.

(** ** Series: a datetime index with float64 values *)

Definition Timestamp : Type := Z.
Definition Series : Type := list (Timestamp * float64).

(** The [Close] column of a price table. *)
Definition PriceFrame : Type := list (Timestamp * Q).

Definition Close (price_df : PriceFrame) : Series :=
  map (fun r => (fst r, Num (snd r))) price_df.

Definition index (s : Series) : list Timestamp := map fst s.
Definition values (s : Series) : list float64 := map snd s.

Definition dropna (s : Series) : Series :=
  filter (fun r => notna (snd r)) s.

Definition smap (f : float64 -> float64) (s : Series) : Series :=
  map (fun r => (fst r, f (snd r))) s.

(** [s * 100] *)
Definition times100 (s : Series) : Series := smap (fun v => fmul v (Num 100)) s.

(** [s.round(2)] *)
Definition round2 (s : Series) : Series := smap fround2 s.

(** [s.ffill()]: a NaN takes the last valid value before it. *)
Fixpoint ffill_from (prev : float64) (vs : list float64) : list float64 :=
  match vs with
  | [] => []
  | v :: vs' =>
      let v' := if isna v then prev else v in
      v' :: ffill_from v' vs'
  end.

Definition ffill (vs : list float64) : list float64 := ffill_from NaN vs.

(** [s.shift(1)]: the values move one position down, NaN enters on top. *)
Definition shift1 (vs : list float64) : list float64 := removelast (NaN :: vs).

Fixpoint zip_with {A B C} (f : A -> B -> C) (xs : list A) (ys : list B) : list C :=
  match xs, ys with
  | x :: xs', y :: ys' => f x y :: zip_with f xs' ys'
  | _, _ => []
  end.

(** ** One return in binary64

    The same arithmetic on the machine format: [x / prev - 1], times 100,
    and [numpy.round(x, 2)] as [rint(x * 100) / 100].  [rint] rounds to the
    nearest integer, ties to even; below [2^51] in magnitude this is what
    adding and subtracting [1.5 * 2^52] does. *)
Module Binary64.

Import PrimFloat.

Definition pct_change_value (close prev : float) : float :=
  ((close / prev - 1) * 100)%float.

Definition rint (x : float) : float :=
  ((x + 6755399441055744) - 6755399441055744)%float.

Definition round2 (x : float) : float := (rint (x * 100) / 100)%float.

(** The closes of the example, and the changes before and after rounding. *)
Definition close_100 : float := 100%float.
Definition close_110 : float := 110%float.
Definition close_99 : float := 99%float.
Definition raw_up : float := 0x1.4000000000005p+3%float.    (* 10.000000000000009 *)
Definition raw_down : float := (-0x1.3ffffffffffffp+3)%float. (* -9.9999999999999982 *)
Definition shown_up : float := 10%float.
Definition shown_down : float := (-10)%float.

End Binary64.

(** ** The calendar

    Day ordinals and their year and month, as [datetime] computes them
    ([_ymd2ord] and [_ord2ymd]); ordinal 1 is Monday 0001-01-01. *)

Definition is_leap (year : Z) : bool :=
  (year mod 4 =? 0) && (negb (year mod 100 =? 0) || (year mod 400 =? 0)).

Definition days_before_year (year : Z) : Z :=
  let y := year - 1 in y * 365 + y / 4 - y / 100 + y / 400.

Definition DAYS_IN_MONTH : list Z := [31; 28; 31; 30; 31; 30; 31; 31; 30; 31; 30; 31].

Definition month_length (month : Z) : Z :=
  nth (Z.to_nat (month - 1)) DAYS_IN_MONTH 0.

Definition days_in_month (year month : Z) : Z :=
  if (month =? 2) && is_leap year then 29 else month_length month.

Definition DAYS_BEFORE_MONTH (month : Z) : Z :=
  fold_right Z.add 0 (firstn (Z.to_nat (month - 1)) DAYS_IN_MONTH).

Definition days_before_month (year month : Z) : Z :=
  DAYS_BEFORE_MONTH month + (if (2 <? month) && is_leap year then 1 else 0).

Definition ymd2ord (year month day : Z) : Z :=
  days_before_year year + days_before_month year month + day.

Definition DI400Y : Z := days_before_year 401.
Definition DI100Y : Z := days_before_year 101.
Definition DI4Y : Z := days_before_year 5.

Definition ord2ymd (ordinal : Z) : Z * Z * Z :=
  let n := ordinal - 1 in
  let n400 := n / DI400Y in
  let n := n mod DI400Y in
  let year := n400 * 400 + 1 in
  let n100 := n / DI100Y in
  let n := n mod DI100Y in
  let n4 := n / DI4Y in
  let n := n mod DI4Y in
  let n1 := n / 365 in
  let n := n mod 365 in
  let year := year + n100 * 100 + n4 * 4 + n1 in
  if (n1 =? 4) || (n100 =? 4) then (year - 1, 12, 31)
  else
    let leapyear := (n1 =? 3) && (negb (n4 =? 24) || (n100 =? 3)) in
    let month := Z.shiftr (n + 50) 5 in
    let preceding :=
      DAYS_BEFORE_MONTH month + (if (2 <? month) && leapyear then 1 else 0) in
    if n <? preceding then
      let month := month - 1 in
      let preceding :=
        preceding - (month_length month
                     + (if (month =? 2) && leapyear then 1 else 0)) in
      (year, month, n - preceding + 1)
    else (year, month, n - preceding + 1).

(** Monday is 0, Friday is 4. *)
Definition weekday (ordinal : Z) : Z := (ordinal + 6) mod 7.

(** The month and the day of the [n]-th day of a year, counted from 0:
    the end of [_ord2ymd], used to reason about it. *)
Definition month_and_day (leapyear : bool) (n : Z) : Z * Z :=
  let month := Z.shiftr (n + 50) 5 in
  let preceding :=
    DAYS_BEFORE_MONTH month + (if (2 <? month) && leapyear then 1 else 0) in
  if n <? preceding then
    let month := month - 1 in
    let preceding :=
      preceding - (month_length month
                   + (if (month =? 2) && leapyear then 1 else 0)) in
    (month, n - preceding + 1)
  else (month, n - preceding + 1).

(** The month and the day found for the [n]-th day exist, and [n] days
    of the year come before them. *)
Definition month_and_day_ok (leapyear : bool) (n : Z) : bool :=
  let '(m, d) := month_and_day leapyear n in
  (1 <=? m) && (m <=? 12) && (1 <=? d)
  && (d <=? month_length m + (if (m =? 2) && leapyear then 1 else 0))
  && (DAYS_BEFORE_MONTH m + (if (2 <? m) && leapyear then 1 else 0) + d =? n + 1).

(** A month and a day that exist in a year. *)
Definition valid_date (y m d : Z) : Prop :=
  1 <= m <= 12 /\ 1 <= d <= days_in_month y m.

(** The ordinal of 9999-12-31, the last day of [datetime]. *)
Definition MAXORDINAL : Z := ymd2ord 9999 12 31.

(** The days from 0001-01-01 to 9999-12-31. *)
Definition in_calendar (t : Timestamp) : Prop := 1 <= t <= MAXORDINAL.

(** Comparison in lexicographic order. *)
Definition then_compare (c c' : comparison) : comparison :=
  match c with Eq => c' | _ => c end.

Definition date_compare (a b : Z * Z * Z) : comparison :=
  let '(y, m, d) := a in
  let '(y', m', d') := b in
  then_compare (y ?= y') (then_compare (m ?= m') (d ?= d')).

(** ** Date strings

    [strftime('%Y-%m-%d')]: the year on four digits, the month and the day
    on two, padded with zeros. *)

Definition digit (n : Z) : ascii := ascii_of_N (48 + Z.to_N (n mod 10)).

Fixpoint zero_padded (width : nat) (n : Z) : string :=
  match width with
  | O => EmptyString
  | S w => (zero_padded w (n / 10) ++ String (digit n) EmptyString)%string
  end.

Definition format_date (y m d : Z) : string :=
  (zero_padded 4 y ++ "-" ++ zero_padded 2 m ++ "-" ++ zero_padded 2 d)%string.

Definition strftime (t : Timestamp) : string :=
  let '(y, m, d) := ord2ymd t in format_date y m d.

(** A date of a request: the string of the JSON body, and the day that
    [strptime(..., '%Y-%m-%d')] and the label lookup of pandas read from
    it.  The handler is described for the date strings that can be read;
    [strptime] also reads a month or a day written without its leading
    zero. *)
Record DateString : Type := {
  text : string;
  day : Timestamp
}.

(** The date string of a day, written as [strftime] writes it. *)
Definition canonical (t : Timestamp) : DateString :=
  {| text := strftime t; day := t |}.

(** ** Resampling rules

    A rule sends a day to the label of its bucket, the last day of the
    period holding it, and a label to the next label. *)

Inductive Rule : Type :=
| W_FRI
| M_END.

Definition bucket (rule : Rule) (t : Timestamp) : Timestamp :=
  match rule with
  | W_FRI => t + (4 - weekday t) mod 7
  | M_END =>
      let '(y, m, _) := ord2ymd t in ymd2ord y m (days_in_month y m)
  end.

Definition next_label (rule : Rule) (label : Timestamp) : Timestamp :=
  match rule with
  | W_FRI => label + 7
  | M_END => bucket M_END (label + 1)
  end.

(** The labels from [lo] to [hi], ends included. *)
Fixpoint labels_from (fuel : nat) (rule : Rule) (lo hi : Timestamp) : list Timestamp :=
  match fuel with
  | O => []
  | S fuel' =>
      if hi <? lo then []
      else lo :: labels_from fuel' rule (next_label rule lo) hi
  end.

Definition index_min (ix : list Timestamp) : option Timestamp :=
  match ix with
  | [] => None
  | t :: ts => Some (fold_left Z.min ts t)
  end.

Definition index_max (ix : list Timestamp) : option Timestamp :=
  match ix with
  | [] => None
  | t :: ts => Some (fold_left Z.max ts t)
  end.

Definition bins (rule : Rule) (s : Series) : list Timestamp :=
  match index_min (index s), index_max (index s) with
  | Some lo, Some hi =>
      let l := bucket rule lo in
      let h := bucket rule hi in
      labels_from (Z.to_nat (h - l + 1)) rule l h
  | _, _ => []
  end.

(** The last valid value of a list of values, NaN when there is none. *)
Definition last_valid (vs : list float64) : float64 :=
  last (filter notna vs) NaN.

(** [s.resample(rule).last()]: one row per bucket between the first and the
    last observation; an empty bucket holds NaN. *)
Definition resample_last (rule : Rule) (s : Series) : Series :=
  map (fun label =>
         (label,
          last_valid (values (filter (fun r => bucket rule (fst r) =? label) s))))
      (bins rule s).

(** ** Aligning series on a shared index *)

Fixpoint insert_sorted (t : Timestamp) (ix : list Timestamp) : list Timestamp :=
  match ix with
  | [] => [t]
  | u :: ix' =>
      if t <? u then t :: ix
      else if t =? u then ix
      else u :: insert_sorted t ix'
  end.

(** The sorted union of the indexes of several series. *)
Definition index_union (ss : list Series) : list Timestamp :=
  fold_right insert_sorted [] (flat_map index ss).

(** The value of a series at a label, NaN where the label is absent. *)
Fixpoint at_label (s : Series) (t : Timestamp) : float64 :=
  match s with
  | [] => NaN
  | (u, v) :: s' => if t =? u then v else at_label s' t
  end.

(** [pd.concat(series_list, axis=1)]: one row per label of the union, one
    cell per series. *)
Definition concat_axis1 (ss : list Series) : list (Timestamp * list float64) :=
  map (fun t => (t, map (fun s => at_label s t) ss)) (index_union ss).

Definition fsum (vs : list float64) : float64 := fold_left fadd vs (Num 0).

(** The mean of the valid cells of a row (skipna), NaN when none is valid. *)
Definition nanmean (row : list float64) : float64 :=
  let valid := filter notna row in
  match valid with
  | [] => NaN
  | _ => fdiv (fsum valid) (Num (inject_Z (Z.of_nat (List.length valid))))
  end.

(** [df.mean(axis=1)] *)
Definition mean_axis1 (df : list (Timestamp * list float64)) : Series :=
  map (fun r => (fst r, nanmean (snd r))) df.

(** ** Dictionaries in insertion order *)

Fixpoint dict_get {V} (d : list (string * V)) (k : string) : option V :=
  match d with
  | [] => None
  | (k', v) :: d' => if String.eqb k k' then Some v else dict_get d' k
  end.

(** [d[k] = v]: an existing key keeps its place. *)
Fixpoint dict_set {V} (d : list (string * V)) (k : string) (v : V) : list (string * V) :=
  match d with
  | [] => [(k, v)]
  | (k', v') :: d' =>
      if String.eqb k k' then (k, v) :: d' else (k', v') :: dict_set d' k v
  end.

(** ** Data frames of per-theme columns *)

Record DataFrame : Type := {
  df_index : list Timestamp;
  df_columns : list (string * list float64)
}.

(** [pd.DataFrame(dict_of_series)]: the columns are outer-joined on the
    union of their indexes. *)
Definition DataFrame_of_dict (d : list (string * Series)) : DataFrame :=
  let ix := index_union (map snd d) in
  {| df_index := ix;
     df_columns := map (fun kv => (fst kv, map (at_label (snd kv)) ix)) d |}.

Fixpoint dropwhile {A} (f : A -> bool) (l : list A) : list A :=
  match l with
  | [] => []
  | x :: l' => if f x then dropwhile f l' else l
  end.

Fixpoint count_while {A} (f : A -> bool) (l : list A) : nat :=
  match l with
  | [] => O
  | x :: l' => if f x then S (count_while f l') else O
  end.

(** [s.loc[start:]] on a series with an increasing index: the rows from the
    first label that is not before [start]. *)
Definition loc_from (start : Timestamp) (s : Series) : Series :=
  dropwhile (fun r => fst r <? start) s.

(** [df.loc[start:]] *)
Definition df_loc_from (start : Timestamp) (df : DataFrame) : DataFrame :=
  let k := count_while (fun t => t <? start) (df_index df) in
  {| df_index := skipn k (df_index df);
     df_columns := map (fun c => (fst c, skipn k (snd c))) (df_columns df) |}.

(** ** Pearson correlation ([DataFrame.corr], [min_periods = 1]) *)

(** The observations of two columns on the rows where both are finite. *)
Fixpoint pairwise_complete (xs ys : list float64) : list (Q * Q) :=
  match xs, ys with
  | x :: xs', y :: ys' =>
      match x, y with
      | Num a, Num b => (a, b) :: pairwise_complete xs' ys'
      | _, _ => pairwise_complete xs' ys'
      end
  | _, _ => []
  end.

Definition Qsum (l : list Q) : Q := fold_right Qplus 0%Q l.

Definition Qmean (l : list Q) : Q := (Qsum l / inject_Z (Z.of_nat (List.length l)))%Q.

(** The sum over the observations of [(x - meanx) * (y - meany)]. *)
Definition codeviation (ps : list (Q * Q)) : Q :=
  let meanx := Qmean (map fst ps) in
  let meany := Qmean (map snd ps) in
  Qsum (map (fun p => ((fst p - meanx) * (snd p - meany))%Q) ps).

Definition swap (p : Q * Q) : Q * Q := (snd p, fst p).
Definition twice (p : Q * Q) : Q * Q := (fst p, fst p).

(** A coefficient is kept exactly, as the pair of [covxy] and of the square
    [ssqdm_x * ssqdm_y] of its divisor: it stands for
    [covxy / sqrt (ssqdm_x * ssqdm_y)]. *)
Record Coefficient : Type := {
  covxy : Q;
  divisor_sq : Q
}.

(** The quotient of a cell with at least one observation; [None] is NaN,
    the answer when the divisor is zero. *)
Definition quotient (ps : list (Q * Q)) : option Coefficient :=
  let ssqdm_x := codeviation (map twice ps) in
  let ssqdm_y := codeviation (map twice (map swap ps)) in
  if Qzero (ssqdm_x * ssqdm_y) then None
  else Some {| covxy := Qred (codeviation ps);
               divisor_sq := Qred (ssqdm_x * ssqdm_y) |}.

(** One cell of the matrix: NaN when no row has both columns finite
    ([nobs < min_periods]). *)
Definition nancorr (xs ys : list float64) : option Coefficient :=
  match pairwise_complete xs ys with
  | [] => None
  | ps => quotient ps
  end.

(** [df.corr().to_dict(orient='index')] *)
Definition corr (df : DataFrame) : list (string * list (string * option Coefficient)) :=
  map (fun a => (fst a, map (fun b => (fst b, nancorr (snd a) (snd b)))
                          (df_columns df)))
      (df_columns df).

(** ** Requests and responses of [/api/stock-data] *)

Inductive Result (A : Type) : Type :=
| Return (a : A)
| Raised.
Arguments Return {A} a.
Arguments Raised {A}.

Record Theme : Type := {
  name : string;
  codes : list string
}.

(** The JSON body; [None] is an absent key (for the dates, also an empty
    string).  The end date is only handed to the price source, and is
    kept as the day it denotes. *)
Record Request : Type := {
  themes : option (list Theme);
  startDate : option DateString;
  endDate : option Timestamp;
  timeframe : option string
}.

Record ThemedRecord : Type := {
  date : Timestamp;
  sector : string;
  value : float64
}.

Record StockRecord : Type := {
  stock_date : Timestamp;
  stock_name : string;
  stock_value : float64
}.

Inductive ErrorMessage : Type :=
| MissingParameters   (* the message of the 400 response *)
| CannotCompute.      (* the message of the 500 response *)

Inductive Response : Type :=
| Error (message : ErrorMessage) (status : Z)
| Payload (themed_returns : list ThemedRecord)
          (stock_level_returns : list StockRecord)
          (correlation_matrix : list (string * list (string * option Coefficient))).

(** One call of [fdr.DataReader(code, start, end)]. *)
Record FetchCall : Type := {
  call_code : string;
  call_start : Timestamp;
  call_end : Timestamp
}.

Definition get {A} (field : option A) (default : A) : A :=
  match field with
  | Some a => a
  | None => default
  end.

Section Pandas.

(** The pandas release.
    [true], up to pandas 2.x: [pct_change] forward-fills NaN before
    dividing ([fill_method='pad'] is the default), and [resample] accepts
    the alias ['M'] of the month-end rule.
    [false], the later releases: [pct_change] does not fill, and
    [resample('M')] raises [ValueError], the rule being named ['ME']. *)
Variable fill_pad : bool.

Definition filled (vs : list float64) : list float64 :=
  if fill_pad then ffill vs else vs.

(** [s.pct_change()]: [data / data.shift(1) - 1] on the filled data. *)
Definition pct_change (s : Series) : Series :=
  let data := filled (values s) in
  combine (index s)
          (zip_with (fun x p => fsub (fdiv x p) (Num 1)) data (shift1 data)).

(** The lookup [{'W': 'W-FRI', 'M': 'M'}.get(timeframe)] *)
Definition resample_period (timeframe : string) : option Rule :=
  dict_get [("W"%string, W_FRI); ("M"%string, M_END)] timeframe.

(** Whether [resample] accepts the alias that the table gives for a rule:
    ['W-FRI'] always, ['M'] up to pandas 2.x. *)
Definition alias_accepted (rule : Rule) : bool :=
  match rule with
  | W_FRI => true
  | M_END => fill_pad
  end.

(** [resample_and_calculate_returns(price_df, timeframe)].  A timeframe
    that is no key of the table makes [resample(None)] raise, and so does
    an alias that the release refuses. *)
Definition resample_and_calculate_returns
    (price_df : PriceFrame) (timeframe : string) : Result Series :=
  if String.eqb timeframe "D" then
    Return (times100 (pct_change (Close price_df)))
  else
    match resample_period timeframe with
    | None => Raised
    | Some rule =>
        if alias_accepted rule then
          let resampled_price := resample_last rule (Close price_df) in
          Return (times100 (pct_change resampled_price))
        else Raised
    end.

End Pandas.

(** What the handler finds around it: the pandas release, the directory
    loaded at start-up (pairs of [Code] and [Name]) and the price source
    [fdr.DataReader], which may raise. *)
Record Env : Type := {
  pct_change_pads : bool;
  ALL_STOCKS_LIST : list (string * string);
  DataReader : string -> Timestamp -> Timestamp -> Result PriceFrame
}.

Section Server.

Variable env : Env.

(** What the loop over the codes of one theme carries. *)
Record CodeLoop : Type := {
  theme_period_returns_list : list Series;
  stock_level : list (list StockRecord);
  fetches : list FetchCall
}.

(** The rows of [stock_df] after [dropna()]. *)
Definition stock_df (stock_name code : string) (daily_return : Series) : list StockRecord :=
  map (fun r => {| stock_date := fst r;
                   stock_name := stock_name ++ " (" ++ code ++ ")";
                   stock_value := snd r |})
      (dropna (round2 daily_return)).

(** The body of [for code in theme_codes]: the [try] block, whose
    [except Exception: continue] leaves the lists as they were.  On a
    date-indexed price table the statements of the block that can raise
    are the fetch and the return calculator, both before the first
    [append]. *)
Definition process_code
    (timeframe : string) (start_date : DateString)
    (effective_start_date end_date : Timestamp)
    (st : CodeLoop) (code : string) : CodeLoop :=
  let stock_info := find (fun item => String.eqb (fst item) code) (ALL_STOCKS_LIST env) in
  let stock_name := match stock_info with Some item => snd item | None => code end in
  let fetches' :=
    fetches st ++ [{| call_code := code;
                      call_start := effective_start_date;
                      call_end := end_date |}] in
  let skipped :=
    {| theme_period_returns_list := theme_period_returns_list st;
       stock_level := stock_level st;
       fetches := fetches' |} in
  match DataReader env code effective_start_date end_date with
  | Raised => skipped
  | Return price_df =>
      match price_df with
      | [] => skipped
      | _ =>
          match resample_and_calculate_returns (pct_change_pads env)
                                               price_df timeframe with
          | Raised => skipped
          | Return period_return =>
              {| theme_period_returns_list :=
                   theme_period_returns_list st ++ [period_return];
                 stock_level :=
                   if String.eqb timeframe "D" then
                     let daily_return :=
                       times100 (pct_change (pct_change_pads env) (Close price_df)) in
                     stock_level st
                       ++ [filter (fun r => String.leb (text start_date)
                                                       (strftime (stock_date r)))
                                  (stock_df stock_name code daily_return)]
                   else stock_level st;
                 fetches := fetches' |}
          end
      end
  end.

(** What the loop over the themes carries. *)
Record ThemeLoop : Type := {
  themed_returns_data : list (string * Series);
  stock_level_returns : list (list StockRecord);
  fetched : list FetchCall
}.

(** The body of [for theme in themes]. *)
Definition process_theme
    (timeframe : string) (start_date : DateString)
    (effective_start_date end_date : Timestamp)
    (st : ThemeLoop) (theme : Theme) : ThemeLoop :=
  let theme_name := name theme in
  let theme_codes := codes theme in
  let inner :=
    fold_left (process_code timeframe start_date effective_start_date end_date)
              theme_codes
              {| theme_period_returns_list := [];
                 stock_level := stock_level_returns st;
                 fetches := fetched st |} in
  {| themed_returns_data :=
       match theme_period_returns_list inner with
       | [] => themed_returns_data st
       | l =>
           let theme_avg_return := mean_axis1 (concat_axis1 l) in
           dict_set (themed_returns_data st) theme_name (dropna theme_avg_return)
       end;
     stock_level_returns := stock_level inner;
     fetched := fetches inner |}.

(** The rows that one theme adds to [final_themed_returns]. *)
Definition theme_df (start_date : Timestamp) (entry : string * Series) : list ThemedRecord :=
  let filtered_series := loc_from start_date (snd entry) in
  map (fun r => {| date := fst r; sector := fst entry; value := snd r |})
      (round2 filtered_series).

(** The state after the two loops, for a request that passed the check of
    its required fields; [day start_date] is [start_date_dt]. *)
Definition run_themes
    (themes : list Theme) (start_date : DateString) (end_date : Timestamp)
    (timeframe : string) : ThemeLoop :=
  let effective_start_date := day start_date - 7 in
  fold_left (process_theme timeframe start_date effective_start_date end_date)
            themes
            {| themed_returns_data := [];
               stock_level_returns := [];
               fetched := [] |}.

(** [get_stock_data()]: the response and the calls made to the price
    source, in order. *)
Definition get_stock_data (data : Request) : Response * list FetchCall :=
  let themes := get (themes data) [] in
  let start_date := startDate data in
  let end_date := endDate data in
  let timeframe := get (timeframe data) "D"%string in
  match start_date, end_date, themes with
  | Some start_date, Some end_date, _ :: _ =>
      let st := run_themes themes start_date end_date timeframe in
      match themed_returns_data st with
      | [] => (Error CannotCompute 500, fetched st)
      | themed =>
          let correlation_df :=
            df_loc_from (day start_date) (DataFrame_of_dict themed) in
          let correlation_matrix := corr correlation_df in
          let final_themed_returns := flat_map (theme_df (day start_date)) themed in
          (Payload final_themed_returns
                   (List.concat (stock_level_returns st))
                   correlation_matrix,
           fetched st)
      end
  | _, _, _ => (Error MissingParameters 400, [])
  end.

(** ** The two loops as folds

    What one code adds to each of the three lists, read off the [try]
    block; the lemmas below show that the loops compute exactly these. *)

Section Contributions.

Variable timeframe : string.
Variable start_date : DateString.
Variables effective_start_date end_date : Timestamp.

(** The price table and the period returns of a code that is not skipped. *)
Definition contribution (code : string) : option (PriceFrame * Series) :=
  match DataReader env code effective_start_date end_date with
  | Return (r :: rest) =>
      match resample_and_calculate_returns (pct_change_pads env) (r :: rest) timeframe with
      | Return period_return => Some (r :: rest, period_return)
      | Raised => None
      end
  | _ => None
  end.

Definition display_name (code : string) : string :=
  match find (fun item => String.eqb (fst item) code) (ALL_STOCKS_LIST env) with
  | Some item => snd item
  | None => code
  end.

Definition period_returns_of (code : string) : list Series :=
  match contribution code with
  | Some (_, period_return) => [period_return]
  | None => []
  end.

Definition stock_frames_of (code : string) : list (list StockRecord) :=
  match contribution code with
  | Some (price_df, _) =>
      if String.eqb timeframe "D" then
        [filter (fun r => String.leb (text start_date) (strftime (stock_date r)))
                (stock_df (display_name code) code
                          (times100 (pct_change (pct_change_pads env) (Close price_df))))]
      else []
  | None => []
  end.

Definition fetch_of (code : string) : FetchCall :=
  {| call_code := code;
     call_start := effective_start_date;
     call_end := end_date |}.

(** What one theme does to the dictionary of theme averages. *)
Definition theme_update (d : list (string * Series)) (theme : Theme)
    : list (string * Series) :=
  match flat_map period_returns_of (codes theme) with
  | [] => d
  | l => dict_set d (name theme) (dropna (mean_axis1 (concat_axis1 l)))
  end.

Definition stock_frames_of_theme (theme : Theme) : list (list StockRecord) :=
  flat_map stock_frames_of (codes theme).

Definition fetches_of_theme (theme : Theme) : list FetchCall :=
  map (fetch_of) (codes theme).

End Contributions.

End Server.


(** ** The return rule in the words of the specification

    [(close[t] - close[t-1]) / close[t-1] * 100], for every observation
    after the first. *)

Definition percent_change (prev close : Q) : Q :=
  ((close - prev) / prev * 100)%Q.

Fixpoint lagged_returns (prev : Q) (price_df : PriceFrame) : Series :=
  match price_df with
  | [] => []
  | (t, c) :: rest => (t, Num (percent_change prev c)) :: lagged_returns c rest
  end.

Definition spec_daily_returns (price_df : PriceFrame) : Series :=
  match price_df with
  | [] => []
  | (_, c) :: rest => lagged_returns c rest
  end.

Definition nonzero_closes (price_df : PriceFrame) : Prop :=
  Forall (fun r => ~ (snd r == 0)%Q) price_df.

(** Two series with the same labels and the same values. *)
Definition series_eq (s1 s2 : Series) : Prop :=
  Forall2 (fun a b => fst a = fst b /\ feq (snd a) (snd b)) s1 s2.

(** ** Sample data *)

Definition d2024_01_01 : Timestamp := ymd2ord 2024 1 1.
Definition d2024_01_08 : Timestamp := ymd2ord 2024 1 8.
Definition d2024_01_10 : Timestamp := ymd2ord 2024 1 10.

(** Three closes on three consecutive days. *)
Definition three_closes : PriceFrame :=
  [(d2024_01_01, 100%Q); (d2024_01_01 + 1, 110%Q); (d2024_01_01 + 2, 99%Q)].

Definition one_close : PriceFrame := [(d2024_01_01, 100%Q)].

(** A price source that knows one symbol, ["X"], and answers with the same
    table whatever the range. *)
Definition only_X (price_df : PriceFrame) (code : string) (_ _ : Timestamp)
    : Result PriceFrame :=
  if String.eqb code "X" then Return price_df else Raised.

Definition sample_env (fill_pad : bool)
    (reader : string -> Timestamp -> Timestamp -> Result PriceFrame) : Env :=
  {| pct_change_pads := fill_pad;
     ALL_STOCKS_LIST := [];
     DataReader := reader |}.

Definition theme_T1 : Theme := {| name := "T1"; codes := ["X"%string] |}.

Definition daily_request (start_date end_date : Timestamp) : Request :=
  {| themes := Some [theme_T1];
     startDate := Some (canonical start_date);
     endDate := Some end_date;
     timeframe := Some "D"%string |}.

(** ** The theme average in the words of the specification

    The values that the member series hold on a date, and their arithmetic
    mean. *)

Definition present (l : list Series) (t : Timestamp) : list float64 :=
  filter notna (map (fun s => at_label s t) l).

Definition arithmetic_mean (vs : list float64) : float64 :=
  fdiv (fsum vs) (Num (inject_Z (Z.of_nat (List.length vs)))).

Definition mean_of_present (l : list Series) (t : Timestamp) : float64 :=
  match present l t with
  | [] => NaN
  | vs => arithmetic_mean vs
  end.

(** Series A holds 10 on 2024-01-08 and -4 the next day; series B has no
    row on 2024-01-08 and holds 2 the next day. *)
Definition series_A : Series := [(d2024_01_08, Num 10); (d2024_01_08 + 1, Num (-4))].
Definition series_B : Series := [(d2024_01_08 + 1, Num 2)].

(** ** The correlation matrix in the words of the specification *)

(** The real number that a coefficient stands for. *)
Definition coefficient_value (c : Coefficient) : R :=
  (Q2R (covxy c) / sqrt (Q2R (divisor_sq c)))%R.

Definition Rsum (l : list R) : R := fold_right Rplus 0%R l.

Definition Rmean (l : list R) : R := (Rsum l / INR (List.length l))%R.

(** Pearson's coefficient of a list of paired observations. *)
Definition pearson (ps : list (Q * Q)) : R :=
  let xs := map (fun p => Q2R (fst p)) ps in
  let ys := map (fun p => Q2R (snd p)) ps in
  let dx := map (fun x => (x - Rmean xs)%R) xs in
  let dy := map (fun y => (y - Rmean ys)%R) ys in
  (Rsum (zip_with Rmult dx dy)
   / sqrt (Rsum (zip_with Rmult dx dx) * Rsum (zip_with Rmult dy dy)))%R.

(** The cell of row [a] and column [b] of a matrix. *)
Definition matrix_entry {V} (m : list (string * list (string * V))) (a b : string)
    : option V :=
  match dict_get m a with
  | Some row => dict_get row b
  | None => None
  end.

(** The finite values of a column. *)
Fixpoint finite_values (xs : list float64) : list Q :=
  match xs with
  | [] => []
  | Num q :: xs' => q :: finite_values xs'
  | _ :: xs' => finite_values xs'
  end.

Definition all_equal (l : list Q) : Prop :=
  forall a b, In a l -> In b l -> (a == b)%Q.

Definition dup (q : Q) : Q * Q := (q, q).

(** A series whose labels increase strictly. *)
Definition increasing (s : Series) : Prop :=
  StronglySorted (fun a b => fst a < fst b) s.

(** A request with its three required fields. *)
Definition request (ths : list Theme) (start_date : DateString)
    (end_date : Timestamp) (tf : option string) : Request :=
  {| themes := Some ths;
     startDate := Some start_date;
     endDate := Some end_date;
     timeframe := tf |}.

(** The closes of the trading days from 2024-01-01 to 2024-01-10. *)
Definition ten_days : PriceFrame :=
  [(d2024_01_01, 100%Q); (d2024_01_01 + 1, 110%Q); (d2024_01_01 + 2, 99%Q);
   (d2024_01_01 + 3, 99%Q); (d2024_01_01 + 4, 100%Q);
   (d2024_01_08, 102%Q); (d2024_01_08 + 1, 51%Q); (d2024_01_10, 102%Q)].

(** Four trading days on which the close does not move. *)
Definition flat_closes : PriceFrame :=
  [(d2024_01_08 - 3, 100%Q); (d2024_01_08, 100%Q);
   (d2024_01_08 + 1, 100%Q); (d2024_01_10, 100%Q)].

(** The three parts of an answer, empty for an error. *)
Definition payload_parts (r : Response)
    : list ThemedRecord * list StockRecord
      * list (string * list (string * option Coefficient)) :=
  match r with
  | Payload themed_returns stock_rows matrix => (themed_returns, stock_rows, matrix)
  | Error _ _ => ([], [], [])
  end.

(** Symbol A trades on 2024-01-05, 08 and 09; symbol B has no row on
    2024-01-08; any other symbol makes the price source raise. *)
Definition closes_A : PriceFrame :=
  [(d2024_01_08 - 3, 100%Q); (d2024_01_08, 110%Q); (d2024_01_08 + 1, 99%Q)].

Definition closes_B : PriceFrame :=
  [(d2024_01_08 - 3, 100%Q); (d2024_01_08 + 1, 102%Q)].

Definition reader_AB (code : string) (_ _ : Timestamp) : Result PriceFrame :=
  if String.eqb code "A" then Return closes_A
  else if String.eqb code "B" then Return closes_B
  else Raised.

Definition theme_AB : Theme := {| name := "AB"; codes := ["A"; "B"]%string |}.

(** A price source that is down. *)
Definition reader_down (_ : string) (_ _ : Timestamp) : Result PriceFrame := Raised.

(** ** The symbol directory loaded at start-up, and [/api/all-stocks] *)

(** A cell of a listing; [None] is a missing value (NaN or None). *)
Definition Cell : Type := option string.

(** A listing: its columns by name.  The names of the columns of one
    listing are distinct, also once [Symbol] is renamed. *)
Definition Listing : Type := list (string * list Cell).

(** [market_list]: the display name and the code of each market, in the
    order of the dictionary. *)
Definition market_list : list (string * string) :=
  [("KOSPI", "KOSPI"); ("KOSDAQ", "KOSDAQ"); ("ETF", "ETF-KR");
   ("NASDAQ", "NASDAQ"); ("NYSE", "NYSE")]%string.

(** ['Symbol' in df.columns] *)
Definition has_column (df : Listing) (c : string) : bool :=
  existsb (fun col => String.eqb (fst col) c) df.

(** [df.rename(columns={old: new})] *)
Definition rename_column (old new : string) (df : Listing) : Listing :=
  map (fun col => (if String.eqb (fst col) old then new else fst col, snd col)) df.

(** [df[['Code', 'Name']]]: the rows of the two columns; a missing column
    raises [KeyError]. *)
Definition select_Code_Name (df : Listing) : Result (list (Cell * Cell)) :=
  match dict_get df "Code", dict_get df "Name" with
  | Some code, Some name => Return (combine code name)
  | _, _ => Raised
  end.

(** [dropna()]: the rows without a missing value. *)
Definition complete_rows (rows : list (Cell * Cell)) : list (string * string) :=
  flat_map (fun r => match r with
                     | (Some code, Some name) => [(code, name)]
                     | _ => []
                     end) rows.

(** [drop_duplicates(subset=['Code'])]: a row is kept when its code was not
    seen before. *)
Fixpoint drop_duplicates (seen : list string) (rows : list (string * string))
    : list (string * string) :=
  match rows with
  | [] => []
  | (code, name) :: rest =>
      if existsb (String.eqb code) seen then drop_duplicates seen rest
      else (code, name) :: drop_duplicates (code :: seen) rest
  end.

Section Directory.

(** [fdr.StockListing]: the listing source, which may raise. *)
Variable StockListing : string -> Result Listing.

(** The [try] block of the loop over the markets: what is appended to
    [all_dfs], unless something raises. *)
Definition load_listing (market_code : string) : Result (list (Cell * Cell)) :=
  match StockListing market_code with
  | Raised => Raised
  | Return df =>
      let df := if has_column df "Symbol"
                then rename_column "Symbol" "Code" df else df in
      select_Code_Name df
  end.

(** The listing of a market, when it loaded. *)
Definition loaded (market : string * string) : list (list (Cell * Cell)) :=
  match load_listing (snd market) with
  | Return df => [df]
  | Raised => []
  end.

(** The body of [for market_name, market_code in market_list.items()]. *)
Definition load_step (all_dfs : list (list (Cell * Cell))) (market : string * string)
    : list (list (Cell * Cell)) :=
  match load_listing (snd market) with
  | Return df => all_dfs ++ [df]
  | Raised => all_dfs
  end.

(** The value of [ALL_STOCKS_LIST] after start-up: records of [Code] and
    [Name]. *)
Definition load_all_stocks (markets : list (string * string)) : list (string * string) :=
  let all_dfs := fold_left load_step markets [] in
  match all_dfs with
  | [] => []
  | _ =>
      let stocks := List.concat all_dfs in
      drop_duplicates [] (complete_rows stocks)
  end.

(** The complete rows of the listings that loaded, in the order of the
    markets. *)
Definition loaded_rows (markets : list (string * string)) : list (string * string) :=
  complete_rows
    (flat_map (fun market => match load_listing (snd market) with
                             | Return df => df
                             | Raised => []
                             end) markets).

End Directory.

Inductive StocksResponse : Type :=
| StocksError (status : Z)
| Stocks (stocks : list (string * string)).

(** [get_all_stocks()] *)
Definition get_all_stocks (ALL_STOCKS_LIST : list (string * string)) : StocksResponse :=
  match ALL_STOCKS_LIST with
  | [] => StocksError 500
  | _ => Stocks ALL_STOCKS_LIST
  end.

(** The first record of a directory under a code. *)
Definition lookup (directory : list (string * string)) (code : string)
    : option (string * string) :=
  find (fun item => String.eqb (fst item) code) directory.

(** Listings for the examples: one names its symbols [Code], one [Symbol],
    and a third market is down. *)
Definition listing_kospi : Listing :=
  [("Code", [Some "005930"; Some "000660"; None]);
   ("Name", [Some "Samsung"; Some "Hynix"; Some "Ghost"])]%string.

Definition listing_etf : Listing :=
  [("Symbol", [Some "069500"; Some "005930"]);
   ("Category", [Some "1"; Some "1"]);
   ("Name", [Some "KODEX 200"; Some "Samsung again"])]%string.

Definition sample_listings (market_code : string) : Result Listing :=
  if String.eqb market_code "KOSPI" then Return listing_kospi
  else if String.eqb market_code "ETF-KR" then Return listing_etf
  else Raised.

(** A price source that knows the symbols A and B, and answers with an
    empty table for the symbol E. *)
Definition reader_ABE (code : string) (a b : Timestamp) : Result PriceFrame :=
  if String.eqb code "E" then Return [] else reader_AB code a b.

Definition theme_A : Theme := {| name := "TA"; codes := ["A"%string] |}.
Definition theme_B : Theme := {| name := "TB"; codes := ["B"%string] |}.

(** A server whose directory was loaded from the sample listings, and whose
    price source knows one of the listed symbols and one that is not
    listed. *)
Definition listed_env : Env :=
  {| pct_change_pads := true;
     ALL_STOCKS_LIST := load_all_stocks sample_listings market_list;
     DataReader := fun code _ _ =>
       if String.eqb code "005930" then Return ten_days
       else if String.eqb code "X" then Return three_closes
       else Raised |}.

(** ** Notions used to state further properties of the calculator *)

(** A value in another unit: a finite value is multiplied by [k]. *)
Definition fscale (k : Q) (v : float64) : float64 :=
  match v with
  | Num q => Num (k * q)
  | _ => v
  end.

(** A price table quoted in another unit. *)
Definition scale_prices (k : Q) (price_df : PriceFrame) : PriceFrame :=
  map (fun r => (fst r, (k * snd r)%Q)) price_df.

(** Each element of a list with its successor. *)
Definition consecutive {A} (l : list A) : list (A * A) := combine l (tl l).

(** The price reached from [c0] through a list of percent returns. *)
Definition compound (c0 : Q) (returns : list Q) : Q :=
  fold_left (fun acc r => (acc * (1 + r / 100))%Q) returns c0.

Definition positive_closes (price_df : PriceFrame) : Prop :=
  Forall (fun r => (0 < snd r)%Q) price_df.

(** A row of returns against the two observations it compares: it bears
    the date of the later one, it is a number above -100, and its sign is
    the direction of the move of the close. *)
Definition moves_like (row : Timestamp * float64)
    (pair : (Timestamp * Q) * (Timestamp * Q)) : Prop :=
  fst row = fst (snd pair)
  /\ exists q,
       snd row = Num q
       /\ (-100 < q)%Q
       /\ ((0 < q)%Q <-> (snd (fst pair) < snd (snd pair))%Q)
       /\ ((q == 0)%Q <-> (snd (fst pair) == snd (snd pair))%Q).

(** ** Notions used to state further properties of the handler *)

Definition themed_rows (r : Response) : list ThemedRecord :=
  fst (fst (payload_parts r)).

Definition stock_rows (r : Response) : list StockRecord :=
  snd (fst (payload_parts r)).

Definition matrix_of (r : Response)
    : list (string * list (string * option Coefficient)) :=
  snd (payload_parts r).

(** A theme of which at least one symbol is not skipped. *)
Definition contributes (env : Env) (tf : string) (eff stop : Timestamp)
    (th : Theme) : Prop :=
  exists code, In code (codes th) /\ contribution env tf eff stop code <> None.

(** The average series of a theme, from the period returns of its
    symbols that are not skipped. *)
Definition theme_average (env : Env) (tf : string) (eff stop : Timestamp)
    (th : Theme) : Series :=
  dropna (mean_axis1 (concat_axis1
                        (flat_map (period_returns_of env tf eff stop) (codes th)))).

(** The label of a stock-level row. *)
Definition stock_label (env : Env) (code : string) : string :=
  (display_name env code ++ " (" ++ code ++ ")")%string.

(** * Properties of the return calculator *)

Lemma Qzero_false (q : Q) : Qzero q = false <-> ~ (q == 0)%Q.
Proof.
  unfold Qzero, Qeq. simpl. rewrite Z.eqb_neq. split; intros H E; apply H; lia.
Qed.

Lemma Qzero_true (q : Q) : Qzero q = true <-> (q == 0)%Q.
Proof.
  unfold Qzero, Qeq. simpl. rewrite Z.eqb_eq. lia.
Qed.

Lemma feq_refl (x : float64) : feq x x.
Proof. destruct x; simpl; auto. reflexivity. Qed.

Lemma zip_with_length {A B C} (f : A -> B -> C) xs ys :
  List.length (zip_with f xs ys) = Nat.min (List.length xs) (List.length ys).
Proof.
  revert ys; induction xs as [|x xs IH]; intros [|y ys]; simpl; auto.
Qed.

Lemma removelast_cons_length {A} (x : A) l :
  List.length (removelast (x :: l)) = List.length l.
Proof.
  revert x; induction l as [|y l IH]; intros x; auto.
  change (removelast (x :: y :: l)) with (x :: removelast (y :: l)).
  cbn [List.length]. f_equal. apply IH.
Qed.

Lemma shift1_length vs : List.length (shift1 vs) = List.length vs.
Proof. apply removelast_cons_length. Qed.

(** Zipping against the shifted column is zipping against the column with
    NaN put in front. *)
Lemma zip_with_shift1 {C} (f : float64 -> float64 -> C) vs :
  zip_with f vs (shift1 vs) = zip_with f vs (NaN :: vs).
Proof.
  unfold shift1. generalize NaN. induction vs as [|v vs IH]; intros p; auto.
  change (removelast (p :: v :: vs)) with (p :: removelast (v :: vs)).
  cbn [zip_with]. f_equal. apply IH.
Qed.

Lemma ffill_from_length p vs : List.length (ffill_from p vs) = List.length vs.
Proof. revert p; induction vs; simpl; auto. Qed.

Lemma ffill_from_valid p vs :
  forallb notna vs = true -> ffill_from p vs = vs.
Proof.
  revert p; induction vs as [|v vs IH]; intros p H; auto.
  simpl in *. apply andb_prop in H. destruct H as [Hv Hvs].
  unfold notna in Hv. destruct (isna v); [discriminate|].
  now rewrite IH.
Qed.

Lemma index_combine (ix : list Timestamp) (vs : list float64) :
  List.length ix = List.length vs -> index (combine ix vs) = ix.
Proof.
  revert vs; induction ix as [|t ix IH]; intros [|v vs] H; simpl in *; try discriminate; auto.
  f_equal. apply IH. lia.
Qed.

Lemma index_smap f s : index (smap f s) = index s.
Proof. unfold index, smap. rewrite map_map. reflexivity. Qed.

Lemma values_Close price_df : values (Close price_df) = map (fun r => Num (snd r)) price_df.
Proof. unfold values, Close. now rewrite map_map. Qed.

Lemma index_Close price_df : index (Close price_df) = map fst price_df.
Proof. unfold index, Close. now rewrite map_map. Qed.

Section Calculator.

Variable fill_pad : bool.

Lemma filled_length vs : List.length (filled fill_pad vs) = List.length vs.
Proof. unfold filled, ffill. destruct fill_pad; auto using ffill_from_length. Qed.

Lemma pct_change_length s : List.length (pct_change fill_pad s) = List.length s.
Proof.
  unfold pct_change.
  rewrite length_combine, zip_with_length, shift1_length, filled_length.
  unfold index, values. rewrite !length_map. lia.
Qed.

Lemma pct_change_index s : index (pct_change fill_pad s) = index s.
Proof.
  unfold pct_change. apply index_combine.
  rewrite zip_with_length, shift1_length, filled_length.
  unfold index, values. rewrite !length_map. lia.
Qed.

(** The first row of a percent change is NaN. *)
Lemma pct_change_head t v s :
  exists rest, pct_change fill_pad ((t, v) :: s) = (t, NaN) :: rest.
Proof.
  unfold pct_change.
  rewrite zip_with_shift1.
  assert (H : exists w ws, filled fill_pad (values ((t, v) :: s)) = w :: ws).
  { unfold filled, ffill. destruct fill_pad; simpl; eauto. }
  destruct H as (w & ws & ->). simpl.
  exists (combine (index s)
            (zip_with (fun x p => fsub (fdiv x p) (Num 1)) ws (w :: ws))).
  destruct w; reflexivity.
Qed.

End Calculator.

(** The lag-1 change computed as [x / prev - 1] and scaled by 100 is the
    change of the specification. *)
Lemma pct_value (prev c : Q) :
  ~ (prev == 0)%Q ->
  feq (fmul (fsub (fdiv (Num c) (Num prev)) (Num 1)) (Num 100))
      (Num (percent_change prev c)).
Proof.
  intros Hp. unfold fdiv. apply Qzero_false in Hp as Hz. rewrite Hz.
  cbn [fmul fsub fadd fopp feq]. unfold percent_change.
  rewrite !Qred_correct. field. exact Hp.
Qed.

Lemma forallb_notna_Num (price_df : PriceFrame) :
  forallb notna (map (fun r => Num (snd r)) price_df) = true.
Proof. induction price_df; simpl; auto. Qed.

Lemma filled_closes fill_pad price_df :
  filled fill_pad (values (Close price_df)) = map (fun r => Num (snd r)) price_df.
Proof.
  rewrite values_Close. unfold filled, ffill. destruct fill_pad; auto.
  apply ffill_from_valid, forallb_notna_Num.
Qed.

Lemma length_lagged_returns prev price_df :
  List.length (lagged_returns prev price_df) = List.length price_df.
Proof.
  revert prev; induction price_df as [|[t c] rest IH]; intros prev; simpl; auto.
Qed.

Lemma lagged_changes (prev : Q) (rest : PriceFrame) :
  ~ (prev == 0)%Q -> nonzero_closes rest ->
  series_eq
    (dropna (times100
       (combine (map fst rest)
          (zip_with (fun x p => fsub (fdiv x p) (Num 1))
             (map (fun r => Num (snd r)) rest)
             (Num prev :: map (fun r => Num (snd r)) rest)))))
    (lagged_returns prev rest).
Proof.
  revert prev; induction rest as [|[t c] rest IH]; intros prev Hp Hnz.
  - constructor.
  - inversion Hnz as [|? ? Hc Hrest]; subst. simpl in Hc.
    pose proof (pct_value prev c Hp) as Hv.
    cbn [map fst snd zip_with combine times100 smap].
    unfold dropna. cbn [filter snd].
    destruct (fmul (fsub (fdiv (Num c) (Num prev)) (Num 1)) (Num 100)) eqn:E;
      simpl in Hv; try contradiction.
    cbn [notna isna negb lagged_returns]. constructor.
    + simpl. auto.
    + apply (IH c Hc Hrest).
Qed.

Lemma series_eq_length s1 s2 : series_eq s1 s2 -> List.length s1 = List.length s2.
Proof. induction 1; simpl; auto. Qed.

Lemma series_eq_index s1 s2 : series_eq s1 s2 -> index s1 = index s2.
Proof. induction 1 as [|a b ? ? [H _]]; simpl; auto. f_equal; auto. Qed.

Lemma index_lagged_returns prev rest : index (lagged_returns prev rest) = map fst rest.
Proof.
  revert prev; induction rest as [|[t c] rest IH]; intros prev; simpl; auto.
  f_equal. apply IH.
Qed.

(** The daily branch: the answer has one row per observation, and once the
    NaN rows are dropped it is the series of the specification. *)
Lemma daily_returns (fill_pad : bool) (price_df : PriceFrame) :
  nonzero_closes price_df ->
  series_eq (dropna (times100 (pct_change fill_pad (Close price_df))))
            (spec_daily_returns price_df).
Proof.
  intros Hnz. unfold pct_change. rewrite filled_closes, zip_with_shift1, index_Close.
  destruct price_df as [|[t0 c0] rest]; [constructor|].
  inversion Hnz as [|? ? Hc Hrest]; subst. simpl in Hc.
  cbn [map fst snd zip_with combine times100 smap spec_daily_returns].
  unfold dropna. cbn [filter snd fdiv fsub fadd fmul notna isna negb].
  apply (lagged_changes c0 rest Hc Hrest).
Qed.

(** C1: for the closes 100, 110, 99 the daily branch of the return
    calculator answers NaN, 10, -10, each change being
    [(close[t] - close[t-1]) / close[t-1] * 100]; the presentation step of
    the handler (drop the NaN row, round to 2 decimals) shows exactly
    10.00 and -10.00, in the stock-level rows as in the themed rows.  In
    binary64 the two changes are 10.000000000000009 and
    -9.9999999999999982, and the rounding to 2 decimals is what makes them
    exactly 10 and -10. *)
Theorem C1_daily_returns_of_100_110_99 (fill_pad : bool) (t0 t1 t2 : Timestamp) :
  let price_df := [(t0, 100%Q); (t1, 110%Q); (t2, 99%Q)] in
  resample_and_calculate_returns fill_pad price_df "D"
    = Return [(t0, NaN); (t1, Num 10); (t2, Num (-10))]
  /\ round2 (dropna (times100 (pct_change fill_pad (Close price_df))))
     = [(t1, Num 10); (t2, Num (-10))]
  /\ (percent_change 100 110 == 10)%Q
  /\ (percent_change 110 99 == -10)%Q
  /\ map stock_value
         (stock_df "X" "X" (times100 (pct_change fill_pad (Close price_df))))
     = [Num 10; Num (-10)]
  /\ fst (get_stock_data (sample_env fill_pad (only_X three_closes))
            (daily_request d2024_01_01 (d2024_01_01 + 2)))
     = Payload
         [{| date := d2024_01_01 + 1; sector := "T1"; value := Num 10 |};
          {| date := d2024_01_01 + 2; sector := "T1"; value := Num (-10) |}]
         [{| stock_date := d2024_01_01 + 1; stock_name := "X (X)";
             stock_value := Num 10 |};
          {| stock_date := d2024_01_01 + 2; stock_name := "X (X)";
             stock_value := Num (-10) |}]
         [("T1"%string,
           [("T1"%string, Some {| covxy := 200; divisor_sq := 40000 |})])]
  /\ Binary64.pct_change_value Binary64.close_110 Binary64.close_100
     = Binary64.raw_up
  /\ Binary64.pct_change_value Binary64.close_99 Binary64.close_110
     = Binary64.raw_down
  /\ Binary64.round2 Binary64.raw_up = Binary64.shown_up
  /\ Binary64.round2 Binary64.raw_down = Binary64.shown_down.
Proof.
  destruct fill_pad; vm_compute; repeat split; reflexivity.
Qed.

Lemma pct_change_single fill_pad t v : pct_change fill_pad [(t, v)] = [(t, NaN)].
Proof.
  destruct (pct_change_head fill_pad t v []) as [rest E].
  pose proof (pct_change_length fill_pad [(t, v)]) as L.
  rewrite E in *. destruct rest; [reflexivity | discriminate].
Qed.

Lemma resample_last_single rule t c :
  resample_last rule (Close [(t, c)]) = [(bucket rule t, Num c)].
Proof.
  unfold resample_last, bins. cbn [Close map index fst snd index_min index_max fold_left].
  replace (bucket rule t - bucket rule t + 1) with 1 by lia.
  change (Z.to_nat 1) with 1%nat. cbn [labels_from].
  rewrite Z.ltb_irrefl. cbn [map filter fst].
  rewrite Z.eqb_refl. reflexivity.
Qed.

(** C2 (as stated, refuted): for the three closes the daily branch answers
    three rows, not two: the first row is kept, holding NaN. *)
Lemma C2_counterexample :
  ~ (exists s, resample_and_calculate_returns true three_closes "D" = Return s
               /\ List.length s = (List.length three_closes - 1)%nat)
  /\ ~ (exists s, resample_and_calculate_returns false three_closes "D" = Return s
                  /\ List.length s = (List.length three_closes - 1)%nat).
Proof.
  split; intros (s & E & L); vm_compute in E; inversion E; subst; discriminate.
Qed.

(** C2 (amended): with timeframe DAILY the return calculator answers one
    row per observation, under the dates of the price series, and the
    first row holds NaN; the first observation is dropped later, by the
    [dropna()] of the handler: when no close is zero, the rows that remain
    are the L-1 lag-1 percent changes of the observations after the first. *)
Theorem C2_daily_returns_keep_a_NaN_first_row
    (fill_pad : bool) (price_df : PriceFrame) :
  exists s,
    resample_and_calculate_returns fill_pad price_df "D" = Return s
    /\ index s = map fst price_df
    /\ List.length s = List.length price_df
    /\ (price_df <> [] -> option_map snd (hd_error s) = Some NaN)
    /\ (nonzero_closes price_df ->
        series_eq (dropna s) (spec_daily_returns price_df)
        /\ List.length (dropna s) = (List.length price_df - 1)%nat).
Proof.
  eexists. split; [reflexivity|]. repeat split.
  - unfold times100. now rewrite index_smap, pct_change_index, index_Close.
  - unfold times100, smap, Close. now rewrite length_map, pct_change_length, length_map.
  - intros Hne. destruct price_df as [|[t c] rest]; [contradiction|].
    cbn [Close map fst snd].
    destruct (pct_change_head fill_pad t (Num c) (Close rest)) as [rest' E].
    unfold Close in E. rewrite E. reflexivity.
  - now apply daily_returns.
  - rewrite (series_eq_length _ _ (daily_returns fill_pad price_df H)).
    destruct price_df as [|[t c] rest]; simpl; auto.
    rewrite length_lagged_returns. lia.
Qed.

Lemma C2_witness :
  exists s,
    resample_and_calculate_returns true three_closes "D" = Return s
    /\ List.length s = 3%nat
    /\ List.length (dropna s) = 2%nat.
Proof.
  destruct (C2_daily_returns_keep_a_NaN_first_row true three_closes)
    as (s & E & _ & L & _ & H).
  exists s. split; [exact E|]. split; [exact L|].
  apply H. repeat constructor; simpl; intros Q; discriminate Q.
Defined.

(** C7 (as stated, refuted): for a single observation the daily branch
    answers one row holding NaN, not the empty series. *)
Lemma C7_counterexample :
  resample_and_calculate_returns true one_close "D" = Return [(d2024_01_01, NaN)]
  /\ resample_and_calculate_returns true one_close "D" <> Return [].
Proof.
  split; [reflexivity|]. vm_compute. discriminate.
Qed.

(** C7 (amended): for a price series with fewer than 2 observations, the
    return calculator raises no error for the timeframes D and W, nor for
    M on the pandas releases that accept the alias ['M'] of [resample]; it
    answers a series with no defined return: it has as many rows as the
    input (none, or one holding NaN), and nothing is left of it after the
    [dropna()] of the handler.  On the later releases the timeframe M makes
    [resample] raise. *)
Theorem C7_short_series_have_no_defined_return
    (fill_pad : bool) (price_df : PriceFrame) (timeframe : string) :
  (List.length price_df <= 1)%nat ->
  In timeframe ["D"; "W"; "M"]%string ->
  if String.eqb timeframe "M" && negb fill_pad
  then resample_and_calculate_returns fill_pad price_df timeframe = Raised
  else exists s,
         resample_and_calculate_returns fill_pad price_df timeframe = Return s
         /\ dropna s = []
         /\ List.length s = List.length price_df.
Proof.
  intros L Htf.
  assert (Hshape : price_df = [] \/ exists t c, price_df = [(t, c)]).
  { destruct price_df as [|[t c] [|]]; simpl in L; eauto; lia. }
  unfold resample_and_calculate_returns.
  simpl in Htf. destruct Htf as [<-|[<-|[<-|[]]]].
  - cbn [String.eqb Ascii.eqb Bool.eqb andb].
    destruct Hshape as [->|(t & c & ->)].
    + destruct fill_pad; (eexists; split; [reflexivity|]; split; reflexivity).
    + cbn [Close map fst snd]. rewrite pct_change_single.
      eexists; split; [reflexivity|]; split; reflexivity.
  - cbn [String.eqb Ascii.eqb Bool.eqb andb resample_period dict_get alias_accepted].
    destruct Hshape as [->|(t & c & ->)].
    + destruct fill_pad; (eexists; split; [reflexivity|]; split; reflexivity).
    + rewrite resample_last_single, pct_change_single.
      eexists; split; [reflexivity|]; split; reflexivity.
  - cbn [String.eqb Ascii.eqb Bool.eqb andb resample_period dict_get alias_accepted].
    destruct fill_pad; cbn [negb]; [|reflexivity].
    destruct Hshape as [->|(t & c & ->)].
    + eexists; split; [reflexivity|]; split; reflexivity.
    + rewrite resample_last_single, pct_change_single.
      eexists; split; [reflexivity|]; split; reflexivity.
Qed.

Lemma C7_witness :
  (exists s,
     resample_and_calculate_returns true one_close "M" = Return s
     /\ dropna s = []
     /\ List.length s = 1%nat)
  /\ resample_and_calculate_returns false one_close "M" = Raised.
Proof.
  split.
  - apply (C7_short_series_have_no_defined_return true one_close "M").
    + simpl. lia.
    + simpl. auto.
  - apply (C7_short_series_have_no_defined_return false one_close "M").
    + simpl. lia.
    + simpl. auto.
Defined.

(** * Properties of the alignment *)

Lemma insert_sorted_In (t u : Timestamp) (ix : list Timestamp) :
  In u (insert_sorted t ix) <-> u = t \/ In u ix.
Proof.
  induction ix as [|v ix IH]; simpl.
  - intuition.
  - destruct (t <? v) eqn:Hlt; [simpl; intuition|].
    destruct (t =? v) eqn:Heq.
    + apply Z.eqb_eq in Heq. subst. simpl. intuition.
    + simpl. rewrite IH. intuition.
Qed.

Lemma insert_sorted_sorted (t : Timestamp) (ix : list Timestamp) :
  StronglySorted Z.lt ix -> StronglySorted Z.lt (insert_sorted t ix).
Proof.
  induction ix as [|v ix IH]; intros Hs; simpl.
  - repeat constructor.
  - inversion Hs as [|? ? Hix Hv]; subst.
    destruct (t <? v) eqn:Hlt.
    + apply Z.ltb_lt in Hlt. constructor; auto.
      constructor; auto. eapply Forall_impl; [|exact Hv]. simpl. intros; lia.
    + destruct (t =? v) eqn:Heq; auto.
      apply Z.ltb_ge in Hlt. apply Z.eqb_neq in Heq.
      constructor; auto. apply Forall_forall. intros u Hu.
      apply insert_sorted_In in Hu. destruct Hu as [->|Hu]; [lia|].
      rewrite Forall_forall in Hv. auto.
Qed.

Lemma index_union_sorted (ss : list Series) : StronglySorted Z.lt (index_union ss).
Proof.
  unfold index_union. induction (flat_map index ss) as [|t l IH]; simpl.
  - constructor.
  - now apply insert_sorted_sorted.
Qed.

Lemma index_union_In (ss : list Series) (t : Timestamp) :
  In t (index_union ss) <-> exists s, In s ss /\ In t (index s).
Proof.
  unfold index_union. rewrite <- in_flat_map.
  induction (flat_map index ss) as [|u l IH]; simpl; [tauto|].
  rewrite insert_sorted_In, IH. intuition.
Qed.

Lemma increasing_tabulate (f : Timestamp -> float64) (ix : list Timestamp) :
  StronglySorted Z.lt ix -> increasing (map (fun t => (t, f t)) ix).
Proof.
  unfold increasing. induction 1 as [|t ix Hs IH Ht]; simpl; constructor; auto.
  rewrite Forall_map. exact Ht.
Qed.

Lemma increasing_filter (p : Timestamp * float64 -> bool) (s : Series) :
  increasing s -> increasing (filter p s).
Proof.
  unfold increasing. induction 1 as [|r s Hs IH Hr]; simpl; [constructor|].
  destruct (p r); auto. constructor; auto.
  apply Forall_forall. intros r' Hr'. apply filter_In in Hr'.
  rewrite Forall_forall in Hr. apply Hr. tauto.
Qed.

Lemma theme_average_tabulate (l : list Series) :
  mean_axis1 (concat_axis1 l)
  = map (fun t => (t, nanmean (map (fun s => at_label s t) l))) (index_union l).
Proof. unfold mean_axis1, concat_axis1. now rewrite map_map. Qed.

Lemma theme_average_increasing (l : list Series) :
  increasing (dropna (mean_axis1 (concat_axis1 l))).
Proof.
  apply increasing_filter. rewrite theme_average_tabulate.
  apply increasing_tabulate, index_union_sorted.
Qed.

(** On an increasing series [.loc[start:]] keeps only labels from [start]
    on, and keeps all of them. *)
Lemma loc_from_increasing (start : Timestamp) (s : Series) :
  increasing s ->
  loc_from start s = filter (fun r => start <=? fst r) s.
Proof.
  unfold increasing, loc_from. induction 1 as [|r s Hs IH Hr]; simpl; auto.
  destruct (fst r <? start) eqn:Hlt.
  - apply Z.ltb_lt in Hlt. rewrite IH.
    destruct (start <=? fst r) eqn:Hle; auto. apply Z.leb_le in Hle. lia.
  - apply Z.ltb_ge in Hlt.
    assert (Hle : (start <=? fst r) = true) by now apply Z.leb_le.
    rewrite Hle. f_equal. symmetry. apply forallb_filter_id.
    apply forallb_forall. intros r' Hr'. rewrite Forall_forall in Hr.
    apply Z.leb_le. specialize (Hr r' Hr'). lia.
Qed.

Lemma dict_set_Forall {V} (P : string * V -> Prop) (d : list (string * V)) k v :
  Forall P d -> P (k, v) -> Forall P (dict_set d k v).
Proof.
  induction 1 as [|[k' v'] d Hkv Hd IH]; intros Hv; simpl.
  - auto.
  - destruct (String.eqb k k'); constructor; auto.
Qed.

Lemma at_label_absent (s : Series) (t : Timestamp) :
  ~ In t (index s) -> at_label s t = NaN.
Proof.
  induction s as [|[u v] s IH]; simpl; auto.
  intros H. destruct (t =? u) eqn:E.
  - apply Z.eqb_eq in E. subst. tauto.
  - apply IH. tauto.
Qed.

(** Looking a label up in a tabulated series whose NaN rows were dropped. *)
Lemma at_label_dropna_tabulate (f : Timestamp -> float64) (ix : list Timestamp) (t : Timestamp) :
  at_label (dropna (map (fun u => (u, f u)) ix)) t
  = if in_dec Z.eq_dec t ix then f t else NaN.
Proof.
  induction ix as [|u ix IH]; simpl; auto.
  unfold dropna in *. cbn [filter snd]. unfold notna at 1.
  destruct (isna (f u)) eqn:Ena; cbn [negb].
  - rewrite IH. destruct (Z.eq_dec u t) as [->|Hne].
    + destruct (in_dec Z.eq_dec t ix); auto. now destruct (f t).
    + destruct (in_dec Z.eq_dec t ix); auto.
  - cbn [at_label]. destruct (t =? u) eqn:E.
    + apply Z.eqb_eq in E. subst. now destruct (Z.eq_dec u u).
    + apply Z.eqb_neq in E. rewrite IH. destruct (Z.eq_dec u t); [congruence|].
      destruct (in_dec Z.eq_dec t ix); auto.
Qed.

Lemma nanmean_present (l : list Series) (t : Timestamp) :
  nanmean (map (fun s => at_label s t) l) = mean_of_present l t.
Proof.
  unfold nanmean, mean_of_present, present, arithmetic_mean.
  now destruct (filter notna (map (fun s => at_label s t) l)).
Qed.

Lemma present_nowhere (l : list Series) (t : Timestamp) :
  ~ In t (index_union l) -> present l t = [].
Proof.
  intros H. unfold present.
  induction l as [|s l IH]; simpl; auto.
  rewrite at_label_absent.
  - simpl. apply IH. intros Hin. apply H.
    apply index_union_In in Hin. destruct Hin as (s' & Hs' & Ht).
    apply index_union_In. exists s'. simpl. auto.
  - intros Hin. apply H. apply index_union_In. exists s. simpl. auto.
Qed.

(** The average series of a theme holds, on every date, the mean of the
    values present on that date. *)
Lemma theme_average_at (l : list Series) (t : Timestamp) :
  at_label (dropna (mean_axis1 (concat_axis1 l))) t = mean_of_present l t.
Proof.
  rewrite theme_average_tabulate, at_label_dropna_tabulate.
  destruct (in_dec Z.eq_dec t (index_union l)) as [Hin|Hout].
  - apply nanmean_present.
  - unfold mean_of_present. now rewrite present_nowhere.
Qed.

Lemma dict_get_set {V} (d : list (string * V)) k v :
  dict_get (dict_set d k v) k = Some v.
Proof.
  induction d as [|[k' v'] d IH]; simpl.
  - now rewrite String.eqb_refl.
  - destruct (String.eqb k k') eqn:E; simpl.
    + now rewrite String.eqb_refl.
    + now rewrite E.
Qed.

(** * Properties of the correlation *)

Lemma pairwise_complete_swap (xs ys : list float64) :
  pairwise_complete ys xs = map swap (pairwise_complete xs ys).
Proof.
  revert ys; induction xs as [|x xs IH]; intros [|y ys]; simpl; auto.
  destruct x, y; simpl; auto. now rewrite IH.
Qed.

Lemma Qsum_ext {A} (f g : A -> Q) (l : list A) :
  (forall x, In x l -> (f x == g x)%Q) -> (Qsum (map f l) == Qsum (map g l))%Q.
Proof.
  induction l as [|a l IH]; intros H; simpl; [reflexivity|].
  rewrite (H a) by (simpl; auto). rewrite IH; [reflexivity|].
  intros x Hx. apply H. simpl; auto.
Qed.

Lemma codeviation_swap (ps : list (Q * Q)) :
  (codeviation (map swap ps) == codeviation ps)%Q.
Proof.
  unfold codeviation. rewrite !map_map.
  change (map (fun x => fst (swap x)) ps) with (map snd ps).
  change (map (fun x => snd (swap x)) ps) with (map fst ps).
  apply Qsum_ext. intros p _. cbn [swap fst snd]. ring.
Qed.

Lemma map_swap_swap (ps : list (Q * Q)) : map swap (map swap ps) = ps.
Proof.
  rewrite map_map. rewrite <- (map_id ps) at 2. apply map_ext. now intros [a b].
Qed.

Lemma Qzero_mult_comm (a b : Q) : Qzero (a * b) = Qzero (b * a).
Proof. unfold Qzero. simpl. now rewrite Z.mul_comm. Qed.

Lemma quotient_swap (ps : list (Q * Q)) : quotient (map swap ps) = quotient ps.
Proof.
  unfold quotient. rewrite map_swap_swap.
  rewrite (Qzero_mult_comm (codeviation (map twice (map swap ps)))).
  destruct (Qzero _); [reflexivity|]. f_equal. f_equal.
  - apply Qred_complete. apply codeviation_swap.
  - apply Qred_complete. ring.
Qed.

(** The coefficient of (A, B) is the coefficient of (B, A). *)
Lemma nancorr_sym (xs ys : list float64) : nancorr xs ys = nancorr ys xs.
Proof.
  unfold nancorr. rewrite (pairwise_complete_swap xs ys).
  destruct (pairwise_complete xs ys) as [|p ps]; [reflexivity|].
  rewrite <- (quotient_swap (p :: ps)). reflexivity.
Qed.

Lemma pairwise_complete_diag (xs : list float64) :
  pairwise_complete xs xs = map dup (finite_values xs).
Proof.
  induction xs as [|x xs IH]; simpl; auto.
  destruct x; auto. simpl. now rewrite IH.
Qed.

Lemma map_fst_dup (l : list Q) : map fst (map dup l) = l.
Proof. rewrite map_map. apply map_id. Qed.

Lemma map_snd_dup (l : list Q) : map snd (map dup l) = l.
Proof. rewrite map_map. apply map_id. Qed.

Lemma map_twice_dup (l : list Q) : map twice (map dup l) = map dup l.
Proof. rewrite map_map. reflexivity. Qed.

Lemma map_swap_dup (l : list Q) : map swap (map dup l) = map dup l.
Proof. rewrite map_map. reflexivity. Qed.

(** The sum of the squared deviations from the mean. *)
Lemma codeviation_dup (l : list Q) :
  codeviation (map dup l)
  = Qsum (map (fun a => ((a - Qmean l) * (a - Qmean l))%Q) l).
Proof.
  unfold codeviation. rewrite map_fst_dup, map_snd_dup, map_map. reflexivity.
Qed.

Lemma Qsum_nonneg {A} (f : A -> Q) (l : list A) :
  (forall x, In x l -> (0 <= f x)%Q) -> (0 <= Qsum (map f l))%Q.
Proof.
  induction l as [|a l IH]; intros H; simpl; [apply Qle_refl|].
  replace 0%Q with (0 + 0)%Q by reflexivity.
  apply Qplus_le_compat; [apply H; simpl; auto|apply IH; intros; apply H; simpl; auto].
Qed.

Lemma Qsum_zero {A} (f : A -> Q) (l : list A) :
  (forall x, In x l -> (0 <= f x)%Q) ->
  (Qsum (map f l) == 0)%Q -> forall x, In x l -> (f x == 0)%Q.
Proof.
  induction l as [|a l IH]; intros Hpos Hsum x Hx; [destruct Hx|].
  simpl in Hsum.
  assert (Ha : (0 <= f a)%Q) by (apply Hpos; simpl; auto).
  assert (Hl : (0 <= Qsum (map f l))%Q)
    by (apply Qsum_nonneg; intros; apply Hpos; simpl; auto).
  assert (Ea : (f a == 0)%Q).
  { apply Qle_antisym; auto. rewrite <- Hsum.
    rewrite <- (Qplus_0_r (f a)) at 1. apply Qplus_le_compat; auto. apply Qle_refl. }
  destruct Hx as [<-|Hx]; auto.
  apply IH; auto.
  - intros; apply Hpos; simpl; auto.
  - rewrite Ea in Hsum. now rewrite Qplus_0_l in Hsum.
Qed.

Lemma Qsquare_nonneg (a : Q) : (0 <= a * a)%Q.
Proof.
  destruct (Qlt_le_dec a 0) as [Hneg|Hpos].
  - setoid_replace (a * a)%Q with ((- a) * (- a))%Q by ring.
    apply Qmult_le_0_compat; apply (Qopp_le_compat a 0), Qlt_le_weak, Hneg.
  - now apply Qmult_le_0_compat.
Qed.

Lemma codeviation_dup_nonneg (l : list Q) : (0 <= codeviation (map dup l))%Q.
Proof.
  rewrite codeviation_dup. apply Qsum_nonneg. intros; apply Qsquare_nonneg.
Qed.

Lemma Qsum_const (a : Q) (l : list Q) :
  (forall x, In x l -> (x == a)%Q) ->
  (Qsum l == inject_Z (Z.of_nat (List.length l)) * a)%Q.
Proof.
  induction l as [|b l IH]; intros H.
  - simpl. ring.
  - cbn [Qsum fold_right List.length]. fold (Qsum l).
    rewrite IH by (intros; apply H; simpl; auto).
    rewrite (H b) by (simpl; auto).
    rewrite Nat2Z.inj_succ. unfold Z.succ. rewrite inject_Z_plus. ring.
Qed.

Lemma Qmean_const (a : Q) (l : list Q) :
  l <> [] -> (forall x, In x l -> (x == a)%Q) -> (Qmean l == a)%Q.
Proof.
  intros Hne H. unfold Qmean. rewrite (Qsum_const a l H).
  field. destruct l as [|b l]; [contradiction|].
  intros E. cbn [List.length] in E. rewrite Nat2Z.inj_succ in E.
  unfold Qeq in E. simpl in E. lia.
Qed.

(** The squared deviations sum to zero exactly when the values are all the
    same. *)
Lemma codeviation_dup_zero (l : list Q) :
  (codeviation (map dup l) == 0)%Q <-> all_equal l.
Proof.
  rewrite codeviation_dup. split.
  - intros H.
    assert (Hm : forall x, In x l -> (x == Qmean l)%Q).
    { intros x Hx.
      pose proof (Qsum_zero _ l (fun y _ => Qsquare_nonneg (y - Qmean l)) H x Hx) as E.
      cbv beta in E. apply Qmult_integral in E.
      assert (E' : (x - Qmean l == 0)%Q) by tauto.
      rewrite <- (Qplus_0_l (Qmean l)), <- E'. ring. }
    intros a b Ha Hb. rewrite (Hm a Ha), (Hm b Hb). reflexivity.
  - intros Heq. destruct l as [|a0 l']; [reflexivity|].
    set (l := a0 :: l') in *.
    assert (Hm : (Qmean l == a0)%Q).
    { apply Qmean_const; [discriminate|]. intros x Hx. apply Heq; simpl; auto. }
    rewrite (Qsum_ext _ (fun _ => 0%Q)).
    + clear. induction l; simpl; [reflexivity|]. rewrite IHl. ring.
    + intros x Hx. rewrite Hm, (Heq x a0 Hx) by (simpl; auto). ring.
Qed.

Lemma nancorr_diag_quotient (xs : list float64) :
  nancorr xs xs =
  match finite_values xs with
  | [] => None
  | l =>
      let v := codeviation (map dup l) in
      if Qzero (v * v) then None
      else Some {| covxy := Qred v; divisor_sq := Qred (v * v) |}
  end.
Proof.
  unfold nancorr. rewrite pairwise_complete_diag.
  destruct (finite_values xs) as [|a l]; [reflexivity|].
  change (map dup (a :: l)) with (dup a :: map dup l) at 1. cbv iota.
  change (dup a :: map dup l) with (map dup (a :: l)).
  unfold quotient. rewrite map_swap_dup, map_twice_dup. reflexivity.
Qed.

(** A column against itself: NaN exactly when its finite values are all
    the same (or there is none). *)
Lemma nancorr_diag_nan (xs : list float64) :
  nancorr xs xs = None <-> all_equal (finite_values xs).
Proof.
  rewrite nancorr_diag_quotient.
  destruct (finite_values xs) as [|a l] eqn:E.
  - split; auto. intros _ ? ? [].
  - cbv zeta. rewrite <- codeviation_dup_zero.
    set (v := codeviation (map dup (a :: l))).
    destruct (Qzero (v * v)) eqn:Ez.
    + split; auto. intros _. apply Qzero_true in Ez.
      apply Qmult_integral in Ez. tauto.
    + split; [discriminate|]. intros Hv. apply Qzero_false in Ez.
      exfalso. apply Ez. rewrite Hv. ring.
Qed.

(** A column against itself: when the cell is a number, it is 1. *)
Lemma nancorr_diag_one (xs : list float64) (c : Coefficient) :
  nancorr xs xs = Some c -> coefficient_value c = 1%R.
Proof.
  rewrite nancorr_diag_quotient.
  destruct (finite_values xs) as [|a l]; [discriminate|]. cbv zeta.
  set (v := codeviation (map dup (a :: l))).
  destruct (Qzero (v * v)) eqn:Ez; [discriminate|].
  intros H. injection H as <-.
  change (Q2R (Qred v) / sqrt (Q2R (Qred (v * v))) = 1)%R.
  apply Qzero_false in Ez.
  assert (Hv : (0 < v)%Q).
  { pose proof (codeviation_dup_nonneg (a :: l)) as Hc.
    apply Qle_lt_or_eq in Hc. fold v in Hc. destruct Hc as [Hc|Hc]; auto.
    exfalso. apply Ez. rewrite <- Hc. ring. }
  apply Qlt_Rlt in Hv. rewrite RMicromega.Q2R_0 in Hv.
  rewrite (Qeq_eqR _ _ (Qred_correct v)), (Qeq_eqR _ _ (Qred_correct (v * v))).
  rewrite Q2R_mult, sqrt_square by lra. field. lra.
Qed.

Lemma pairwise_complete_In (xs ys : list float64) (a b : Q) :
  In (a, b) (pairwise_complete xs ys)
  <-> exists i, nth_error xs i = Some (Num a) /\ nth_error ys i = Some (Num b).
Proof.
  revert ys; induction xs as [|x xs IH]; intros ys.
  - simpl. split; [intros []|]. intros ([|i] & H & _); discriminate.
  - destruct ys as [|y ys].
    + simpl. split; [intros []|]. intros ([|i] & _ & H); discriminate.
    + cbn [pairwise_complete].
      assert (Htail : In (a, b) (pairwise_complete xs ys)
                      <-> exists i, nth_error (x :: xs) (S i) = Some (Num a)
                                    /\ nth_error (y :: ys) (S i) = Some (Num b))
        by apply IH.
      assert (Hsplit : (exists i, nth_error (x :: xs) i = Some (Num a)
                                  /\ nth_error (y :: ys) i = Some (Num b))
                       <-> (x = Num a /\ y = Num b)
                           \/ In (a, b) (pairwise_complete xs ys)).
      { rewrite Htail. split.
        - intros ([|i] & H1 & H2); [left|right; eauto].
          simpl in *. split; congruence.
        - intros [[-> ->]|(i & H)]; [exists 0%nat; auto|eauto]. }
      rewrite Hsplit.
      destruct x as [| |p]; try (split; [auto|intros [[E _]|H]; [discriminate|auto]]).
      destruct y as [| |q]; try (split; [auto|intros [[_ E]|H]; [discriminate|auto]]).
      simpl. split.
      * intros [E|H]; [left; split; congruence|auto].
      * intros [[E1 E2]|H]; [left; congruence|auto].
Qed.

Lemma zip_with_map {A B C D} (k : B -> C -> D) (f : A -> B) (g : A -> C) (l : list A) :
  zip_with k (map f l) (map g l) = map (fun x => k (f x) (g x)) l.
Proof. induction l; simpl; auto. now rewrite IHl. Qed.

Lemma Q2R_inject_Z (z : Z) : Q2R (inject_Z z) = IZR z.
Proof. unfold Q2R, inject_Z. simpl. field. Qed.

Lemma Q2R_Qsum (l : list Q) : Q2R (Qsum l) = Rsum (map Q2R l).
Proof.
  induction l as [|a l IH]; simpl.
  - apply RMicromega.Q2R_0.
  - rewrite Q2R_plus. fold (Qsum l). now rewrite IH.
Qed.

Lemma Q2R_Qmean (l : list Q) : l <> [] -> Q2R (Qmean l) = Rmean (map Q2R l).
Proof.
  intros Hne. unfold Qmean, Rmean.
  assert (Hn : ~ (inject_Z (Z.of_nat (List.length l)) == 0)%Q).
  { destruct l; [contradiction|]. unfold Qeq. simpl. lia. }
  rewrite Q2R_div by exact Hn.
  now rewrite Q2R_Qsum, Q2R_inject_Z, length_map, INR_IZR_INZ.
Qed.

Lemma Rsum_ext {A} (f g : A -> R) (l : list A) :
  (forall x, f x = g x) -> Rsum (map f l) = Rsum (map g l).
Proof. intros H. f_equal. apply map_ext. exact H. Qed.

Lemma Q2R_codeviation (ps : list (Q * Q)) :
  ps <> [] ->
  Q2R (codeviation ps)
  = Rsum (map (fun p =>
                 ((Q2R (fst p) - Rmean (map (fun p => Q2R (fst p)) ps))
                  * (Q2R (snd p) - Rmean (map (fun p => Q2R (snd p)) ps)))%R)
              ps).
Proof.
  intros Hne. unfold codeviation. rewrite Q2R_Qsum, map_map.
  assert (Hx : Q2R (Qmean (map fst ps)) = Rmean (map (fun p => Q2R (fst p)) ps)).
  { rewrite Q2R_Qmean by (destruct ps; [contradiction|discriminate]).
    now rewrite map_map. }
  assert (Hy : Q2R (Qmean (map snd ps)) = Rmean (map (fun p => Q2R (snd p)) ps)).
  { rewrite Q2R_Qmean by (destruct ps; [contradiction|discriminate]).
    now rewrite map_map. }
  apply Rsum_ext. intros p. now rewrite Q2R_mult, !Q2R_minus, Hx, Hy.
Qed.

Lemma pearson_unfold (ps : list (Q * Q)) :
  let mx := Rmean (map (fun p => Q2R (fst p)) ps) in
  let my := Rmean (map (fun p => Q2R (snd p)) ps) in
  pearson ps
  = (Rsum (map (fun p => (Q2R (fst p) - mx) * (Q2R (snd p) - my)) ps)
     / sqrt (Rsum (map (fun p => (Q2R (fst p) - mx) * (Q2R (fst p) - mx)) ps)
             * Rsum (map (fun p => (Q2R (snd p) - my) * (Q2R (snd p) - my)) ps)))%R.
Proof.
  intros mx my. unfold pearson. cbv zeta. fold mx my.
  rewrite !map_map, !zip_with_map. reflexivity.
Qed.

(** A cell that is a number is Pearson's coefficient of the rows where both
    columns are finite. *)
Lemma quotient_pearson (ps : list (Q * Q)) (c : Coefficient) :
  ps <> [] -> quotient ps = Some c -> coefficient_value c = pearson ps.
Proof.
  intros Hne. unfold quotient.
  destruct (Qzero _); [discriminate|]. intros H. injection H as <-.
  rewrite pearson_unfold. cbv zeta.
  change (Q2R (Qred (codeviation ps))
          / sqrt (Q2R (Qred (codeviation (map twice ps)
                             * codeviation (map twice (map swap ps)))))
          = Rsum (map (fun p =>
                         (Q2R (fst p) - Rmean (map (fun p => Q2R (fst p)) ps))
                         * (Q2R (snd p) - Rmean (map (fun p => Q2R (snd p)) ps)))
                      ps)
            / sqrt
                (Rsum (map (fun p =>
                              (Q2R (fst p) - Rmean (map (fun p => Q2R (fst p)) ps))
                              * (Q2R (fst p) - Rmean (map (fun p => Q2R (fst p)) ps)))
                           ps)
                 * Rsum (map (fun p =>
                                (Q2R (snd p) - Rmean (map (fun p => Q2R (snd p)) ps))
                                * (Q2R (snd p) - Rmean (map (fun p => Q2R (snd p)) ps)))
                             ps)))%R.
  rewrite (Qeq_eqR _ _ (Qred_correct (codeviation ps))).
  rewrite (Qeq_eqR _ _ (Qred_correct (codeviation (map twice ps)
                                      * codeviation (map twice (map swap ps))))).
  rewrite Q2R_mult.
  rewrite (Q2R_codeviation ps Hne).
  rewrite (Q2R_codeviation (map twice ps))
    by (destruct ps; [contradiction|discriminate]).
  rewrite (Q2R_codeviation (map twice (map swap ps)))
    by (destruct ps; [contradiction|discriminate]).
  rewrite !map_map. reflexivity.
Qed.

Lemma nancorr_pearson (xs ys : list float64) (c : Coefficient) :
  nancorr xs ys = Some c -> coefficient_value c = pearson (pairwise_complete xs ys).
Proof.
  unfold nancorr. destruct (pairwise_complete xs ys) as [|p ps] eqn:E; [discriminate|].
  apply quotient_pearson. discriminate.
Qed.

Lemma dict_get_map {V W} (g : V -> W) (d : list (string * V)) (k : string) :
  dict_get (map (fun kv => (fst kv, g (snd kv))) d) k = option_map g (dict_get d k).
Proof.
  induction d as [|[k' v] d IH]; simpl; auto.
  destruct (String.eqb k k'); auto.
Qed.

(** The cells of [corr]: the coefficient of the two columns, where both
    exist. *)
Lemma matrix_entry_corr (df : DataFrame) (a b : string) :
  matrix_entry (corr df) a b =
  match dict_get (df_columns df) a, dict_get (df_columns df) b with
  | Some xs, Some ys => Some (nancorr xs ys)
  | _, _ => None
  end.
Proof.
  unfold matrix_entry, corr.
  rewrite (dict_get_map
             (fun xs => map (fun c => (fst c, nancorr xs (snd c))) (df_columns df))).
  destruct (dict_get (df_columns df) a) as [xs|]; simpl; auto.
  rewrite (dict_get_map (nancorr xs)).
  now destruct (dict_get (df_columns df) b).
Qed.

Lemma skipn_count_while_sorted (start : Timestamp) (ix : list Timestamp) :
  StronglySorted Z.lt ix ->
  skipn (count_while (fun t => t <? start) ix) ix = filter (fun t => start <=? t) ix.
Proof.
  induction 1 as [|t ix Hs IH Ht]; simpl; auto.
  destruct (t <? start) eqn:Hlt.
  - apply Z.ltb_lt in Hlt. simpl. rewrite IH.
    destruct (start <=? t) eqn:Hle; auto. apply Z.leb_le in Hle. lia.
  - apply Z.ltb_ge in Hlt. simpl.
    assert (Hle : (start <=? t) = true) by now apply Z.leb_le.
    rewrite Hle. f_equal. symmetry. apply forallb_filter_id.
    apply forallb_forall. intros u Hu. rewrite Forall_forall in Ht.
    apply Z.leb_le. specialize (Ht u Hu). lia.
Qed.

(** The truncated joint table: its rows are the dates of the union from
    the start date on, and the column of a theme holds the values of its
    series on these dates, NaN where the series has no row. *)
Lemma joint_table (start : Timestamp) (d : list (string * Series)) :
  let joint := df_loc_from start (DataFrame_of_dict d) in
  let dates := filter (fun t => start <=? t) (index_union (map snd d)) in
  df_index joint = dates
  /\ forall a, dict_get (df_columns joint) a
               = option_map (fun s => map (at_label s) dates) (dict_get d a).
Proof.
  cbv zeta. unfold df_loc_from, DataFrame_of_dict. cbn [df_index df_columns].
  pose proof (skipn_count_while_sorted start _ (index_union_sorted (map snd d))) as Hk.
  split; [exact Hk|]. intros a.
  rewrite map_map. cbn [fst snd].
  rewrite <- Hk.
  set (k := count_while _ _). set (ix := index_union _).
  rewrite (map_ext _ (fun kv => (fst kv, map (at_label (snd kv)) (skipn k ix))))
    by (intros kv; now rewrite skipn_map).
  apply (dict_get_map (fun s => map (at_label s) (skipn k ix))).
Qed.

(** * Properties of the handler *)

Section Handler.

Variable env : Env.

Section Loops.

Variable tf : string.
Variable start : DateString.
Variables eff stop : Timestamp.

Lemma process_code_fold (st : CodeLoop) (code : string) :
  process_code env tf start eff stop st code =
  {| theme_period_returns_list :=
       theme_period_returns_list st ++ period_returns_of env tf eff stop code;
     stock_level := stock_level st ++ stock_frames_of env tf start eff stop code;
     fetches := fetches st ++ [fetch_of eff stop code] |}.
Proof.
  unfold process_code, period_returns_of, stock_frames_of, contribution, display_name,
    fetch_of.
  destruct (DataReader env code eff stop) as [[|r rest]|];
    try (rewrite !app_nil_r; reflexivity).
  destruct (resample_and_calculate_returns (pct_change_pads env) (r :: rest) tf);
    try (rewrite !app_nil_r; reflexivity).
  destruct (String.eqb tf "D"); rewrite ?app_nil_r; reflexivity.
Qed.

Lemma codes_loop (cs : list string) (st : CodeLoop) :
  fold_left (process_code env tf start eff stop) cs st =
  {| theme_period_returns_list :=
       theme_period_returns_list st ++ flat_map (period_returns_of env tf eff stop) cs;
     stock_level :=
       stock_level st ++ flat_map (stock_frames_of env tf start eff stop) cs;
     fetches := fetches st ++ map (fetch_of eff stop) cs |}.
Proof.
  revert st; induction cs as [|c cs IH]; intros st.
  - simpl. rewrite !app_nil_r. now destruct st.
  - cbn [fold_left]. rewrite IH, process_code_fold. cbn [theme_period_returns_list stock_level fetches flat_map map].
    now rewrite <- !app_assoc.
Qed.

Lemma process_theme_fold (st : ThemeLoop) (theme : Theme) :
  process_theme env tf start eff stop st theme =
  {| themed_returns_data := theme_update env tf eff stop (themed_returns_data st) theme;
     stock_level_returns := stock_level_returns st ++ stock_frames_of_theme env tf start eff stop theme;
     fetched := fetched st ++ fetches_of_theme eff stop theme |}.
Proof.
  unfold process_theme. rewrite codes_loop.
  cbn [theme_period_returns_list stock_level fetches app]. reflexivity.
Qed.

Lemma themes_loop (ths : list Theme) (st : ThemeLoop) :
  fold_left (process_theme env tf start eff stop) ths st =
  {| themed_returns_data :=
       fold_left (theme_update env tf eff stop) ths (themed_returns_data st);
     stock_level_returns :=
       stock_level_returns st ++ flat_map (stock_frames_of_theme env tf start eff stop) ths;
     fetched := fetched st ++ flat_map (fetches_of_theme eff stop) ths |}.
Proof.
  revert st; induction ths as [|th ths IH]; intros st.
  - simpl. rewrite !app_nil_r. now destruct st.
  - cbn [fold_left]. rewrite IH, process_theme_fold.
    cbn [themed_returns_data stock_level_returns fetched flat_map].
    now rewrite <- !app_assoc.
Qed.

End Loops.

Lemma run_themes_fold (ths : list Theme) (start : DateString) (stop : Timestamp) (tf : string) :
  run_themes env ths start stop tf =
  {| themed_returns_data := fold_left (theme_update env tf (day start - 7) stop) ths [];
     stock_level_returns :=
       flat_map (stock_frames_of_theme env tf start (day start - 7) stop) ths;
     fetched := flat_map (fetches_of_theme (day start - 7) stop) ths |}.
Proof. unfold run_themes. now rewrite themes_loop. Qed.

(** The handler on a request that has its required fields. *)
Lemma get_stock_data_checked (ths : list Theme) (start : DateString) (stop : Timestamp) (tf : option string) :
  ths <> [] ->
  get_stock_data env (request ths start stop tf) =
  let themed := fold_left (theme_update env (get tf "D"%string) (day start - 7) stop) ths [] in
  (match themed with
   | [] => Error CannotCompute 500
   | _ =>
       Payload (flat_map (theme_df (day start)) themed)
               (List.concat
                  (flat_map (stock_frames_of_theme env (get tf "D"%string)
                               start (day start - 7) stop) ths))
               (corr (df_loc_from (day start) (DataFrame_of_dict themed)))
   end,
   flat_map (fetches_of_theme (day start - 7) stop) ths).
Proof.
  intros Hne. unfold get_stock_data, request.
  cbn [themes startDate endDate timeframe get].
  destruct ths as [|th ths]; [contradiction|].
  rewrite run_themes_fold. cbn [themed_returns_data stock_level_returns fetched].
  cbv zeta.
  destruct (fold_left _ (th :: ths) []); reflexivity.
Qed.

Lemma flat_map_nil {A B} (f : A -> list B) (l : list A) :
  flat_map f l = [] <-> (forall x, In x l -> f x = []).
Proof.
  induction l as [|a l IH]; simpl.
  - split; [intros _ x []|auto].
  - split.
    + intros H. apply app_eq_nil in H. destruct H as [Ha Hl].
      intros x [<-|Hx]; auto. now apply IH.
    + intros H. rewrite (H a) by auto. simpl. apply IH. auto.
Qed.

Lemma dict_set_not_nil {V} (d : list (string * V)) k v : dict_set d k v <> [].
Proof. destruct d as [|[k' v'] d]; simpl; [|destruct (String.eqb k k')]; discriminate. Qed.

Section Skipping.

Variable tf : string.
Variables eff stop : Timestamp.

Lemma period_returns_nil (code : string) :
  period_returns_of env tf eff stop code = []
  <-> contribution env tf eff stop code = None.
Proof.
  unfold period_returns_of.
  destruct (contribution env tf eff stop code) as [[? ?]|]; split; auto; discriminate.
Qed.

Lemma stock_frames_nil (start : DateString) (code : string) :
  contribution env tf eff stop code = None ->
  stock_frames_of env tf start eff stop code = [].
Proof. unfold stock_frames_of. now intros ->. Qed.

(** A theme leaves the dictionary alone exactly when none of its codes
    contributes. *)
Lemma theme_update_skip (d : list (string * Series)) (th : Theme) :
  (forall code, In code (codes th) -> contribution env tf eff stop code = None) ->
  theme_update env tf eff stop d th = d.
Proof.
  intros H. unfold theme_update.
  replace (flat_map (period_returns_of env tf eff stop) (codes th)) with (@nil Series); auto.
  symmetry. apply flat_map_nil. intros c Hc. apply period_returns_nil. auto.
Qed.

Lemma theme_update_nil (d : list (string * Series)) (th : Theme) :
  theme_update env tf eff stop d th = [] ->
  d = [] /\ forall code, In code (codes th) -> contribution env tf eff stop code = None.
Proof.
  unfold theme_update.
  destruct (flat_map (period_returns_of env tf eff stop) (codes th)) eqn:E.
  - intros ->. split; auto. intros c Hc. apply period_returns_nil.
    revert c Hc. now apply flat_map_nil.
  - intros H. now apply dict_set_not_nil in H.
Qed.

Lemma themed_nil (ths : list Theme) (d : list (string * Series)) :
  fold_left (theme_update env tf eff stop) ths d = []
  <-> d = [] /\ forall th code, In th ths -> In code (codes th) ->
                                contribution env tf eff stop code = None.
Proof.
  revert d; induction ths as [|th ths IH]; intros d; cbn [fold_left].
  - split; [intros ->; split; auto; intros ? ? []|tauto].
  - rewrite IH. split.
    + intros [H1 H2]. apply theme_update_nil in H1. destruct H1 as [-> H1].
      split; auto. intros th' c [<-|Hth] Hc; eauto.
    + intros [-> H]. split.
      * apply theme_update_skip. intros c Hc. apply (H th c); simpl; auto.
      * intros th' c Hth Hc. apply (H th' c); simpl; auto.
Qed.

End Skipping.

(** C9: a request whose themes list is empty or absent, or that lacks its
    start date or its end date, is answered with the error of status 400
    and no call of the price source has been made. *)
Theorem C9_missing_fields_rejected_before_fetching (data : Request) :
  get (themes data) [] = [] \/ startDate data = None \/ endDate data = None ->
  get_stock_data env data = (Error MissingParameters 400, []).
Proof.
  unfold get_stock_data.
  intros [H|[H|H]]; rewrite H.
  - destruct (startDate data), (endDate data); reflexivity.
  - reflexivity.
  - destruct (startDate data); reflexivity.
Qed.

Lemma unknown_timeframe_raises (tf : string) (price_df : PriceFrame) :
  ~ In tf ["D"; "W"; "M"]%string ->
  resample_and_calculate_returns (pct_change_pads env) price_df tf = Raised.
Proof.
  intros H. unfold resample_and_calculate_returns, resample_period. cbn [dict_get].
  assert (HD : String.eqb tf "D" = false)
    by (apply String.eqb_neq; intros ->; apply H; simpl; tauto).
  assert (HW : String.eqb tf "W" = false)
    by (apply String.eqb_neq; intros ->; apply H; simpl; tauto).
  assert (HM : String.eqb tf "M" = false)
    by (apply String.eqb_neq; intros ->; apply H; simpl; tauto).
  now rewrite HD, HW, HM.
Qed.

(** C10: on a request that has its required fields, a timeframe other than
    D, W and M meets no check: every symbol of every theme is fetched, the
    return calculator raises on every fetched table, no symbol contributes,
    and the answer is the error of status 500 for a computation that gave
    nothing. *)
Theorem C10_unknown_timeframe_ends_in_total_failure
    (ths : list Theme) (start : DateString) (stop : Timestamp) (tf : string) :
  ths <> [] ->
  ~ In tf ["D"; "W"; "M"]%string ->
  (forall price_df,
      resample_and_calculate_returns (pct_change_pads env) price_df tf = Raised)
  /\ (forall code, contribution env tf (day start - 7) stop code = None)
  /\ get_stock_data env (request ths start stop (Some tf))
     = (Error CannotCompute 500,
        flat_map (fetches_of_theme (day start - 7) stop) ths).
Proof.
  intros Hne Htf.
  assert (Hc : forall code, contribution env tf (day start - 7) stop code = None).
  { intros code. unfold contribution.
    destruct (DataReader env code (day start - 7) stop) as [[|r rest]|]; auto.
    now rewrite unknown_timeframe_raises. }
  split; [intros; now apply unknown_timeframe_raises|]. split; [exact Hc|].
  rewrite get_stock_data_checked by exact Hne. cbn [get]. cbv zeta.
  replace (fold_left (theme_update env tf (day start - 7) stop) ths []) with (@nil (string * Series)).
  - reflexivity.
  - symmetry. apply themed_nil. split; auto.
Qed.

(** C5 (amended): on a request that has its required fields, the answer is
    the error of status 500 exactly when no symbol of any theme contributes
    a return series (each one failed to fetch, came back empty, or made the
    return calculator raise).  The test is made on the dictionary of theme
    averages before it is truncated at the start date. *)
Theorem C5_error_exactly_when_no_symbol_contributes
    (ths : list Theme) (start : DateString) (stop : Timestamp) (tf : option string) :
  ths <> [] ->
  ((forall th code, In th ths -> In code (codes th) ->
                    contribution env (get tf "D"%string) (day start - 7) stop code = None)
   <-> fst (get_stock_data env (request ths start stop tf)) = Error CannotCompute 500).
Proof.
  intros Hne. rewrite get_stock_data_checked by exact Hne. cbv zeta. cbn [fst].
  pose proof (themed_nil (get tf "D"%string) (day start - 7) stop ths []) as Hnil.
  destruct (fold_left _ ths []) as [|entry themed].
  - split; auto. intros _. now apply Hnil.
  - split; [|discriminate]. intros H.
    assert (E : entry :: themed = []) by (apply Hnil; auto). discriminate.
Qed.

Lemma flat_map_skip {A B} (f : A -> list B) (l1 l2 : list A) (a : A) :
  f a = [] -> flat_map f (l1 ++ a :: l2) = flat_map f (l1 ++ l2).
Proof. intros H. rewrite !flat_map_app. simpl. now rewrite H. Qed.

Lemma failure_contributes_nothing (tf : string) (eff stop : Timestamp) (code : string) :
  (DataReader env code eff stop = Raised
   \/ exists price_df,
        DataReader env code eff stop = Return price_df
        /\ resample_and_calculate_returns (pct_change_pads env) price_df tf = Raised) ->
  contribution env tf eff stop code = None.
Proof.
  unfold contribution. intros [->|(price_df & -> & H)]; auto.
  destruct price_df; auto. now rewrite H.
Qed.

(** C8: when the fetch of a symbol raises, or the return calculator raises
    on its table, the symbol adds nothing to the period returns of its
    theme nor to the stock-level rows, the answer of the request is the one
    it would have without that symbol, and every symbol of every theme is
    still fetched, in order. *)
Theorem C8_failing_symbol_is_skipped
    (ths1 ths2 : list Theme) (theme_name : string) (cs1 cs2 : list string)
    (code : string) (start : DateString) (stop : Timestamp) (tf : option string) :
  let timeframe := get tf "D"%string in
  let with_code :=
    ths1 ++ {| name := theme_name; codes := cs1 ++ code :: cs2 |} :: ths2 in
  let without_code :=
    ths1 ++ {| name := theme_name; codes := cs1 ++ cs2 |} :: ths2 in
  (DataReader env code (day start - 7) stop = Raised
   \/ exists price_df,
        DataReader env code (day start - 7) stop = Return price_df
        /\ resample_and_calculate_returns (pct_change_pads env) price_df timeframe
           = Raised) ->
  period_returns_of env timeframe (day start - 7) stop code = []
  /\ stock_frames_of env timeframe start (day start - 7) stop code = []
  /\ fst (get_stock_data env (request with_code start stop tf))
     = fst (get_stock_data env (request without_code start stop tf))
  /\ snd (get_stock_data env (request with_code start stop tf))
     = flat_map (fetches_of_theme (day start - 7) stop) with_code.
Proof.
  intros timeframe with_code without_code Hfail.
  apply failure_contributes_nothing in Hfail.
  assert (Hp : period_returns_of env timeframe (day start - 7) stop code = [])
    by now apply period_returns_nil.
  assert (Hs : stock_frames_of env timeframe start (day start - 7) stop code = [])
    by now apply stock_frames_nil.
  split; [exact Hp|]. split; [exact Hs|].
  assert (Hw : with_code <> []) by (unfold with_code; now destruct ths1).
  assert (Hwo : without_code <> []) by (unfold without_code; now destruct ths1).
  rewrite !get_stock_data_checked by assumption. cbv zeta. cbn [fst snd].
  split; [|reflexivity]. fold timeframe.
  assert (Hthemed :
    fold_left (theme_update env timeframe (day start - 7) stop) with_code []
    = fold_left (theme_update env timeframe (day start - 7) stop) without_code []).
  { unfold with_code, without_code. rewrite !fold_left_app. cbn [fold_left].
    f_equal. unfold theme_update. cbn [codes name].
    now rewrite (flat_map_skip _ cs1 cs2 code Hp). }
  assert (Hstock :
    flat_map (stock_frames_of_theme env timeframe start (day start - 7) stop) with_code
    = flat_map (stock_frames_of_theme env timeframe start (day start - 7) stop) without_code).
  { unfold with_code, without_code. rewrite !flat_map_app. cbn [flat_map].
    f_equal. f_equal. unfold stock_frames_of_theme. cbn [codes].
    now apply flat_map_skip. }
  now rewrite Hthemed, Hstock.
Qed.

Lemma themed_increasing (tf : string) (eff stop : Timestamp)
    (ths : list Theme) (d : list (string * Series)) :
  Forall (fun entry => increasing (snd entry)) d ->
  Forall (fun entry => increasing (snd entry))
         (fold_left (theme_update env tf eff stop) ths d).
Proof.
  revert d; induction ths as [|th ths IH]; intros d Hd; cbn [fold_left]; auto.
  apply IH. unfold theme_update.
  destruct (flat_map (period_returns_of env tf eff stop) (codes th)) eqn:E; auto.
  apply dict_set_Forall; auto. apply theme_average_increasing.
Qed.

Lemma theme_df_dates (start : Timestamp) (entry : string * Series) (r : ThemedRecord) :
  increasing (snd entry) -> In r (theme_df start entry) -> start <= date r.
Proof.
  intros Hinc. unfold theme_df, round2, smap. rewrite map_map.
  rewrite loc_from_increasing by exact Hinc.
  intros Hr. apply in_map_iff in Hr. destruct Hr as (row & <- & Hrow).
  apply filter_In in Hrow. cbn [date fst]. now apply Z.leb_le.
Qed.

(** C3: every call of the price source made for a request starts its range
    7 days before the requested start date, and every row of the themed
    returns of the answer is dated on or after the requested start date. *)
Theorem C3_fetch_a_week_early_and_trim_the_warm_up (data : Request) :
  (forall call, In call (snd (get_stock_data env data)) ->
     exists start, startDate data = Some start /\ call_start call = day start - 7)
  /\ (forall start themed_returns stock_rows matrix,
        startDate data = Some start ->
        fst (get_stock_data env data) = Payload themed_returns stock_rows matrix ->
        forall r, In r themed_returns -> day start <= date r).
Proof.
  destruct data as [[ths|] [start|] [stop|] tf];
    try (split; [intros ? []|intros ? ? ? ? ?; discriminate]).
  destruct ths as [|th ths];
    try (split; [intros ? []|intros ? ? ? ? ?; discriminate]).
  change {| themes := Some (th :: ths); startDate := Some start;
            endDate := Some stop; timeframe := tf |}
    with (request (th :: ths) start stop tf).
  rewrite get_stock_data_checked by discriminate. cbv zeta. cbn [fst snd].
  split.
  - intros call Hcall. exists start. split; [reflexivity|].
    apply in_flat_map in Hcall. destruct Hcall as (th' & _ & Hcall).
    unfold fetches_of_theme in Hcall. apply in_map_iff in Hcall.
    now destruct Hcall as (code & <- & _).
  - intros start' tr sr cm Hstart. cbn [startDate request] in Hstart.
    injection Hstart as <-.
    pose proof (themed_increasing (get tf "D"%string) (day start - 7) stop (th :: ths) []
                  (Forall_nil _)) as Hinc.
    destruct (fold_left _ (th :: ths) []) as [|entry themed] eqn:E; [discriminate|].
    intros Hresp r Hr. injection Hresp as <- _ _.
    change (In r (flat_map (theme_df (day start)) (entry :: themed))) in Hr.
    apply in_flat_map in Hr. destruct Hr as (entry' & Hin & Hr).
    rewrite Forall_forall in Hinc. eapply theme_df_dates; eauto.
Qed.

(** C6 (amended): in every successful answer the correlation matrix is
    symmetric; its cell (A, B) is computed from the columns of A and B in
    the joint table truncated at the start date, over the rows where both
    are finite, and when it is a number it is Pearson's coefficient of
    these rows; a diagonal cell is 1 when it is a number, and it is NaN,
    not 1, exactly when the finite values of the theme are all the same
    (or there is none). *)
Theorem C6_correlation_matrix
    (ths : list Theme) (start : DateString) (stop : Timestamp) (tf : option string)
    (themed_returns : list ThemedRecord) (stock_rows : list StockRecord)
    (matrix : list (string * list (string * option Coefficient))) :
  ths <> [] ->
  fst (get_stock_data env (request ths start stop tf))
    = Payload themed_returns stock_rows matrix ->
  let themed := themed_returns_data (run_themes env ths start stop (get tf "D"%string)) in
  let dates := filter (fun t => day start <=? t) (index_union (map snd themed)) in
  let column := fun a => option_map (fun s => map (at_label s) dates) (dict_get themed a) in
  (forall a b, matrix_entry matrix a b = matrix_entry matrix b a)
  /\ (forall a b,
        matrix_entry matrix a b =
        match column a, column b with
        | Some xs, Some ys => Some (nancorr xs ys)
        | _, _ => None
        end)
  /\ (forall xs,
        (nancorr xs xs = None <-> all_equal (finite_values xs))
        /\ (forall c, nancorr xs xs = Some c -> coefficient_value c = 1%R))
  /\ (forall xs ys c,
        nancorr xs ys = Some c ->
        coefficient_value c = pearson (pairwise_complete xs ys))
  /\ (forall xs ys x y,
        In (x, y) (pairwise_complete xs ys)
        <-> exists i, nth_error xs i = Some (Num x) /\ nth_error ys i = Some (Num y)).
Proof.
  intros Hne Hresp themed dates column.
  assert (Hm : matrix = corr (df_loc_from (day start) (DataFrame_of_dict themed))).
  { rewrite get_stock_data_checked in Hresp by exact Hne.
    cbv zeta in Hresp. cbn [fst] in Hresp.
    unfold themed. rewrite run_themes_fold. cbn [themed_returns_data].
    destruct (fold_left _ ths []); [discriminate|]. now injection Hresp as _ _ <-. }
  assert (Hcell : forall a b,
             matrix_entry matrix a b =
             match column a, column b with
             | Some xs, Some ys => Some (nancorr xs ys)
             | _, _ => None
             end).
  { intros a b. rewrite Hm, matrix_entry_corr.
    destruct (joint_table (day start) themed) as [_ Hcol]. now rewrite !Hcol. }
  split; [|split; [exact Hcell|split; [|split]]].
  - intros a b. rewrite !Hcell.
    destruct (column a), (column b); auto. now rewrite nancorr_sym.
  - intros xs. split; [apply nancorr_diag_nan|apply nancorr_diag_one].
  - apply nancorr_pearson.
  - apply pairwise_complete_In.
Qed.

End Handler.

(** * The properties on the sample data *)

Lemma C3_witness :
  let env := sample_env true (only_X ten_days) in
  let data := daily_request d2024_01_08 d2024_01_10 in
  snd (get_stock_data env data)
    = [{| call_code := "X"; call_start := d2024_01_01; call_end := d2024_01_10 |}]
  /\ (exists start,
        startDate data = Some start
        /\ call_start {| call_code := "X"; call_start := d2024_01_01;
                         call_end := d2024_01_10 |} = day start - 7)
  /\ d2024_01_08 <= date {| date := d2024_01_08; sector := "T1"; value := Num 2 |}.
Proof.
  intros env data.
  destruct (C3_fetch_a_week_early_and_trim_the_warm_up env data) as [Hcalls Hdates].
  split; [reflexivity|]. split.
  - apply Hcalls. left. reflexivity.
  - apply (Hdates (canonical d2024_01_08)
             [{| date := d2024_01_08; sector := "T1"; value := Num 2 |};
              {| date := d2024_01_08 + 1; sector := "T1"; value := Num (-50) |};
              {| date := d2024_01_10; sector := "T1"; value := Num 100 |}]
             (snd (fst (payload_parts (fst (get_stock_data env data)))))
             (snd (payload_parts (fst (get_stock_data env data))))).
    + reflexivity.
    + vm_compute. reflexivity.
    + left. reflexivity.
Defined.

(** C5 (as stated, refuted): the only symbol stopped trading before the
    requested start date; after truncation no theme has any row, and the
    answer is a payload with nothing in it, not an error. *)
Lemma C5_counterexample :
  let env := sample_env true (only_X three_closes) in
  let themed :=
    themed_returns_data (run_themes env [theme_T1] (canonical d2024_01_08) d2024_01_10 "D") in
  df_index (df_loc_from d2024_01_08 (DataFrame_of_dict themed)) = []
  /\ flat_map (theme_df d2024_01_08) themed = []
  /\ get_stock_data env (daily_request d2024_01_08 d2024_01_10)
     = (Payload [] [] [("T1"%string, [("T1"%string, None)])],
        [{| call_code := "X"; call_start := d2024_01_01; call_end := d2024_01_10 |}]).
Proof.
  vm_compute. repeat split.
Qed.

Lemma C5_witness :
  fst (get_stock_data (sample_env true reader_down)
         (request [theme_T1; theme_AB] (canonical d2024_01_08) d2024_01_10 None))
  = Error CannotCompute 500.
Proof.
  apply (C5_error_exactly_when_no_symbol_contributes
           (sample_env true reader_down) [theme_T1; theme_AB]
           (canonical d2024_01_08) d2024_01_10 None).
  - discriminate.
  - intros th code _ _. reflexivity.
Defined.

(** C6 (as stated, refuted): the close of the only symbol does not move;
    its theme has three observations from the start date on, and its
    diagonal cell is NaN, not 1.0. *)
Lemma C6_counterexample :
  let env := sample_env true (only_X flat_closes) in
  let answer := fst (get_stock_data env (daily_request d2024_01_08 d2024_01_10)) in
  map value (fst (fst (payload_parts answer))) = [Num 0; Num 0; Num 0]
  /\ map date (fst (fst (payload_parts answer)))
     = [d2024_01_08; d2024_01_08 + 1; d2024_01_10]
  /\ matrix_entry (snd (payload_parts answer)) "T1" "T1" = Some None.
Proof.
  vm_compute. repeat split.
Qed.

Lemma C6_witness :
  let env := sample_env true (only_X ten_days) in
  let answer := fst (get_stock_data env (daily_request d2024_01_08 d2024_01_10)) in
  let c := {| covxy := 34808 # 3; divisor_sq := 1211596864 # 9 |} in
  matrix_entry (snd (payload_parts answer)) "T1" "T1" = Some (Some c)
  /\ coefficient_value c = 1%R.
Proof.
  intros env answer c.
  destruct (C6_correlation_matrix env [theme_T1] (canonical d2024_01_08) d2024_01_10
              (Some "D"%string)
              (fst (fst (payload_parts answer)))
              (snd (fst (payload_parts answer)))
              (snd (payload_parts answer)))
    as (_ & _ & Hdiag & _).
  - discriminate.
  - vm_compute. reflexivity.
  - split; [vm_compute; reflexivity|].
    apply (proj2 (Hdiag [Num 2; Num (-50); Num 100]) c).
    vm_compute. reflexivity.
Defined.

Lemma C8_witness :
  let env := sample_env true reader_AB in
  fst (get_stock_data env
         (request [{| name := "AB"; codes := ["A"; "Q"; "B"]%string |}]
                  (canonical d2024_01_08) d2024_01_10 (Some "D"%string)))
  = fst (get_stock_data env
           (request [{| name := "AB"; codes := ["A"; "B"]%string |}]
                    (canonical d2024_01_08) d2024_01_10 (Some "D"%string)))
  /\ map call_code
         (snd (get_stock_data env
                 (request [{| name := "AB"; codes := ["A"; "Q"; "B"]%string |}]
                          (canonical d2024_01_08) d2024_01_10 (Some "D"%string))))
     = ["A"; "Q"; "B"]%string.
Proof.
  intros env.
  destruct (C8_failing_symbol_is_skipped env [] [] "AB" ["A"%string] ["B"%string]
              "Q" (canonical d2024_01_08) d2024_01_10 (Some "D"%string))
    as (_ & _ & Hsame & Hcalls).
  - left. reflexivity.
  - split; [exact Hsame|].
    exact (eq_trans (f_equal (map call_code) Hcalls) eq_refl).
Defined.

Lemma C9_witness :
  get_stock_data (sample_env true (only_X ten_days))
    {| themes := Some []; startDate := Some (canonical d2024_01_08);
       endDate := Some d2024_01_10; timeframe := Some "D"%string |}
  = (Error MissingParameters 400, [])
  /\ get_stock_data (sample_env true (only_X ten_days))
       {| themes := Some [theme_T1]; startDate := None;
          endDate := Some d2024_01_10; timeframe := None |}
     = (Error MissingParameters 400, []).
Proof.
  split; apply C9_missing_fields_rejected_before_fetching.
  - left. reflexivity.
  - right. left. reflexivity.
Defined.

Lemma C10_witness :
  get_stock_data (sample_env true (only_X ten_days))
    (request [theme_T1] (canonical d2024_01_08) d2024_01_10 (Some "Y"%string))
  = (Error CannotCompute 500,
     [{| call_code := "X"; call_start := d2024_01_01; call_end := d2024_01_10 |}]).
Proof.
  apply (C10_unknown_timeframe_ends_in_total_failure
           (sample_env true (only_X ten_days)) [theme_T1]
           (canonical d2024_01_08) d2024_01_10 "Y").
  - discriminate.
  - simpl. intros [H|[H|[H|[]]]]; discriminate H.
Defined.

(** * The order of date strings

    [_ord2ymd] inverts [_ymd2ord], and the strings that [strftime] writes
    for the days of the calendar compare as the days do. *)

Lemma forallb_range (P : Z -> bool) (n : nat) :
  forallb P (map Z.of_nat (seq 0 n)) = true ->
  forall z, 0 <= z < Z.of_nat n -> P z = true.
Proof.
  intros H z Hz. rewrite forallb_forall in H. apply H.
  apply in_map_iff. exists (Z.to_nat z). split; [lia|]. apply in_seq. lia.
Qed.

Lemma month_and_day_spec (leapyear : bool) (n : Z) :
  0 <= n < 365 + (if leapyear then 1 else 0) ->
  month_and_day_ok leapyear n = true.
Proof.
  intros Hn.
  assert (H : forallb (fun z => month_and_day_ok true z && (month_and_day_ok false z || (z =? 365)))
                      (map Z.of_nat (seq 0 366)) = true) by (vm_compute; reflexivity).
  pose proof (forallb_range _ _ H n) as Hz. cbv beta in Hz.
  destruct leapyear.
  - assert (Hr : 0 <= n < Z.of_nat 366) by lia. specialize (Hz Hr).
    apply andb_true_iff in Hz. tauto.
  - assert (Hr : 0 <= n < Z.of_nat 366) by lia. specialize (Hz Hr).
    apply andb_true_iff in Hz. destruct Hz as [_ Hz].
    apply orb_true_iff in Hz. destruct Hz as [Hz|Hz]; auto.
    apply Z.eqb_eq in Hz. lia.
Qed.

Lemma ord2ymd_split (ordinal : Z) :
  ord2ymd ordinal =
  let n := ordinal - 1 in
  let n400 := n / 146097 in
  let n := n mod 146097 in
  let n100 := n / 36524 in
  let n := n mod 36524 in
  let n4 := n / 1461 in
  let n := n mod 1461 in
  let n1 := n / 365 in
  let n := n mod 365 in
  let year := n400 * 400 + 1 + n100 * 100 + n4 * 4 + n1 in
  if (n1 =? 4) || (n100 =? 4) then (year - 1, 12, 31)
  else
    let leapyear := (n1 =? 3) && (negb (n4 =? 24) || (n100 =? 3)) in
    let '(m, d) := month_and_day leapyear n in (year, m, d).
Proof.
  unfold ord2ymd, month_and_day.
  change DI400Y with 146097. change DI100Y with 36524. change DI4Y with 1461.
  cbv zeta.
  destruct ((_ =? 4) || (_ =? 4)); [reflexivity|].
  destruct (_ <? _); reflexivity.
Qed.

Lemma ord2ymd_spec (t : Z) :
  1 <= t ->
  let '(y, m, d) := ord2ymd t in
  1 <= y /\ 1 <= m <= 12 /\ 1 <= d <= days_in_month y m /\ ymd2ord y m d = t.
Proof.
  intros Ht. rewrite ord2ymd_split. cbv zeta.
  remember (t - 1) as n eqn:Hn.
  set (n400 := n / 146097). set (r400 := n mod 146097).
  set (n100 := r400 / 36524). set (r100 := r400 mod 36524).
  set (n4 := r100 / 1461). set (r4 := r100 mod 1461).
  set (n1 := r4 / 365). set (r1 := r4 mod 365).
  assert (H400 : n = 146097 * n400 + r400 /\ 0 <= r400 < 146097 /\ 0 <= n400).
  { unfold n400, r400. pose proof (Z.div_mod n 146097). pose proof (Z.mod_pos_bound n 146097).
    assert (0 <= n / 146097) by (apply Z.div_pos; lia). lia. }
  assert (H100 : r400 = 36524 * n100 + r100 /\ 0 <= r100 < 36524 /\ 0 <= n100 <= 4).
  { unfold n100, r100. pose proof (Z.div_mod r400 36524). pose proof (Z.mod_pos_bound r400 36524).
    assert (0 <= r400 / 36524) by (apply Z.div_pos; lia).
    assert (r400 / 36524 < 5) by (apply Z.div_lt_upper_bound; lia). lia. }
  assert (H4 : r100 = 1461 * n4 + r4 /\ 0 <= r4 < 1461 /\ 0 <= n4 <= 24).
  { unfold n4, r4. pose proof (Z.div_mod r100 1461). pose proof (Z.mod_pos_bound r100 1461).
    assert (0 <= r100 / 1461) by (apply Z.div_pos; lia).
    assert (r100 / 1461 < 25) by (apply Z.div_lt_upper_bound; lia). lia. }
  assert (H1 : r4 = 365 * n1 + r1 /\ 0 <= r1 < 365 /\ 0 <= n1 <= 4).
  { unfold n1, r1. pose proof (Z.div_mod r4 365). pose proof (Z.mod_pos_bound r4 365).
    assert (0 <= r4 / 365) by (apply Z.div_pos; lia).
    assert (r4 / 365 < 5) by (apply Z.div_lt_upper_bound; lia). lia. }
  clearbody n400 r400 n100 r100 n4 r4 n1 r1.
  destruct ((n1 =? 4) || (n100 =? 4)) eqn:Especial.
  - (* the last day of a leap year *)
    set (y := n400 * 400 + 1 + n100 * 100 + n4 * 4 + n1 - 1).
    assert (Hy : y mod 4 = 0 /\ (y mod 100 <> 0 \/ y mod 400 = 0)
                 /\ days_before_year y + 366 = t /\ 1 <= y).
    { apply orb_true_iff in Especial. unfold days_before_year, y. cbv zeta.
      destruct Especial as [E|E]; apply Z.eqb_eq in E.
      - split; [Z.div_mod_to_equations; lia|].
        split; [left; Z.div_mod_to_equations; lia|].
        Z.div_mod_to_equations. lia.
      - split; [Z.div_mod_to_equations; lia|].
        split; [right; Z.div_mod_to_equations; lia|].
        Z.div_mod_to_equations. lia. }
    destruct Hy as (Hy4 & Hy100 & Hd & Hy1).
    assert (Hleap : is_leap y = true).
    { unfold is_leap. apply andb_true_iff. split; [now apply Z.eqb_eq|].
      apply orb_true_iff. destruct Hy100 as [H|H].
      - left. apply negb_true_iff. now apply Z.eqb_neq.
      - right. now apply Z.eqb_eq. }
    unfold days_in_month, ymd2ord, days_before_month. rewrite Hleap.
    change ((12 =? 2) && true) with false. change ((2 <? 12) && true) with true.
    change (month_length 12) with 31. change (DAYS_BEFORE_MONTH 12) with 334.
    cbv iota. lia.
  - apply orb_false_iff in Especial. destruct Especial as [E1 E100].
    apply Z.eqb_neq in E1, E100.
    set (leapyear := (n1 =? 3) && (negb (n4 =? 24) || (n100 =? 3))).
    set (y := n400 * 400 + 1 + n100 * 100 + n4 * 4 + n1).
    assert (Hy : days_before_year y + r1 + 1 = t /\ 1 <= y).
    { unfold days_before_year, y. cbv zeta. Z.div_mod_to_equations. lia. }
    assert (Hleap : is_leap y = leapyear).
    { unfold is_leap, leapyear, y.
      destruct (Z.eqb_spec n1 3) as [->|Hn1]; cbn [andb].
      - destruct (Z.eqb_spec n4 24) as [->|Hn4]; cbn [negb orb].
        + destruct (Z.eqb_spec n100 3) as [->|Hn100].
          * replace ((n400 * 400 + 1 + 3 * 100 + 24 * 4 + 3) mod 4) with 0 by (Z.div_mod_to_equations; lia).
            replace ((n400 * 400 + 1 + 3 * 100 + 24 * 4 + 3) mod 400) with 0 by (Z.div_mod_to_equations; lia).
            cbn. now rewrite orb_true_r.
          * replace ((n400 * 400 + 1 + n100 * 100 + 24 * 4 + 3) mod 4) with 0 by (Z.div_mod_to_equations; lia).
            replace ((n400 * 400 + 1 + n100 * 100 + 24 * 4 + 3) mod 100) with 0 by (Z.div_mod_to_equations; lia).
            cbn. apply Z.eqb_neq. Z.div_mod_to_equations. lia.
        + replace ((n400 * 400 + 1 + n100 * 100 + n4 * 4 + 3) mod 4) with 0 by (Z.div_mod_to_equations; lia).
          cbn. apply orb_true_iff. left. apply negb_true_iff. apply Z.eqb_neq.
          Z.div_mod_to_equations. lia.
      - apply andb_false_iff. left. apply Z.eqb_neq. Z.div_mod_to_equations. lia. }
    assert (Hr1 : 0 <= r1 < 365 + (if leapyear then 1 else 0))
      by (destruct leapyear; lia).
    pose proof (month_and_day_spec leapyear r1 Hr1) as Hmd.
    unfold month_and_day_ok in Hmd.
    destruct (month_and_day leapyear r1) as [m d].
    repeat (apply andb_true_iff in Hmd; destruct Hmd as [Hmd ?]).
    unfold days_in_month, ymd2ord, days_before_month. rewrite Hleap.
    assert (Hlen : (if (m =? 2) && leapyear then 29 else month_length m)
                   = month_length m + (if (m =? 2) && leapyear then 1 else 0)).
    { destruct (Z.eqb_spec m 2) as [->|]; cbn [andb].
      - change (month_length 2) with 28. destruct leapyear; lia.
      - lia. }
    rewrite Hlen. lia.
Qed.

Lemma compare_app (a a' b b' : string) :
  String.length a = String.length a' ->
  String.compare (a ++ b) (a' ++ b')
  = then_compare (String.compare a a') (String.compare b b').
Proof.
  revert a'. induction a as [|c a IH]; intros [|c' a'] Hlen; try discriminate Hlen.
  - reflexivity.
  - cbn [String.append String.compare]. injection Hlen as Hlen.
    rewrite (IH a' Hlen). now destruct (Ascii.compare c c').
Qed.

Lemma zero_padded_length (w : nat) (n : Z) : String.length (zero_padded w n) = w.
Proof.
  revert n. induction w as [|w IH]; intros n; [reflexivity|].
  cbn [zero_padded]. 
  assert (H : forall a b, String.length (a ++ b) = (String.length a + String.length b)%nat).
  { induction a; intros; simpl; auto. }
  rewrite H, IH. simpl. lia.
Qed.

Lemma digit_compare (a b : Z) :
  String.compare (String (digit a) EmptyString) (String (digit b) EmptyString)
  = (a mod 10 ?= b mod 10).
Proof.
  unfold digit.
  pose proof (Z.mod_pos_bound a 10 eq_refl) as Ha.
  pose proof (Z.mod_pos_bound b 10 eq_refl) as Hb.
  generalize dependent (a mod 10). generalize dependent (b mod 10).
  intros y Hy x Hx.
  assert (Hxs : x = 0 \/ x = 1 \/ x = 2 \/ x = 3 \/ x = 4 \/ x = 5 \/ x = 6 \/ x = 7
                \/ x = 8 \/ x = 9) by lia.
  assert (Hys : y = 0 \/ y = 1 \/ y = 2 \/ y = 3 \/ y = 4 \/ y = 5 \/ y = 6 \/ y = 7
                \/ y = 8 \/ y = 9) by lia.
  clear Hx Hy.
  repeat (destruct Hxs as [->|Hxs]); try subst x;
    repeat (destruct Hys as [->|Hys]); try subst y; reflexivity.
Qed.

Lemma zero_padded_compare (w : nat) (a b : Z) :
  0 <= a < 10 ^ Z.of_nat w -> 0 <= b < 10 ^ Z.of_nat w ->
  String.compare (zero_padded w a) (zero_padded w b) = (a ?= b).
Proof.
  revert a b. induction w as [|w IH]; intros a b Ha Hb.
  - change (10 ^ Z.of_nat 0) with 1 in *. assert (a = 0) by lia. assert (b = 0) by lia.
    subst. reflexivity.
  - rewrite Nat2Z.inj_succ, Z.pow_succ_r in Ha, Hb by lia.
    cbn [zero_padded].
    rewrite compare_app by (now rewrite !zero_padded_length).
    rewrite digit_compare, IH.
    + unfold then_compare.
      destruct (Z.compare_spec (a / 10) (b / 10)) as [E|E|E];
        destruct (Z.compare_spec (a mod 10) (b mod 10)) as [E'|E'|E'];
        symmetry; (apply Z.compare_eq_iff || apply Z.compare_lt_iff || apply Z.compare_gt_iff);
        Z.div_mod_to_equations; lia.
    + split; [apply Z.div_pos; lia|]. apply Z.div_lt_upper_bound; lia.
    + split; [apply Z.div_pos; lia|]. apply Z.div_lt_upper_bound; lia.
Qed.

Lemma format_date_compare (y m d y' m' d' : Z) :
  0 <= y < 10000 -> 0 <= m < 100 -> 0 <= d < 100 ->
  0 <= y' < 10000 -> 0 <= m' < 100 -> 0 <= d' < 100 ->
  String.compare (format_date y m d) (format_date y' m' d')
  = date_compare (y, m, d) (y', m', d').
Proof.
  intros. unfold format_date, date_compare.
  rewrite compare_app by (now rewrite !zero_padded_length).
  rewrite (zero_padded_compare 4) by (change (10 ^ Z.of_nat 4) with 10000; lia).
  f_equal.
  change (String.compare ("-" ++ zero_padded 2 m ++ "-" ++ zero_padded 2 d)
                         ("-" ++ zero_padded 2 m' ++ "-" ++ zero_padded 2 d'))
    with (String.compare (zero_padded 2 m ++ "-" ++ zero_padded 2 d)
                         (zero_padded 2 m' ++ "-" ++ zero_padded 2 d')).
  rewrite compare_app by (now rewrite !zero_padded_length).
  rewrite (zero_padded_compare 2) by (change (10 ^ Z.of_nat 2) with 100; lia).
  f_equal.
  change (String.compare ("-" ++ zero_padded 2 d) ("-" ++ zero_padded 2 d'))
    with (String.compare (zero_padded 2 d) (zero_padded 2 d')).
  apply (zero_padded_compare 2); change (10 ^ Z.of_nat 2) with 100; lia.
Qed.

Lemma days_before_next_year (y : Z) :
  days_before_year (y + 1) = days_before_year y + 365 + (if is_leap y then 1 else 0).
Proof.
  unfold days_before_year, is_leap. cbv zeta.
  replace (y + 1 - 1) with y by lia.
  destruct (Z.eqb_spec (y mod 4) 0) as [E4|E4]; cbn [andb].
  - destruct (Z.eqb_spec (y mod 100) 0) as [E100|E100]; cbn [negb orb].
    + destruct (Z.eqb_spec (y mod 400) 0) as [E400|E400];
        Z.div_mod_to_equations; lia.
    + Z.div_mod_to_equations; lia.
  - Z.div_mod_to_equations; lia.
Qed.

Lemma days_before_year_mono (y y' : Z) :
  y <= y' -> days_before_year y <= days_before_year y'.
Proof.
  intros H. unfold days_before_year. cbv zeta.
  assert (H4 : (y - 1) / 4 <= (y' - 1) / 4) by (apply Z.div_le_mono; lia).
  assert (H400 : (y - 1) / 400 <= (y' - 1) / 400) by (apply Z.div_le_mono; lia).
  assert (H100 : (y' - 1) / 100 - (y - 1) / 100 <= y' - y).
  { Z.div_mod_to_equations. lia. }
  lia.
Qed.

Lemma month_table (leap : bool) (m m' : Z) :
  1 <= m <= 12 -> 1 <= m' <= 12 ->
  let len x := month_length x + (if (x =? 2) && leap then 1 else 0) in
  let before x := DAYS_BEFORE_MONTH x + (if (2 <? x) && leap then 1 else 0) in
  0 <= before m /\ 1 <= len m <= 31
  /\ before m + len m <= 365 + (if leap then 1 else 0)
  /\ (m < m' -> before m + len m <= before m').
Proof.
  intros Hm Hm' len before.
  set (ok := fun (leap : bool) (m m' : Z) =>
    let len x := month_length x + (if (x =? 2) && leap then 1 else 0) in
    let before x := DAYS_BEFORE_MONTH x + (if (2 <? x) && leap then 1 else 0) in
    (0 <=? before m) && (1 <=? len m) && (len m <=? 31)
    && (before m + len m <=? 365 + (if leap then 1 else 0))
    && (if m <? m' then before m + len m <=? before m' else true)).
  assert (H : forallb (fun i => forallb (fun j => ok true (i + 1) (j + 1)
                                                 && ok false (i + 1) (j + 1))
                                        (map Z.of_nat (seq 0 12)))
                      (map Z.of_nat (seq 0 12)) = true) by (vm_compute; reflexivity).
  pose proof (forallb_range _ _ H (m - 1)) as H1. cbv beta in H1.
  assert (R : 0 <= m - 1 < Z.of_nat 12) by lia. specialize (H1 R).
  pose proof (forallb_range _ _ H1 (m' - 1)) as H2. cbv beta in H2.
  assert (R' : 0 <= m' - 1 < Z.of_nat 12) by lia. specialize (H2 R').
  replace (m - 1 + 1) with m in H2 by lia. replace (m' - 1 + 1) with m' in H2 by lia.
  assert (Hok : ok leap m m' = true).
  { apply andb_true_iff in H2. destruct leap; tauto. }
  unfold ok in Hok. cbv zeta in Hok. fold (len m) (before m) (before m') in Hok.
  repeat (apply andb_true_iff in Hok; destruct Hok as [Hok ?]).
  repeat match goal with H : (_ <=? _) = true |- _ => apply Z.leb_le in H end.
  split; [assumption|]. split; [lia|]. split; [assumption|].
  intros Hlt. apply Z.ltb_lt in Hlt.
  match goal with H : (if m <? m' then _ else _) = true |- _ =>
    rewrite Hlt in H; now apply Z.leb_le in H end.
Qed.

Lemma days_in_month_length (y m : Z) :
  days_in_month y m = month_length m + (if (m =? 2) && is_leap y then 1 else 0).
Proof.
  unfold days_in_month. destruct (Z.eqb_spec m 2) as [->|]; cbn [andb].
  - change (month_length 2) with 28. destruct (is_leap y); lia.
  - lia.
Qed.

Lemma day_of_year_bounds (y m d : Z) :
  valid_date y m d ->
  1 <= days_before_month y m + d <= 365 + (if is_leap y then 1 else 0)
  /\ d <= 31.
Proof.
  intros [Hm Hd]. rewrite days_in_month_length in Hd. unfold days_before_month.
  pose proof (month_table (is_leap y) m m Hm Hm) as T. cbv zeta in T. lia.
Qed.

Lemma month_order (y m d m' d' : Z) :
  valid_date y m d -> valid_date y m' d' -> m < m' ->
  days_before_month y m + d < days_before_month y m' + d'.
Proof.
  intros [Hm Hd] [Hm' Hd'] Hlt. rewrite days_in_month_length in Hd, Hd'.
  unfold days_before_month.
  pose proof (month_table (is_leap y) m m' Hm Hm') as T. cbv zeta in T. lia.
Qed.

Lemma ymd2ord_lt (y m d y' m' d' : Z) :
  valid_date y m d -> valid_date y' m' d' ->
  date_compare (y, m, d) (y', m', d') = Lt ->
  ymd2ord y m d < ymd2ord y' m' d'.
Proof.
  intros Hv Hv' Hc. unfold date_compare, then_compare, ymd2ord in *.
  pose proof (day_of_year_bounds y m d Hv) as [Hb _].
  pose proof (day_of_year_bounds y' m' d' Hv') as [Hb' _].
  destruct (Z.compare_spec y y') as [E|E|E]; try discriminate Hc.
  - subst y'. destruct (Z.compare_spec m m') as [E|E|E]; try discriminate Hc.
    + subst m'. rewrite Z.compare_lt_iff in Hc. lia.
    + pose proof (month_order y m d m' d' Hv Hv' E). lia.
  - pose proof (days_before_next_year y) as Hn.
    pose proof (days_before_year_mono (y + 1) y'). lia.
Qed.

Lemma date_compare_antisym (a b : Z * Z * Z) :
  date_compare a b = CompOpp (date_compare b a).
Proof.
  destruct a as [[y m] d], b as [[y' m'] d']. unfold date_compare, then_compare.
  rewrite (Z.compare_antisym y' y), (Z.compare_antisym m' m), (Z.compare_antisym d' d).
  destruct (y' ?= y), (m' ?= m), (d' ?= d); reflexivity.
Qed.

Lemma ord2ymd_compare (a b : Z) :
  1 <= a -> 1 <= b -> date_compare (ord2ymd a) (ord2ymd b) = (a ?= b).
Proof.
  intros Ha Hb.
  pose proof (ord2ymd_spec a Ha) as Sa. pose proof (ord2ymd_spec b Hb) as Sb.
  destruct (ord2ymd a) as [[y m] d] eqn:Ea, (ord2ymd b) as [[y' m'] d'] eqn:Eb.
  destruct Sa as (_ & Hm & Hd & Ta), Sb as (_ & Hm' & Hd' & Tb).
  destruct (date_compare (y, m, d) (y', m', d')) eqn:E.
  - symmetry. apply Z.compare_eq_iff. unfold date_compare, then_compare in E.
    destruct (Z.compare_spec y y'); try discriminate E.
    destruct (Z.compare_spec m m'); try discriminate E.
    apply Z.compare_eq_iff in E. subst. reflexivity.
  - symmetry. apply Z.compare_lt_iff. rewrite <- Ta, <- Tb.
    apply ymd2ord_lt; [split; auto|split; auto|exact E].
  - symmetry. apply Z.compare_gt_iff. rewrite <- Ta, <- Tb.
    apply ymd2ord_lt; [split; auto|split; auto|].
    rewrite date_compare_antisym, E. reflexivity.
Qed.

Lemma ord2ymd_fields (t : Z) :
  in_calendar t ->
  let '(y, m, d) := ord2ymd t in
  0 <= y < 10000 /\ 0 <= m < 100 /\ 0 <= d < 100.
Proof.
  intros [Ht Hmax]. pose proof (ord2ymd_spec t Ht) as S.
  destruct (ord2ymd t) as [[y m] d]. destruct S as (Hy & Hm & Hd & E).
  pose proof (day_of_year_bounds y m d (conj Hm Hd)) as [Hb Hd31].
  split; [|lia]. split; [lia|].
  destruct (Z.lt_ge_cases y 10000) as [|Hge]; auto. exfalso.
  pose proof (days_before_year_mono 10000 y Hge) as Hmono.
  change (days_before_year 10000) with 3652059 in Hmono.
  change MAXORDINAL with 3652059 in Hmax.
  unfold ymd2ord in E. lia.
Qed.

Lemma strftime_compare (a b : Timestamp) :
  in_calendar a -> in_calendar b ->
  String.compare (strftime a) (strftime b) = (a ?= b).
Proof.
  intros Ha Hb. rewrite <- ord2ymd_compare by (unfold in_calendar in *; lia).
  pose proof (ord2ymd_fields a Ha) as Fa. pose proof (ord2ymd_fields b Hb) as Fb.
  unfold strftime.
  destruct (ord2ymd a) as [[y m] d], (ord2ymd b) as [[y' m'] d'].
  apply format_date_compare; tauto.
Qed.

Lemma strftime_leb (a b : Timestamp) :
  in_calendar a -> in_calendar b ->
  String.leb (strftime a) (strftime b) = (a <=? b).
Proof.
  intros Ha Hb. unfold String.leb, Z.leb. now rewrite strftime_compare.
Qed.

(** * Further properties of the return calculator *)

Lemma Qzero_scale (k q : Q) : (0 < k)%Q -> Qzero (k * q) = Qzero q.
Proof.
  unfold Qzero, Qlt. simpl. intros Hk.
  destruct (Z.eqb_spec (Qnum q) 0) as [->|Hq].
  - rewrite Z.mul_0_r. reflexivity.
  - apply Z.eqb_neq. nia.
Qed.

Lemma Qneg_scale (k q : Q) : (0 < k)%Q -> Qneg (k * q) = Qneg q.
Proof.
  unfold Qneg, Qlt. simpl. intros Hk.
  destruct (Z.ltb_spec (Qnum q) 0) as [Hq|Hq].
  - apply Z.ltb_lt. nia.
  - apply Z.ltb_ge. nia.
Qed.

(** A quotient does not depend on the unit of its two terms. *)
Lemma fdiv_fscale (k : Q) (x y : float64) :
  (0 < k)%Q -> fdiv (fscale k x) (fscale k y) = fdiv x y.
Proof.
  intros Hk. destruct x as [| a|p], y as [| b|q]; cbn [fscale fdiv]; auto.
  - now rewrite Qneg_scale.
  - rewrite !Qzero_scale by exact Hk.
    destruct (Qzero q) eqn:Hq.
    + now rewrite Qneg_scale.
    + f_equal. apply Qred_complete. apply Qzero_false in Hq.
      field. split; [exact Hq|]. intros E. rewrite E in Hk.
      now apply Qlt_irrefl in Hk.
Qed.

Lemma isna_fscale (k : Q) (v : float64) : isna (fscale k v) = isna v.
Proof. now destruct v. Qed.

Lemma ffill_from_fscale (k : Q) (p : float64) (vs : list float64) :
  ffill_from (fscale k p) (map (fscale k) vs) = map (fscale k) (ffill_from p vs).
Proof.
  revert p; induction vs as [|v vs IH]; intros p; cbn [map ffill_from]; auto.
  rewrite isna_fscale. destruct (isna v); cbv zeta; now rewrite IH.
Qed.

Lemma filled_fscale (fill_pad : bool) (k : Q) (vs : list float64) :
  filled fill_pad (map (fscale k) vs) = map (fscale k) (filled fill_pad vs).
Proof.
  unfold filled, ffill. destruct fill_pad; auto.
  apply (ffill_from_fscale k NaN).
Qed.

Lemma zip_with_pointwise {A B C} (f g : A -> B -> C) (xs : list A) (ys : list B) :
  (forall x y, f x y = g x y) -> zip_with f xs ys = zip_with g xs ys.
Proof.
  intros H. revert ys; induction xs as [|x xs IH]; intros [|y ys]; simpl; auto.
  now rewrite H, IH.
Qed.

Lemma zip_with_map2 {A B C} (f : B -> B -> C) (h : A -> B) (xs ys : list A) :
  zip_with f (map h xs) (map h ys) = zip_with (fun x y => f (h x) (h y)) xs ys.
Proof.
  revert ys; induction xs as [|x xs IH]; intros [|y ys]; simpl; auto.
  now rewrite IH.
Qed.

(** The percent change of a series does not depend on its unit. *)
Lemma pct_change_fscale (fill_pad : bool) (k : Q) (s : Series) :
  (0 < k)%Q -> pct_change fill_pad (smap (fscale k) s) = pct_change fill_pad s.
Proof.
  intros Hk. unfold pct_change. rewrite index_smap.
  assert (Hv : values (smap (fscale k) s) = map (fscale k) (values s)).
  { unfold values, smap. rewrite !map_map. reflexivity. }
  rewrite Hv, filled_fscale, !zip_with_shift1.
  change (NaN :: map (fscale k) (filled fill_pad (values s)))
    with (map (fscale k) (NaN :: filled fill_pad (values s))).
  rewrite zip_with_map2. f_equal.
  apply zip_with_pointwise. intros x y. now rewrite fdiv_fscale.
Qed.

Lemma last_map_default {A B} (f : A -> B) (l : list A) (d : A) :
  last (map f l) (f d) = f (last l d).
Proof.
  induction l as [|a [|b l] IH]; auto.
Qed.

Lemma last_valid_fscale (k : Q) (vs : list float64) :
  last_valid (map (fscale k) vs) = fscale k (last_valid vs).
Proof.
  unfold last_valid.
  assert (H : filter notna (map (fscale k) vs) = map (fscale k) (filter notna vs)).
  { induction vs as [|v vs IH]; cbn [map filter]; auto.
    replace (notna (fscale k v)) with (notna v)
      by (unfold notna; now rewrite isna_fscale).
    destruct (notna v); cbn [map]; now rewrite IH. }
  rewrite H. apply (last_map_default (fscale k) _ NaN).
Qed.

Lemma bucket_values_fscale (rule : Rule) (k : Q) (label : Timestamp) (s : Series) :
  values (filter (fun r => bucket rule (fst r) =? label) (smap (fscale k) s))
  = map (fscale k) (values (filter (fun r => bucket rule (fst r) =? label) s)).
Proof.
  unfold values, smap. induction s as [|[t v] s IH]; cbn [map filter fst snd]; auto.
  destruct (bucket rule t =? label); cbn [map fst snd]; now rewrite IH.
Qed.

Lemma resample_last_fscale (rule : Rule) (k : Q) (s : Series) :
  resample_last rule (smap (fscale k) s) = smap (fscale k) (resample_last rule s).
Proof.
  unfold resample_last, bins. rewrite index_smap.
  generalize (match index_min (index s) with
              | Some lo =>
                  match index_max (index s) with
                  | Some hi =>
                      labels_from (Z.to_nat (bucket rule hi - bucket rule lo + 1))
                                  rule (bucket rule lo) (bucket rule hi)
                  | None => []
                  end
              | None => []
              end).
  intros labels.
  change (smap (fscale k)
            (map (fun label =>
                    (label,
                     last_valid
                       (values (filter (fun r => bucket rule (fst r) =? label) s))))
                 labels))
    with (map (fun r : Timestamp * float64 => (fst r, fscale k (snd r)))
              (map (fun label =>
                      (label,
                       last_valid
                         (values (filter (fun r => bucket rule (fst r) =? label) s))))
                   labels)).
  rewrite map_map. apply map_ext. intros label. cbn [fst snd].
  now rewrite bucket_values_fscale, last_valid_fscale.
Qed.

Lemma Close_scale_prices (k : Q) (price_df : PriceFrame) :
  Close (scale_prices k price_df) = smap (fscale k) (Close price_df).
Proof. unfold Close, scale_prices, smap. rewrite !map_map. reflexivity. Qed.

(** X1: returns do not depend on the unit of the prices: with every close
    multiplied by the same positive factor, the return calculator gives the
    same series, for every timeframe. *)
Theorem X1_returns_do_not_depend_on_the_price_unit
    (fill_pad : bool) (k : Q) (price_df : PriceFrame) (timeframe : string) :
  (0 < k)%Q ->
  resample_and_calculate_returns fill_pad (scale_prices k price_df) timeframe
  = resample_and_calculate_returns fill_pad price_df timeframe.
Proof.
  intros Hk. unfold resample_and_calculate_returns.
  rewrite Close_scale_prices.
  destruct (String.eqb timeframe "D").
  - now rewrite pct_change_fscale.
  - destruct (resample_period timeframe) as [rule|]; auto.
    now rewrite resample_last_fscale, pct_change_fscale.
Qed.

Lemma X1_witness :
  resample_and_calculate_returns true (scale_prices 1300 three_closes) "W"
  = resample_and_calculate_returns true three_closes "W".
Proof.
  apply X1_returns_do_not_depend_on_the_price_unit. reflexivity.
Defined.

Lemma finite_values_feq (vs ws : list float64) :
  Forall2 feq vs ws -> Forall2 Qeq (finite_values vs) (finite_values ws).
Proof.
  induction 1 as [|v w vs ws Hvw _ IH]; simpl; [constructor|].
  destruct v, w; simpl in Hvw; try contradiction; auto.
Qed.

Lemma series_eq_values (s1 s2 : Series) :
  series_eq s1 s2 -> Forall2 feq (values s1) (values s2).
Proof. induction 1 as [|a b ? ? [_ H]]; simpl; constructor; auto. Qed.

Lemma compound_Qeq (rs rs' : list Q) (c c' : Q) :
  Forall2 Qeq rs rs' -> (c == c')%Q -> (compound c rs == compound c' rs')%Q.
Proof.
  unfold compound. intros H. revert c c'.
  induction H as [|r r' rs rs' Hr _ IH]; intros c c' Hc; simpl; auto.
  apply IH. now rewrite Hr, Hc.
Qed.

Lemma Forall2_firstn {A B} (R : A -> B -> Prop) (n : nat) (l : list A) (l' : list B) :
  Forall2 R l l' -> Forall2 R (firstn n l) (firstn n l').
Proof.
  intros H. revert n. induction H; intros [|n]; simpl; constructor; auto.
Qed.

Lemma compound_start_Qeq (rs : list Q) (c c' : Q) :
  (c == c')%Q -> (compound c rs == compound c' rs)%Q.
Proof.
  unfold compound. revert c c'.
  induction rs as [|r rs IH]; intros c c' Hc; simpl; auto.
  apply IH. now rewrite Hc.
Qed.

(** Compounding the lag-1 changes from a close gives back the later closes. *)
Lemma compound_lagged (prev : Q) (rest : PriceFrame) (n : nat) :
  ~ (prev == 0)%Q -> nonzero_closes rest -> (n <= List.length rest)%nat ->
  (compound prev (firstn n (finite_values (values (lagged_returns prev rest))))
   == nth n (prev :: map snd rest) 0)%Q.
Proof.
  revert prev n; induction rest as [|[t c] rest IH]; intros prev n Hp Hnz Hn.
  - destruct n as [|n]; [reflexivity|simpl in Hn; lia].
  - inversion Hnz as [|? ? Hc Hrest]; subst. simpl in Hc.
    destruct n as [|n]; [reflexivity|].
    cbn [lagged_returns values map snd finite_values firstn].
    change (compound (prev * (1 + percent_change prev c / 100))
              (firstn n (finite_values (values (lagged_returns c rest))))
            == nth n (c :: map snd rest) 0)%Q.
    rewrite (compound_start_Qeq _ _ c).
    + apply (IH c n Hc Hrest). simpl in Hn. lia.
    + unfold percent_change. field. exact Hp.
Qed.

(** X2: from the first close and the daily returns the later closes are
    recovered: when no close is zero, compounding the first n returns that
    remain after [dropna()] from the first close gives the close of
    observation n. *)
Theorem X2_closes_are_recovered_from_the_daily_returns
    (fill_pad : bool) (t0 : Timestamp) (c0 : Q) (rest : PriceFrame) (n : nat) :
  nonzero_closes ((t0, c0) :: rest) ->
  (n <= List.length rest)%nat ->
  exists s,
    resample_and_calculate_returns fill_pad ((t0, c0) :: rest) "D" = Return s
    /\ (compound c0 (firstn n (finite_values (values (dropna s))))
        == nth n (c0 :: map snd rest) 0)%Q.
Proof.
  intros Hnz Hn. eexists. split; [reflexivity|].
  pose proof (daily_returns fill_pad _ Hnz) as Heq.
  cbn [spec_daily_returns] in Heq.
  inversion Hnz as [|? ? Hc Hrest]; subst. simpl in Hc.
  rewrite (compound_Qeq _ _ c0 c0
             (Forall2_firstn Qeq n _ _
                (finite_values_feq _ _ (series_eq_values _ _ Heq)))
             (Qeq_refl c0)).
  now apply compound_lagged.
Qed.

Lemma X2_witness :
  exists s,
    resample_and_calculate_returns true ten_days "D" = Return s
    /\ (compound 100 (firstn 7 (finite_values (values (dropna s)))) == 102)%Q.
Proof.
  apply (X2_closes_are_recovered_from_the_daily_returns
           true d2024_01_01 100 (tl ten_days) 7).
  - repeat constructor; simpl; intros E; discriminate E.
  - simpl. lia.
Defined.

Lemma percent_change_facts (prev c : Q) :
  (0 < prev)%Q -> (0 < c)%Q ->
  (-100 < percent_change prev c)%Q
  /\ ((0 < percent_change prev c)%Q <-> (prev < c)%Q)
  /\ ((percent_change prev c == 0)%Q <-> (prev == c)%Q).
Proof.
  intros Hp Hc. unfold percent_change.
  assert (Hx : ((c - prev) / prev * prev == c - prev)%Q)
    by (field; intros E; rewrite E in Hp; now apply Qlt_irrefl in Hp).
  revert Hx. generalize ((c - prev) / prev)%Q. intros x Hx.
  repeat split; intros; Lqa.nra.
Qed.

Lemma moves_like_lagged (t0 : Timestamp) (prev : Q) (rest : PriceFrame) :
  (0 < prev)%Q -> positive_closes rest ->
  Forall2 moves_like (lagged_returns prev rest) (consecutive ((t0, prev) :: rest)).
Proof.
  unfold consecutive. cbn [tl].
  revert t0 prev; induction rest as [|[t c] rest IH]; intros t0 prev Hp Hpos.
  - constructor.
  - inversion Hpos as [|? ? Hc Hrest]; subst. simpl in Hc.
    cbn [lagged_returns combine]. constructor.
    + split; [reflexivity|]. exists (percent_change prev c).
      split; [reflexivity|]. cbn [fst snd]. now apply percent_change_facts.
    + apply (IH t c Hc Hrest).
Qed.

Lemma moves_like_series_eq (s1 s2 : Series)
    (pairs : list ((Timestamp * Q) * (Timestamp * Q))) :
  series_eq s1 s2 -> Forall2 moves_like s2 pairs -> Forall2 moves_like s1 pairs.
Proof.
  intros Heq. revert pairs.
  induction Heq as [|a b s1 s2 [Hd Hv] _ IH]; intros pairs H;
    inversion H as [|? pair ? pairs' Hb Hrest]; subst; constructor; auto.
  destruct Hb as (Hdate & q & Hq & Hlow & Hup & Hflat).
  split; [congruence|]. rewrite Hq in Hv.
  destruct (snd a) as [| |q']; simpl in Hv; try contradiction.
  exists q'. split; [reflexivity|]. rewrite Hv. auto.
Qed.

Lemma positive_nonzero (price_df : PriceFrame) :
  positive_closes price_df -> nonzero_closes price_df.
Proof.
  unfold positive_closes, nonzero_closes. apply Forall_impl.
  intros r Hr E. rewrite E in Hr. now apply Qlt_irrefl in Hr.
Qed.

(** X3: for positive closes, every daily return left by [dropna()] bears the
    date of the later of the two observations it compares, is a number
    above -100, is positive exactly when the close went up and zero exactly
    when it did not move; there is one per pair of consecutive
    observations. *)
Theorem X3_daily_returns_follow_the_moves_of_the_close
    (fill_pad : bool) (price_df : PriceFrame) :
  positive_closes price_df ->
  exists s,
    resample_and_calculate_returns fill_pad price_df "D" = Return s
    /\ Forall2 moves_like (dropna s) (consecutive price_df).
Proof.
  intros Hpos. eexists. split; [reflexivity|].
  apply (moves_like_series_eq _ (spec_daily_returns price_df)).
  - apply daily_returns. now apply positive_nonzero.
  - destruct price_df as [|[t0 c0] rest]; [constructor|].
    inversion Hpos as [|? ? Hc Hrest]; subst. simpl in Hc.
    now apply moves_like_lagged.
Qed.

Lemma X3_witness :
  exists s,
    resample_and_calculate_returns true three_closes "D" = Return s
    /\ Forall2 moves_like (dropna s) (consecutive three_closes).
Proof.
  apply X3_daily_returns_follow_the_moves_of_the_close.
  repeat constructor.
Defined.

(** * Weeks ending on Friday *)

Lemma bucket_W_FRI_spec (t : Timestamp) :
  weekday (bucket W_FRI t) = 4
  /\ t <= bucket W_FRI t <= t + 6.
Proof.
  unfold bucket, weekday. Z.to_euclidean_division_equations. lia.
Qed.

Lemma bucket_W_FRI_mono (t u : Timestamp) :
  t <= u -> bucket W_FRI t <= bucket W_FRI u.
Proof.
  unfold bucket, weekday. intros H. Z.to_euclidean_division_equations. lia.
Qed.

(** Two Fridays are a whole number of weeks apart. *)
Lemma bucket_W_FRI_step (t u : Timestamp) :
  t <= u ->
  exists k : nat, bucket W_FRI u = bucket W_FRI t + 7 * Z.of_nat k.
Proof.
  intros H.
  exists (Z.to_nat ((bucket W_FRI u - bucket W_FRI t) / 7)).
  pose proof (bucket_W_FRI_mono t u H) as Hm.
  rewrite Z2Nat.id by (apply Z.div_pos; lia).
  revert Hm. unfold bucket, weekday. intros Hm.
  Z.to_euclidean_division_equations. lia.
Qed.

Lemma labels_from_W_FRI (k fuel : nat) (l : Timestamp) :
  (k < fuel)%nat ->
  labels_from fuel W_FRI l (l + 7 * Z.of_nat k)
  = map (fun i => l + 7 * Z.of_nat i) (seq 0 (S k)).
Proof.
  revert fuel l; induction k as [|k IH]; intros fuel l Hf;
    (destruct fuel as [|fuel]; [lia|]); cbn [labels_from].
  - replace (l + 7 * Z.of_nat 0) with l by lia. rewrite Z.ltb_irrefl.
    cbn [seq map next_label]. replace (l + 7 * Z.of_nat 0) with l by lia.
    f_equal. destruct fuel; cbn [labels_from]; auto.
    assert (E : (l <? l + 7) = true) by (apply Z.ltb_lt; lia). now rewrite E.
  - assert (E : (l + 7 * Z.of_nat (S k) <? l) = false) by (apply Z.ltb_ge; lia).
    rewrite E. cbn [next_label].
    replace (l + 7 * Z.of_nat (S k)) with ((l + 7) + 7 * Z.of_nat k) by lia.
    rewrite IH by lia.
    change (seq 0 (S (S k))) with (0%nat :: seq 1 (S k)).
    cbn [map]. rewrite <- seq_shift, map_map.
    f_equal; [lia|]. apply map_ext. intros i. lia.
Qed.

Lemma fold_left_min_spec (l : list Z) (a : Z) :
  In (fold_left Z.min l a) (a :: l)
  /\ forall x, In x (a :: l) -> fold_left Z.min l a <= x.
Proof.
  revert a; induction l as [|b l IH]; intros a; cbn [fold_left].
  - split; [left; reflexivity|]. intros x [<-|[]]. lia.
  - destruct (IH (Z.min a b)) as [Hin Hle]. split.
    + destruct Hin as [E|Hin]; [|right; right; exact Hin].
      rewrite <- E. destruct (Z.min_spec a b) as [[_ ->]|[_ ->]]; simpl; auto.
    + intros x [<-|[<-|Hx]].
      * specialize (Hle (Z.min a b) (or_introl eq_refl)). lia.
      * specialize (Hle (Z.min a b) (or_introl eq_refl)). lia.
      * apply Hle. right. exact Hx.
Qed.

Lemma fold_left_max_spec (l : list Z) (a : Z) :
  In (fold_left Z.max l a) (a :: l)
  /\ forall x, In x (a :: l) -> x <= fold_left Z.max l a.
Proof.
  revert a; induction l as [|b l IH]; intros a; cbn [fold_left].
  - split; [left; reflexivity|]. intros x [<-|[]]. lia.
  - destruct (IH (Z.max a b)) as [Hin Hle]. split.
    + destruct Hin as [E|Hin]; [|right; right; exact Hin].
      rewrite <- E. destruct (Z.max_spec a b) as [[_ ->]|[_ ->]]; simpl; auto.
    + intros x [<-|[<-|Hx]].
      * specialize (Hle (Z.max a b) (or_introl eq_refl)). lia.
      * specialize (Hle (Z.max a b) (or_introl eq_refl)). lia.
      * apply Hle. right. exact Hx.
Qed.

(** The first and the last day of a non-empty index. *)
Lemma index_bounds (ix : list Timestamp) :
  ix <> [] ->
  exists lo hi,
    index_min ix = Some lo /\ index_max ix = Some hi
    /\ In lo ix /\ In hi ix
    /\ forall t, In t ix -> lo <= t <= hi.
Proof.
  destruct ix as [|a l]; [contradiction|]. intros _.
  destruct (fold_left_min_spec l a) as [Hmin Hle].
  destruct (fold_left_max_spec l a) as [Hmax Hge].
  exists (fold_left Z.min l a), (fold_left Z.max l a).
  repeat split; auto.
Qed.

(** The weekly table has one row per week from the week of the first
    observation to the week of the last, labelled by its Friday. *)
Lemma weekly_index (s : Series) :
  s <> [] ->
  exists lo hi k,
    index_min (index s) = Some lo /\ index_max (index s) = Some hi
    /\ bucket W_FRI hi = bucket W_FRI lo + 7 * Z.of_nat k
    /\ index (resample_last W_FRI s)
       = map (fun i => bucket W_FRI lo + 7 * Z.of_nat i) (seq 0 (S k))
    /\ forall t, In t (index s) -> lo <= t <= hi.
Proof.
  intros Hne.
  destruct (index_bounds (index s)) as (lo & hi & Hlo & Hhi & Hinlo & _ & Hb).
  { destruct s; [contradiction|discriminate]. }
  destruct (bucket_W_FRI_step lo hi) as [k Hk]; [apply Hb; exact Hinlo|].
  exists lo, hi, k. repeat split; auto; try (apply Hb; assumption).
  unfold resample_last, index. rewrite map_map. cbn [fst]. rewrite map_id.
  unfold bins. fold (index s). rewrite Hlo, Hhi, Hk.
  apply labels_from_W_FRI.
  replace (bucket W_FRI lo + 7 * Z.of_nat k - bucket W_FRI lo + 1)
    with (Z.of_nat (7 * k + 1)) by lia.
  rewrite Nat2Z.id. lia.
Qed.

(** X4: with timeframe W the answer has one row for every week from the
    week of the earliest observation to the week of the latest, weeks
    without observation included; each row is labelled by the Friday that
    ends its week, and the week of every observation has its row. *)
Theorem X4_weekly_returns_have_one_row_per_week
    (fill_pad : bool) (price_df : PriceFrame) :
  price_df <> [] ->
  exists s lo hi k,
    resample_and_calculate_returns fill_pad price_df "W" = Return s
    /\ index_min (map fst price_df) = Some lo
    /\ index_max (map fst price_df) = Some hi
    /\ bucket W_FRI hi = bucket W_FRI lo + 7 * Z.of_nat k
    /\ index s = map (fun i => bucket W_FRI lo + 7 * Z.of_nat i) (seq 0 (S k))
    /\ Forall (fun label => weekday label = 4) (index s)
    /\ (forall t, In t (map fst price_df) ->
          In (bucket W_FRI t) (index s) /\ t <= bucket W_FRI t <= t + 6).
Proof.
  intros Hne.
  destruct (weekly_index (Close price_df)) as (lo & hi & k & Hlo & Hhi & Hk & Hix & Hb).
  { destruct price_df; [contradiction|discriminate]. }
  rewrite index_Close in Hlo, Hhi, Hb.
  eexists. exists lo, hi, k. split; [reflexivity|].
  assert (Hindex : index (times100 (pct_change fill_pad
                                      (resample_last W_FRI (Close price_df))))
                   = map (fun i => bucket W_FRI lo + 7 * Z.of_nat i) (seq 0 (S k))).
  { unfold times100. now rewrite index_smap, pct_change_index. }
  rewrite Hindex. repeat split; auto.
  - apply Forall_forall. intros label Hl. apply in_map_iff in Hl.
    destruct Hl as (i & <- & _).
    destruct (bucket_W_FRI_spec lo) as [Hw _]. revert Hw. unfold weekday.
    intros Hw. Z.to_euclidean_division_equations. lia.
  - destruct (Hb t H) as [Hlot Hthi].
    destruct (bucket_W_FRI_step lo t Hlot) as [j Hj].
    pose proof (bucket_W_FRI_mono t hi Hthi) as Hm.
    apply in_map_iff. exists j. split; [lia|]. apply in_seq. lia.
  - apply bucket_W_FRI_spec.
  - apply bucket_W_FRI_spec.
Qed.

Lemma X4_witness :
  exists s lo hi k,
    resample_and_calculate_returns true ten_days "W" = Return s
    /\ index_min (map fst ten_days) = Some lo
    /\ index_max (map fst ten_days) = Some hi
    /\ bucket W_FRI hi = bucket W_FRI lo + 7 * Z.of_nat k
    /\ index s = map (fun i => bucket W_FRI lo + 7 * Z.of_nat i) (seq 0 (S k))
    /\ Forall (fun label => weekday label = 4) (index s)
    /\ (forall t, In t (map fst ten_days) ->
          In (bucket W_FRI t) (index s) /\ t <= bucket W_FRI t <= t + 6).
Proof.
  apply X4_weekly_returns_have_one_row_per_week. discriminate.
Defined.

Lemma ffill_from_app_valid (p : float64) (vs1 vs2 : list float64) (v1 v2 : float64) :
  notna v1 = true -> notna v2 = true ->
  ffill_from p (vs1 ++ v1 :: v2 :: vs2)
  = ffill_from p vs1 ++ v1 :: v2 :: ffill_from v2 vs2.
Proof.
  intros H1 H2. revert p; induction vs1 as [|v vs1 IH]; intros p.
  - cbn [app ffill_from]. unfold notna in *.
    destruct (isna v1); [discriminate|]. destruct (isna v2); [discriminate|].
    reflexivity.
  - cbn [app ffill_from]. cbv zeta. now rewrite IH.
Qed.

Lemma zip_with_lag_app {A B} (g : A -> A -> B) (a r : list A) (p : A) :
  exists q,
    zip_with g (a ++ r) (p :: a ++ r)
    = zip_with g a (p :: a) ++ zip_with g r (q :: r).
Proof.
  revert p; induction a as [|x a IH]; intros p; [exists p; reflexivity|].
  destruct (IH x) as [q Hq]. exists q.
  cbn [app zip_with]. now rewrite Hq.
Qed.

Lemma zip_with_lag_length {A B} (g : A -> A -> B) (a : list A) (p : A) :
  List.length (zip_with g a (p :: a)) = List.length a.
Proof. rewrite zip_with_length. simpl. lia. Qed.

Lemma at_label_combine_app (i1 i2 : list Timestamp) (z1 z2 : list float64)
    (t : Timestamp) (w : float64) :
  List.length i1 = List.length z1 -> ~ In t i1 ->
  at_label (combine (i1 ++ t :: i2) (z1 ++ w :: z2)) t = w.
Proof.
  revert z1; induction i1 as [|u i1 IH]; intros [|z z1] Hlen Hnot;
    simpl in Hlen; try discriminate.
  - cbn [app combine at_label]. now rewrite Z.eqb_refl.
  - cbn [app combine at_label].
    destruct (t =? u) eqn:E.
    + apply Z.eqb_eq in E. subst. exfalso. apply Hnot. left. reflexivity.
    + apply IH; [lia|]. intros Hin. apply Hnot. right. exact Hin.
Qed.

(** The percent change on a row whose predecessor is valid compares the
    two rows. *)
Lemma pct_change_at (fill_pad : bool) (s1 s2 : Series)
    (t1 t2 : Timestamp) (v1 v2 : float64) :
  notna v1 = true -> notna v2 = true ->
  ~ In t2 (index s1) -> t2 <> t1 ->
  at_label (pct_change fill_pad (s1 ++ (t1, v1) :: (t2, v2) :: s2)) t2
  = fsub (fdiv v2 v1) (Num 1).
Proof.
  intros H1 H2 Hnot Hne. unfold pct_change. rewrite zip_with_shift1.
  assert (Hd : exists d1 d2,
             filled fill_pad (values (s1 ++ (t1, v1) :: (t2, v2) :: s2))
             = d1 ++ v1 :: v2 :: d2
             /\ List.length d1 = List.length s1).
  { unfold values. rewrite map_app. cbn [map snd].
    unfold filled, ffill. destruct fill_pad.
    - rewrite ffill_from_app_valid by assumption.
      eexists _, _. split; [reflexivity|]. now rewrite ffill_from_length, length_map.
    - eexists _, _. split; [reflexivity|]. now rewrite length_map. }
  destruct Hd as (d1 & d2 & -> & Hlen).
  set (g := fun x p : float64 => fsub (fdiv x p) (Num 1)).
  destruct (zip_with_lag_app g d1 (v1 :: v2 :: d2) NaN) as [q ->].
  cbn [zip_with].
  unfold index. rewrite map_app. cbn [map fst].
  change (map fst s1 ++ t1 :: t2 :: map fst s2)
    with (map fst s1 ++ [t1] ++ t2 :: map fst s2).
  rewrite app_assoc.
  change (zip_with g d1 (NaN :: d1)
          ++ g v1 q :: g v2 v1 :: zip_with g d2 (v2 :: d2))
    with (zip_with g d1 (NaN :: d1)
          ++ [g v1 q] ++ g v2 v1 :: zip_with g d2 (v2 :: d2)).
  rewrite app_assoc.
  apply at_label_combine_app.
  - rewrite !length_app, zip_with_lag_length, length_map. simpl. lia.
  - intros Hin. apply in_app_or in Hin. destruct Hin as [Hin|[E|[]]]; auto.
Qed.

Lemma at_label_smap (h : float64 -> float64) (s : Series) (t : Timestamp) :
  h NaN = NaN -> at_label (smap h s) t = h (at_label s t).
Proof.
  intros Hh. induction s as [|[u v] s IH]; simpl; auto.
  destruct (t =? u); auto.
Qed.

(** The close that the weekly table holds for a week is the close of the
    last row of the price table in that week. *)
Lemma last_close_of_bucket (rule : Rule) (p1 p2 : PriceFrame) (t : Timestamp) (c : Q) :
  Forall (fun r => bucket rule (fst r) <> bucket rule t) p2 ->
  last_valid (values (filter (fun r => bucket rule (fst r) =? bucket rule t)
                             (Close (p1 ++ (t, c) :: p2))))
  = Num c.
Proof.
  intros Hlast. unfold Close. rewrite map_app, filter_app. cbn [map filter fst snd].
  rewrite Z.eqb_refl.
  assert (E : filter (fun r : Timestamp * float64 => bucket rule (fst r) =? bucket rule t)
                     (map (fun r : Timestamp * Q => (fst r, Num (snd r))) p2) = []).
  { induction Hlast as [|r p2 Hr _ IH]; cbn [map filter fst]; auto.
    apply Z.eqb_neq in Hr. now rewrite Hr. }
  rewrite E. unfold values, last_valid. rewrite map_app, filter_app.
  cbn [map filter snd notna isna negb]. apply last_last.
Qed.

Lemma seq_split_two (j k : nat) :
  (S j <= k)%nat ->
  seq 0 (S k) = seq 0 j ++ j :: S j :: seq (S (S j)) (k - S j).
Proof.
  intros H. replace (S k) with (j + (S (S (k - S j))))%nat by lia.
  rewrite seq_app. reflexivity.
Qed.

(** X5: with timeframe W, the return of a week that follows a week with
    observations compares the last closes of the two weeks: it is
    [(c2 - c1) / c1 * 100] for the last row [c1] of the earlier week and the
    last row [c2] of the later one. *)
Theorem X5_weekly_return_compares_the_last_closes_of_two_weeks
    (fill_pad : bool) (p1 p2 p3 : PriceFrame)
    (t1 t2 : Timestamp) (c1 c2 : Q) :
  let price_df := p1 ++ (t1, c1) :: p2 ++ (t2, c2) :: p3 in
  Forall (fun r => bucket W_FRI (fst r) <> bucket W_FRI t1) (p2 ++ (t2, c2) :: p3) ->
  Forall (fun r => bucket W_FRI (fst r) <> bucket W_FRI t2) p3 ->
  bucket W_FRI t2 = bucket W_FRI t1 + 7 ->
  ~ (c1 == 0)%Q ->
  exists s,
    resample_and_calculate_returns fill_pad price_df "W" = Return s
    /\ feq (at_label s (bucket W_FRI t2)) (Num (percent_change c1 c2)).
Proof.
  intros price_df Hlast1 Hlast2 Hnext Hc1.
  eexists. split; [reflexivity|].
  unfold times100. rewrite at_label_smap by reflexivity.
  set (tab := fun label : Timestamp =>
                (label,
                 last_valid
                   (values (filter (fun r => bucket W_FRI (fst r) =? label)
                                   (Close price_df))))).
  assert (HR : resample_last W_FRI (Close price_df)
               = map tab (index (resample_last W_FRI (Close price_df)))).
  { unfold resample_last, index. rewrite !map_map. apply map_ext.
    intros label. reflexivity. }
  destruct (weekly_index (Close price_df)) as (lo & hi & k & _ & _ & Hk & Hix & Hb).
  { unfold price_df. destruct p1; discriminate. }
  rewrite index_Close in Hb.
  assert (Hin1 : In t1 (map fst price_df)).
  { unfold price_df. rewrite map_app. apply in_or_app. right. left. reflexivity. }
  assert (Hin2 : In t2 (map fst price_df)).
  { unfold price_df. rewrite map_app. apply in_or_app. right. right.
    rewrite map_app. apply in_or_app. right. left. reflexivity. }
  destruct (bucket_W_FRI_step lo t1) as [j Hj]; [apply Hb; exact Hin1|].
  pose proof (bucket_W_FRI_mono t2 hi (proj2 (Hb t2 Hin2))) as Hm.
  assert (Hjk : (S j <= k)%nat) by lia.
  rewrite HR, Hix, (seq_split_two j k Hjk), !map_app. cbn [map].
  assert (Htab1 : tab (bucket W_FRI lo + 7 * Z.of_nat j) = (bucket W_FRI t1, Num c1)).
  { rewrite <- Hj. unfold tab. f_equal. unfold price_df.
    now apply last_close_of_bucket. }
  assert (Htab2 : tab (bucket W_FRI lo + 7 * Z.of_nat (S j)) = (bucket W_FRI t2, Num c2)).
  { replace (bucket W_FRI lo + 7 * Z.of_nat (S j)) with (bucket W_FRI t2) by lia.
    unfold tab. f_equal. unfold price_df.
    change (p1 ++ (t1, c1) :: p2 ++ (t2, c2) :: p3)
      with (p1 ++ ((t1, c1) :: p2) ++ (t2, c2) :: p3).
    rewrite app_assoc. now apply last_close_of_bucket. }
  rewrite Htab1, Htab2.
  rewrite pct_change_at; try reflexivity.
  - now apply pct_value.
  - unfold index. rewrite !map_map. cbn [fst]. intros Hin.
    apply in_map_iff in Hin. destruct Hin as (i & Hi & Hseq).
    apply in_seq in Hseq. unfold tab in Hi. cbn [fst] in Hi. lia.
  - lia.
Qed.

Lemma X5_witness :
  exists s,
    resample_and_calculate_returns true ten_days "W" = Return s
    /\ feq (at_label s (bucket W_FRI d2024_01_10)) (Num (percent_change 100 102)).
Proof.
  apply (X5_weekly_return_compares_the_last_closes_of_two_weeks true
           [(d2024_01_01, 100%Q); (d2024_01_01 + 1, 110%Q);
            (d2024_01_01 + 2, 99%Q); (d2024_01_01 + 3, 99%Q)]
           [(d2024_01_08, 102%Q); (d2024_01_08 + 1, 51%Q)]
           []
           (d2024_01_01 + 4) d2024_01_10 100 102).
  - repeat constructor; intros E; vm_compute in E; discriminate E.
  - constructor.
  - reflexivity.
  - intros E. discriminate E.
Defined.

(** * Further properties of the handler *)

Section Answers.

Variable env : Env.

(** A request is rejected for a missing field, or it has its three
    required fields. *)
Lemma request_cases (data : Request) :
  get_stock_data env data = (Error MissingParameters 400, [])
  \/ exists ths start stop,
       ths <> [] /\ data = request ths start stop (timeframe data).
Proof.
  destruct data as [[ths|] [start|] [stop|] tf]; auto.
  destruct ths as [|th ths]; auto.
  right. exists (th :: ths), start, stop. split; [discriminate|reflexivity].
Qed.

Lemma stock_rows_checked (ths : list Theme) (start : DateString) (stop : Timestamp) (tf : option string)
    (r : StockRecord) :
  ths <> [] ->
  In r (stock_rows (fst (get_stock_data env (request ths start stop tf)))) ->
  exists th code frame,
    In th ths /\ In code (codes th)
    /\ In frame (stock_frames_of env (get tf "D"%string) start (day start - 7) stop code)
    /\ In r frame.
Proof.
  intros Hne. rewrite get_stock_data_checked by exact Hne. cbv zeta. cbn [fst].
  unfold stock_rows.
  destruct (fold_left _ ths []); cbn [payload_parts fst snd]; [intros []|].
  intros Hr. apply in_concat in Hr. destruct Hr as (frame & Hframe & Hr).
  apply in_flat_map in Hframe. destruct Hframe as (th & Hth & Hframe).
  unfold stock_frames_of_theme in Hframe. apply in_flat_map in Hframe.
  destruct Hframe as (code & Hcode & Hframe).
  exists th, code, frame. auto.
Qed.

(** X7: stock-level rows are produced for the daily timeframe only: with
    any other timeframe the answer holds none. *)
Theorem X7_stock_level_rows_only_for_the_daily_timeframe
    (data : Request) (tf : string) :
  timeframe data = Some tf -> tf <> "D"%string ->
  stock_rows (fst (get_stock_data env data)) = [].
Proof.
  intros Htf Hne.
  destruct (request_cases data) as [->|(ths & start & stop & Hths & ->)];
    [reflexivity|].
  cbn [timeframe request] in Htf. rewrite Htf.
  destruct (stock_rows _) as [|r rows] eqn:E; [reflexivity|].
  destruct (stock_rows_checked ths start stop (Some tf) r Hths)
    as (th & code & frame & _ & _ & Hframe & _).
  { rewrite E. left. reflexivity. }
  exfalso. unfold stock_frames_of in Hframe. cbn [get] in Hframe.
  apply String.eqb_neq in Hne. rewrite Hne in Hframe.
  destruct (contribution env tf (day start - 7) stop code) as [[? ?]|];
    destruct Hframe.
Qed.

Lemma display_name_spec (code : string) :
  display_name env code = code
  \/ In (code, display_name env code) (ALL_STOCKS_LIST env).
Proof.
  unfold display_name.
  destruct (find _ (ALL_STOCKS_LIST env)) as [[c n]|] eqn:E; auto.
  right. apply find_some in E. destruct E as [Hin Heq].
  apply String.eqb_eq in Heq. simpl in Heq. subst. exact Hin.
Qed.

(** X8: every stock-level row of an answer holds a value that is not NaN,
    bears a date whose string is not below the start string of the request
    in the order of strings, and is labelled "name (code)" for a code of
    the request that contributed, the name being the one of the directory,
    or the code itself when the directory does not know it.  When the
    start string is written as [strftime] writes its day, the row is dated
    on or after the start day. *)
Theorem X8_stock_level_rows_are_trimmed_and_labelled
    (data : Request) (start : DateString) (r : StockRecord) :
  startDate data = Some start ->
  In r (stock_rows (fst (get_stock_data env data))) ->
  String.leb (text start) (strftime (stock_date r)) = true
  /\ (text start = strftime (day start) ->
      in_calendar (day start) -> in_calendar (stock_date r) ->
      day start <= stock_date r)
  /\ isna (stock_value r) = false
  /\ exists th code,
       In th (get (themes data) []) /\ In code (codes th)
       /\ stock_name r = stock_label env code
       /\ (display_name env code = code
           \/ In (code, display_name env code) (ALL_STOCKS_LIST env)).
Proof.
  intros Hstart Hr.
  destruct (request_cases data) as [E|(ths & start' & stop & Hths & E)].
  { rewrite E in Hr. destruct Hr. }
  rewrite E in Hr, Hstart |- *. cbn [startDate request] in Hstart.
  injection Hstart as ->.
  destruct (stock_rows_checked ths start stop _ r Hths Hr)
    as (th & code & frame & Hth & Hcode & Hframe & Hin).
  unfold stock_frames_of in Hframe.
  destruct (contribution env _ (day start - 7) stop code) as [[price_df ?]|];
    [|destruct Hframe].
  destruct (String.eqb _ "D"); [|destruct Hframe].
  destruct Hframe as [<-|[]].
  apply filter_In in Hin. destruct Hin as [Hin Hdate].
  split; [exact Hdate|]. split.
  { intros Htext Hs Ht. rewrite Htext, strftime_leb in Hdate by assumption.
    now apply Z.leb_le. }
  unfold stock_df in Hin. apply in_map_iff in Hin.
  destruct Hin as (row & <- & Hrow). cbn [stock_date stock_value stock_name] in *.
  unfold dropna in Hrow. apply filter_In in Hrow. destruct Hrow as [Hrow Hna].
  split.
  - unfold notna in Hna. now destruct (isna (snd row)).
  - exists th, code. cbn [themes request get]. repeat split; auto.
    apply display_name_spec.
Qed.

(** X9: a symbol whose fetch comes back with an empty table is skipped
    like one whose fetch raises: it adds nothing, and the answer is the one
    the request would get without it. *)
Theorem X9_symbol_with_an_empty_table_is_skipped
    (ths1 ths2 : list Theme) (theme_name : string) (cs1 cs2 : list string)
    (code : string) (start : DateString) (stop : Timestamp) (tf : option string) :
  let with_code :=
    ths1 ++ {| name := theme_name; codes := cs1 ++ code :: cs2 |} :: ths2 in
  let without_code :=
    ths1 ++ {| name := theme_name; codes := cs1 ++ cs2 |} :: ths2 in
  DataReader env code (day start - 7) stop = Return [] ->
  fst (get_stock_data env (request with_code start stop tf))
  = fst (get_stock_data env (request without_code start stop tf)).
Proof.
  intros with_code without_code Hempty.
  assert (Hc : contribution env (get tf "D"%string) (day start - 7) stop code = None)
    by (unfold contribution; now rewrite Hempty).
  assert (Hp : period_returns_of env (get tf "D"%string) (day start - 7) stop code = [])
    by now apply period_returns_nil.
  assert (Hs : stock_frames_of env (get tf "D"%string) start (day start - 7) stop code = [])
    by now apply stock_frames_nil.
  assert (Hw : with_code <> []) by (unfold with_code; now destruct ths1).
  assert (Hwo : without_code <> []) by (unfold without_code; now destruct ths1).
  rewrite !get_stock_data_checked by assumption. cbv zeta. cbn [fst].
  assert (Hthemed :
    fold_left (theme_update env (get tf "D"%string) (day start - 7) stop) with_code []
    = fold_left (theme_update env (get tf "D"%string) (day start - 7) stop) without_code []).
  { unfold with_code, without_code. rewrite !fold_left_app. cbn [fold_left].
    f_equal. unfold theme_update. cbn [codes name].
    now rewrite (flat_map_skip _ cs1 cs2 code Hp). }
  assert (Hstock :
    flat_map (stock_frames_of_theme env (get tf "D"%string) start (day start - 7) stop)
             with_code
    = flat_map (stock_frames_of_theme env (get tf "D"%string) start (day start - 7) stop)
               without_code).
  { unfold with_code, without_code. rewrite !flat_map_app. cbn [flat_map].
    f_equal. f_equal. unfold stock_frames_of_theme. cbn [codes].
    now apply flat_map_skip. }
  now rewrite Hthemed, Hstock.
Qed.

Lemma dict_set_keys_In {V} (d : list (string * V)) (k : string) (v : V) (a : string) :
  In a (map fst (dict_set d k v)) <-> a = k \/ In a (map fst d).
Proof.
  induction d as [|[k' v'] d IH]; simpl.
  - intuition.
  - destruct (String.eqb k k') eqn:E; simpl.
    + apply String.eqb_eq in E. subst. intuition.
    + rewrite IH. intuition.
Qed.

Lemma dict_set_keys_NoDup {V} (d : list (string * V)) (k : string) (v : V) :
  NoDup (map fst d) -> NoDup (map fst (dict_set d k v)).
Proof.
  induction d as [|[k' v'] d IH]; simpl; intros Hnd.
  - constructor; [intros []|constructor].
  - inversion Hnd as [|? ? Hnot Hrest]; subst.
    destruct (String.eqb k k') eqn:E; simpl.
    + apply String.eqb_eq in E. subst. constructor; auto.
    + constructor; auto. intros Hin. apply dict_set_keys_In in Hin.
      destruct Hin as [->|Hin]; auto.
      rewrite String.eqb_refl in E. discriminate.
Qed.

Section Keys.

Variable tf : string.
Variables eff stop : Timestamp.

Lemma contributes_iff (th : Theme) :
  contributes env tf eff stop th <-> flat_map (period_returns_of env tf eff stop) (codes th) <> [].
Proof.
  unfold contributes. split.
  - intros (code & Hin & Hc) Hnil.
    rewrite flat_map_nil in Hnil. apply Hc. apply period_returns_nil. auto.
  - intros Hne.
    destruct (flat_map _ (codes th)) as [|s l] eqn:E; [contradiction|].
    assert (Hin : In s (flat_map (period_returns_of env tf eff stop) (codes th)))
      by (rewrite E; left; reflexivity).
    apply in_flat_map in Hin. destruct Hin as (code & Hcode & Hs).
    exists code. split; auto. intros Hc. apply period_returns_nil in Hc.
    rewrite Hc in Hs. destruct Hs.
Qed.

Lemma theme_update_keys (d : list (string * Series)) (th : Theme) (a : string) :
  In a (map fst (theme_update env tf eff stop d th))
  <-> In a (map fst d) \/ (name th = a /\ contributes env tf eff stop th).
Proof.
  rewrite contributes_iff. unfold theme_update.
  destruct (flat_map _ (codes th)) as [|s l].
  - intuition.
  - rewrite dict_set_keys_In. split.
    + intros [->|H]; auto. right. split; auto. discriminate.
    + intros [H|[<- _]]; auto.
Qed.

Lemma themed_keys (ths : list Theme) (d : list (string * Series)) (a : string) :
  In a (map fst (fold_left (theme_update env tf eff stop) ths d))
  <-> In a (map fst d) \/ exists th, In th ths /\ name th = a /\ contributes env tf eff stop th.
Proof.
  revert d; induction ths as [|th ths IH]; intros d; cbn [fold_left].
  - split; auto. intros [H|(th & [] & _)]; auto.
  - rewrite IH, theme_update_keys. split.
    + intros [[H|[Hn Hc]]|(th' & Hin & Hn & Hc)]; auto.
      * right. exists th. simpl. auto.
      * right. exists th'. simpl. auto.
    + intros [H|(th' & [<-|Hin] & Hn & Hc)]; auto.
      right. exists th'. auto.
Qed.

Lemma themed_keys_NoDup (ths : list Theme) (d : list (string * Series)) :
  NoDup (map fst d) ->
  NoDup (map fst (fold_left (theme_update env tf eff stop) ths d)).
Proof.
  revert d; induction ths as [|th ths IH]; intros d Hd; cbn [fold_left]; auto.
  apply IH. unfold theme_update.
  destruct (flat_map _ (codes th)); auto. now apply dict_set_keys_NoDup.
Qed.

End Keys.

Lemma corr_keys (df : DataFrame) :
  map fst (corr df) = map fst (df_columns df)
  /\ forall a row, In (a, row) (corr df) -> map fst row = map fst (df_columns df).
Proof.
  unfold corr. split.
  - rewrite map_map. reflexivity.
  - intros a row Hin. apply in_map_iff in Hin. destruct Hin as (col & E & _).
    injection E as _ <-. rewrite map_map. reflexivity.
Qed.

Lemma joint_table_keys (start : Timestamp) (d : list (string * Series)) :
  map fst (df_columns (df_loc_from start (DataFrame_of_dict d))) = map fst d.
Proof.
  unfold df_loc_from, DataFrame_of_dict. cbn [df_columns]. rewrite !map_map.
  reflexivity.
Qed.

(** X10: the correlation matrix of an answer has one row and one column
    for each theme name under which at least one symbol contributed, and
    for no other; the names are pairwise distinct, every row has the
    columns of the matrix, and every themed row bears one of these names. *)
Theorem X10_matrix_has_the_themes_that_got_data
    (ths : list Theme) (start : DateString) (stop : Timestamp) (tf : option string)
    (themed_returns : list ThemedRecord) (stock_level : list StockRecord)
    (matrix : list (string * list (string * option Coefficient))) :
  ths <> [] ->
  fst (get_stock_data env (request ths start stop tf))
    = Payload themed_returns stock_level matrix ->
  NoDup (map fst matrix)
  /\ (forall a,
        In a (map fst matrix)
        <-> exists th, In th ths /\ name th = a
                       /\ contributes env (get tf "D"%string) (day start - 7) stop th)
  /\ (forall a row, In (a, row) matrix -> map fst row = map fst matrix)
  /\ (forall r, In r themed_returns -> In (sector r) (map fst matrix)).
Proof.
  intros Hne. rewrite get_stock_data_checked by exact Hne. cbv zeta. cbn [fst].
  pose proof (themed_keys (get tf "D"%string) (day start - 7) stop ths []) as Hkeys.
  pose proof (themed_keys_NoDup (get tf "D"%string) (day start - 7) stop ths []
                (NoDup_nil _)) as Hnd.
  destruct (fold_left _ ths []) as [|entry themed] eqn:E; [discriminate|].
  intros Hresp. injection Hresp as <- _ <-.
  destruct (corr_keys (df_loc_from (day start) (DataFrame_of_dict (entry :: themed))))
    as [Hrows Hcols].
  rewrite joint_table_keys in Hrows, Hcols.
  rewrite Hrows. split; [exact Hnd|]. split; [|split].
  - intros a. rewrite Hkeys. simpl. intuition.
  - exact Hcols.
  - intros r Hr.
    change (In r (flat_map (theme_df (day start)) (entry :: themed))) in Hr.
    apply in_flat_map in Hr. destruct Hr as (e & He & Hr).
    unfold theme_df in Hr. apply in_map_iff in Hr. destruct Hr as (row & <- & _).
    cbn [sector]. now apply in_map.
Qed.

Lemma dict_get_set_other {V} (d : list (string * V)) (k k' : string) (v : V) :
  k <> k' -> dict_get (dict_set d k' v) k = dict_get d k.
Proof.
  intros Hne. induction d as [|[k0 v0] d IH]; simpl.
  - apply String.eqb_neq in Hne. now rewrite Hne.
  - destruct (String.eqb k' k0) eqn:E; simpl.
    + apply String.eqb_eq in E. subst.
      apply String.eqb_neq in Hne. now rewrite Hne.
    + now rewrite IH.
Qed.

Lemma dict_get_In_NoDup {V} (d : list (string * V)) (k : string) (v : V) :
  NoDup (map fst d) -> In (k, v) d -> dict_get d k = Some v.
Proof.
  induction d as [|[k0 v0] d IH]; simpl; intros Hnd Hin; [destruct Hin|].
  inversion Hnd as [|? ? Hnot Hrest]; subst.
  destruct Hin as [E|Hin].
  - injection E as -> ->. now rewrite String.eqb_refl.
  - destruct (String.eqb k k0) eqn:E.
    + apply String.eqb_eq in E. subst. exfalso. apply Hnot.
      change k0 with (fst (k0, v)). now apply in_map.
    + now apply IH.
Qed.

Lemma dict_get_Some_In {V} (d : list (string * V)) (k : string) (v : V) :
  dict_get d k = Some v -> In (k, v) d.
Proof.
  induction d as [|[k0 v0] d IH]; simpl; [discriminate|].
  destruct (String.eqb k k0) eqn:E.
  - apply String.eqb_eq in E. subst. intros H. injection H as ->. auto.
  - auto.
Qed.

Section SameName.

Variable tf : string.
Variables eff stop : Timestamp.

Lemma theme_update_get (d : list (string * Series)) (th : Theme) :
  contributes env tf eff stop th ->
  dict_get (theme_update env tf eff stop d th) (name th)
  = Some (theme_average env tf eff stop th).
Proof.
  intros Hc. apply contributes_iff in Hc. unfold theme_update, theme_average.
  destruct (flat_map _ (codes th)); [contradiction|]. apply dict_get_set.
Qed.

Lemma theme_update_get_other (d : list (string * Series)) (th : Theme) (k : string) :
  (name th = k -> ~ contributes env tf eff stop th) ->
  dict_get (theme_update env tf eff stop d th) k = dict_get d k.
Proof.
  intros H. unfold theme_update.
  destruct (flat_map _ (codes th)) as [|s l] eqn:E; auto.
  apply dict_get_set_other. intros Hk. apply (H (eq_sym Hk)).
  apply contributes_iff. rewrite E. discriminate.
Qed.

Lemma themed_get_other (ths : list Theme) (d : list (string * Series)) (k : string) :
  (forall th, In th ths -> name th = k -> ~ contributes env tf eff stop th) ->
  dict_get (fold_left (theme_update env tf eff stop) ths d) k = dict_get d k.
Proof.
  revert d; induction ths as [|th ths IH]; intros d H; cbn [fold_left]; auto.
  rewrite IH by (intros th' Hin; apply H; right; exact Hin).
  apply theme_update_get_other. apply H. left. reflexivity.
Qed.

End SameName.

(** X11: when several themes of a request bear the same name, the answer
    reports under that name the average of the last of them that got data:
    the dictionary of theme averages holds its series, and every themed row
    under the name is a row of that series.  The stock-level rows are not
    overwritten: the rows of every symbol of every theme, the earlier ones
    of the same name too, are in the answer. *)
Theorem X11_last_theme_of_a_name_wins
    (ths1 ths2 : list Theme) (th : Theme)
    (start : DateString) (stop : Timestamp) (tf : option string) :
  let timeframe := get tf "D"%string in
  let ths := ths1 ++ th :: ths2 in
  contributes env timeframe (day start - 7) stop th ->
  (forall th', In th' ths2 -> name th' = name th ->
               ~ contributes env timeframe (day start - 7) stop th') ->
  dict_get (themed_returns_data (run_themes env ths start stop timeframe)) (name th)
  = Some (theme_average env timeframe (day start - 7) stop th)
  /\ (forall r,
       In r (themed_rows (fst (get_stock_data env (request ths start stop tf)))) ->
       sector r = name th ->
       In r (theme_df (day start) (name th, theme_average env timeframe (day start - 7) stop th)))
  /\ (forall th' code frame r,
        In th' ths -> In code (codes th') ->
        In frame (stock_frames_of env timeframe start (day start - 7) stop code) ->
        In r frame ->
        In r (stock_rows (fst (get_stock_data env (request ths start stop tf))))).
Proof.
  intros timeframe ths Hc Hlater.
  assert (Hget : dict_get (fold_left (theme_update env timeframe (day start - 7) stop) ths [])
                          (name th)
                 = Some (theme_average env timeframe (day start - 7) stop th)).
  { unfold ths. rewrite fold_left_app. cbn [fold_left].
    rewrite themed_get_other by exact Hlater. now apply theme_update_get. }
  assert (Hne : ths <> []) by (unfold ths; now destruct ths1).
  split; [|split].
  - rewrite run_themes_fold. cbn [themed_returns_data]. exact Hget.
  - rewrite get_stock_data_checked by exact Hne. cbv zeta. cbn [fst].
    fold timeframe.
    pose proof (themed_keys_NoDup timeframe (day start - 7) stop ths [] (NoDup_nil _)) as Hnd.
    destruct (fold_left _ ths []) as [|entry themed] eqn:E; [discriminate|].
    unfold themed_rows. cbn [payload_parts fst].
    intros r Hr Hsector.
    change (In r (flat_map (theme_df (day start)) (entry :: themed))) in Hr.
    apply in_flat_map in Hr. destruct Hr as ([k series] & Hin & Hr).
    assert (Hk : k = name th).
    { unfold theme_df in Hr. apply in_map_iff in Hr.
      destruct Hr as (row & <- & _). exact Hsector. }
    subst k. rewrite (dict_get_In_NoDup _ _ _ Hnd Hin) in Hget.
    injection Hget as <-. exact Hr.
  - intros th' code frame r Hth Hcode Hframe Hr.
    rewrite get_stock_data_checked by exact Hne. cbv zeta. cbn [fst].
    fold timeframe.
    destruct (fold_left _ ths []) as [|entry themed] eqn:E; [discriminate|].
    unfold stock_rows. cbn [payload_parts fst snd].
    apply in_concat. exists frame. split; [|exact Hr].
    apply in_flat_map. exists th'. split; [exact Hth|].
    unfold stock_frames_of_theme. apply in_flat_map. exists code. auto.
Qed.

Lemma fsum_finite (qs : list Q) (a : Q) :
  exists total,
    fold_left fadd (map Num qs) (Num a) = Num total
    /\ (total == a + Qsum qs)%Q.
Proof.
  revert a; induction qs as [|q qs IH]; intros a; cbn [map fold_left Qsum fold_right].
  - exists a. split; [reflexivity|ring].
  - cbn [fadd]. destruct (IH (Qred (a + q))) as (total & Hfold & Htotal).
    exists total. split; [exact Hfold|].
    rewrite Htotal, Qred_correct. fold (Qsum qs). ring.
Qed.

Lemma mean_of_finite (l : list Series) (t : Timestamp) (qs : list Q) :
  present l t = map Num qs -> qs <> [] ->
  feq (mean_of_present l t) (Num (Qmean qs)).
Proof.
  intros Hp Hne. unfold mean_of_present. rewrite Hp.
  destruct qs as [|q qs']; [contradiction|]. cbn [map].
  change (Num q :: map Num qs') with (map Num (q :: qs')).
  unfold arithmetic_mean, fsum.
  destruct (fsum_finite (q :: qs') 0) as (total & -> & Htotal).
  rewrite length_map. unfold Qmean.
  set (n := inject_Z (Z.of_nat (List.length (q :: qs')))).
  assert (Hn : Qzero n = false).
  { unfold Qzero, n. cbn [Qnum inject_Z List.length]. apply Z.eqb_neq. lia. }
  cbn [fdiv]. rewrite Hn. cbn [feq]. rewrite Qred_correct, Htotal.
  apply Qzero_false in Hn. field. exact Hn.
Qed.

Lemma at_label_In (s : Series) (t : Timestamp) (v : float64) :
  increasing s -> In (t, v) s -> at_label s t = v.
Proof.
  unfold increasing. induction 1 as [|[u w] s Hs IH Hr]; intros Hin; [destruct Hin|].
  cbn [at_label]. destruct Hin as [E|Hin].
  - injection E as -> ->. now rewrite Z.eqb_refl.
  - rewrite Forall_forall in Hr. specialize (Hr _ Hin). cbn [fst] in Hr.
    assert (E : (t =? u) = false) by (apply Z.eqb_neq; lia).
    rewrite E. now apply IH.
Qed.

Lemma In_at_label (s : Series) (t : Timestamp) :
  isna (at_label s t) = false -> In (t, at_label s t) s.
Proof.
  induction s as [|[u w] s IH]; cbn [at_label isna]; [discriminate|].
  destruct (t =? u) eqn:E.
  - apply Z.eqb_eq in E. subst. left. reflexivity.
  - intros H. right. now apply IH.
Qed.

(** C4: the average that the handler stores and reports for a theme
    holds, on every date, the arithmetic mean of the values that the
    contributing symbols of the theme hold on that date; a symbol without a
    row on the date has no value there and is left out of the mean rather
    than counted as zero: with A at 10 and B missing, the average is 10.
    The theme is the last of its name to which a symbol contributes; its
    rows in the answer are the rounded means of the dates from the
    requested start on where some symbol has a value.  The mean of finite
    values is their sum divided by their number. *)
Theorem C4_theme_average_skips_missing_symbols
    (ths1 ths2 : list Theme) (th : Theme)
    (start : DateString) (stop : Timestamp) (tf : option string) :
  let timeframe := get tf "D"%string in
  let ths := ths1 ++ th :: ths2 in
  let l := flat_map (period_returns_of env timeframe (day start - 7) stop) (codes th) in
  let answer := fst (get_stock_data env (request ths start stop tf)) in
  (l <> [] ->
   (forall th', In th' ths2 -> name th' = name th ->
                ~ contributes env timeframe (day start - 7) stop th') ->
   (exists theme_avg,
      dict_get (themed_returns_data (run_themes env ths start stop timeframe))
               (name th) = Some theme_avg
      /\ forall t, at_label theme_avg t = mean_of_present l t)
   /\ (forall r,
         In r (themed_rows answer) -> sector r = name th ->
         day start <= date r
         /\ isna (mean_of_present l (date r)) = false
         /\ value r = fround2 (mean_of_present l (date r)))
   /\ (forall t,
         day start <= t -> isna (mean_of_present l t) = false ->
         In {| date := t; sector := name th;
               value := fround2 (mean_of_present l t) |}
            (themed_rows answer)))
  /\ (forall s t, ~ In t (index s) -> at_label s t = NaN)
  /\ (forall A B X,
        at_label A X = Num 10 -> ~ In X (index B) ->
        mean_of_present [A; B] X = Num 10
        /\ at_label (dropna (mean_axis1 (concat_axis1 [A; B]))) X = Num 10)
  /\ (forall series t qs,
        present series t = map Num qs -> qs <> [] ->
        feq (mean_of_present series t) (Num (Qmean qs))).
Proof.
  intros timeframe ths l answer. split; [|split; [|split]]; [| | |exact mean_of_finite].
  - intros Hl Hlater.
    assert (Hc : contributes env timeframe (day start - 7) stop th)
      by (apply contributes_iff; exact Hl).
    set (theme_avg := dropna (mean_axis1 (concat_axis1 l))).
    assert (Hinc : increasing theme_avg) by apply theme_average_increasing.
    assert (Hat : forall t, at_label theme_avg t = mean_of_present l t)
      by (intros t; apply theme_average_at).
    assert (Hget : dict_get (fold_left (theme_update env timeframe (day start - 7) stop)
                                       ths [])
                            (name th) = Some theme_avg).
    { unfold ths. rewrite fold_left_app. cbn [fold_left].
      rewrite themed_get_other by exact Hlater.
      rewrite theme_update_get by exact Hc. reflexivity. }
    assert (Hne : ths <> []) by (unfold ths; now destruct ths1).
    assert (Hrows : themed_rows answer
                    = flat_map (theme_df (day start))
                        (fold_left (theme_update env timeframe (day start - 7) stop) ths [])).
    { unfold answer. rewrite get_stock_data_checked by exact Hne. cbv zeta.
      cbn [fst]. fold timeframe.
      destruct (fold_left _ ths []) as [|entry themed] eqn:E; [discriminate|].
      reflexivity. }
    pose proof (themed_keys_NoDup timeframe (day start - 7) stop ths []
                  (NoDup_nil _)) as Hnd.
    split; [|split].
    + exists theme_avg. split; [|exact Hat].
      rewrite run_themes_fold. cbn [themed_returns_data]. exact Hget.
    + intros r Hr Hsector. rewrite Hrows in Hr.
      apply in_flat_map in Hr. destruct Hr as ([k series] & Hin & Hr).
      assert (Hk : k = name th).
      { unfold theme_df in Hr. apply in_map_iff in Hr.
        destruct Hr as (row & <- & _). exact Hsector. }
      subst k. rewrite (dict_get_In_NoDup _ _ _ Hnd Hin) in Hget.
      injection Hget as ->.
      unfold theme_df in Hr. cbn [fst snd] in Hr.
      rewrite loc_from_increasing in Hr by exact Hinc.
      unfold round2, smap in Hr. rewrite map_map in Hr.
      apply in_map_iff in Hr. destruct Hr as ([t v] & <- & Hrow).
      cbn [date value fst snd]. apply filter_In in Hrow.
      destruct Hrow as [Hrow Hdate]. cbn [fst] in Hdate.
      assert (Hv : mean_of_present l t = v).
      { rewrite <- Hat. now apply at_label_In. }
      rewrite Hv. split; [now apply Z.leb_le|]. split; [|reflexivity].
      unfold theme_avg, dropna in Hrow. apply filter_In in Hrow.
      destruct Hrow as [_ Hna]. cbn [snd] in Hna. unfold notna in Hna.
      now destruct (isna v).
    + intros t Hstart Hna. rewrite Hrows. apply in_flat_map.
      exists (name th, theme_avg). split; [now apply dict_get_Some_In|].
      unfold theme_df. cbn [fst snd].
      rewrite loc_from_increasing by exact Hinc.
      unfold round2, smap. rewrite map_map. apply in_map_iff.
      exists (t, mean_of_present l t). split; [reflexivity|].
      apply filter_In. split.
      * rewrite <- Hat. apply In_at_label. now rewrite Hat.
      * cbn [fst]. now apply Z.leb_le.
  - exact at_label_absent.
  - intros A B X HA HB.
    assert (H : mean_of_present [A; B] X = Num 10).
    { unfold mean_of_present, present. cbn [map].
      rewrite HA, (at_label_absent B X HB). reflexivity. }
    split; [exact H|]. now rewrite theme_average_at.
Qed.

Lemma increasing_index (s : Series) : increasing s -> StronglySorted Z.lt (index s).
Proof.
  unfold increasing, index. induction 1 as [|r s Hs IH Hr]; simpl; constructor; auto.
  now rewrite Forall_map.
Qed.

(** X12: the themed rows of an answer come theme after theme, in the order
    of the rows of the matrix; the rows of a theme bear its name and their
    dates increase strictly, from the requested start date on. *)
Theorem X12_themed_rows_come_theme_by_theme_in_date_order
    (ths : list Theme) (start : DateString) (stop : Timestamp) (tf : option string)
    (themed_returns : list ThemedRecord) (stock_level : list StockRecord)
    (matrix : list (string * list (string * option Coefficient))) :
  ths <> [] ->
  fst (get_stock_data env (request ths start stop tf))
    = Payload themed_returns stock_level matrix ->
  let themed :=
    themed_returns_data (run_themes env ths start stop (get tf "D"%string)) in
  themed_returns = flat_map (theme_df (day start)) themed
  /\ map fst themed = map fst matrix
  /\ forall entry, In entry themed ->
       Forall (fun r => sector r = fst entry /\ day start <= date r) (theme_df (day start) entry)
       /\ StronglySorted Z.lt (map date (theme_df (day start) entry)).
Proof.
  intros Hne. rewrite get_stock_data_checked by exact Hne. cbv zeta. cbn [fst].
  rewrite run_themes_fold. cbn [themed_returns_data].
  pose proof (themed_increasing env (get tf "D"%string) (day start - 7) stop ths []
                (Forall_nil _)) as Hinc.
  destruct (fold_left _ ths []) as [|e themed] eqn:E; [discriminate|].
  intros Hresp. injection Hresp as <- _ <-.
  split; [reflexivity|]. split.
  - destruct (corr_keys (df_loc_from (day start) (DataFrame_of_dict (e :: themed))))
      as [-> _].
    now rewrite joint_table_keys.
  - intros entry Hin. rewrite Forall_forall in Hinc. specialize (Hinc entry Hin).
    cbv beta in Hinc. split.
    + apply Forall_forall. intros r Hr. split.
      * unfold theme_df in Hr. apply in_map_iff in Hr.
        now destruct Hr as (row & <- & _).
      * now apply (theme_df_dates (day start) entry r).
    + unfold theme_df. rewrite map_map. cbn [date].
      rewrite loc_from_increasing by exact Hinc.
      change (map (fun x : Timestamp * float64 => fst x)
                  (round2 (filter (fun r => day start <=? fst r) (snd entry))))
        with (index (round2 (filter (fun r => day start <=? fst r) (snd entry)))).
      unfold round2. rewrite index_smap.
      apply increasing_index. now apply increasing_filter.
Qed.

End Answers.

(** * The theme average as a mean *)

Lemma Qsum_bounds (qs : list Q) (lo hi : Q) :
  (forall q, In q qs -> (lo <= q <= hi)%Q) ->
  (inject_Z (Z.of_nat (List.length qs)) * lo <= Qsum qs
   /\ Qsum qs <= inject_Z (Z.of_nat (List.length qs)) * hi)%Q.
Proof.
  induction qs as [|q qs IH]; intros H.
  - cbn [List.length Qsum fold_right]. change (inject_Z (Z.of_nat 0)) with 0%Q.
    split; Lqa.lra.
  - cbn [List.length Qsum fold_right]. fold (Qsum qs).
    rewrite Nat2Z.inj_succ. unfold Z.succ. rewrite inject_Z_plus.
    change (inject_Z 1) with 1%Q.
    destruct (H q (or_introl eq_refl)) as [Hlo Hhi].
    destruct IH as [IHlo IHhi]; [intros; apply H; right; assumption|].
    split; Lqa.lra.
Qed.

Lemma all_finite (vs : list float64) :
  (forall v, In v vs -> exists q, v = Num q) -> exists qs, vs = map Num qs.
Proof.
  induction vs as [|v vs IH]; intros H; [exists []; reflexivity|].
  destruct (H v (or_introl eq_refl)) as [q ->].
  destruct IH as [qs ->]; [intros; apply H; right; assumption|].
  exists (q :: qs). reflexivity.
Qed.

(** X13: on a date on which every value present is finite, the average of
    a theme is a number that lies between any two bounds that hold for the
    values of its symbols: it is never below the smallest nor above the
    largest of them. *)
Theorem X13_theme_average_lies_between_its_members
    (l : list Series) (t : Timestamp) (lo hi : Q) :
  present l t <> [] ->
  (forall v, In v (present l t) -> exists q, v = Num q /\ (lo <= q <= hi)%Q) ->
  exists m,
    at_label (dropna (mean_axis1 (concat_axis1 l))) t = Num m
    /\ (lo <= m <= hi)%Q.
Proof.
  intros Hne Hall. rewrite theme_average_at. unfold mean_of_present.
  destruct (all_finite (present l t)) as [qs Hqs].
  { intros v Hv. destruct (Hall v Hv) as (q & -> & _). eauto. }
  rewrite Hqs in *.
  destruct qs as [|q0 qs']; [contradiction|].
  set (qs := q0 :: qs') in *.
  change (map Num qs) with (Num q0 :: map Num qs').
  cbv iota. change (Num q0 :: map Num qs') with (map Num qs).
  unfold arithmetic_mean, fsum.
  destruct (fsum_finite qs 0) as (total & -> & Htotal).
  rewrite length_map.
  set (n := inject_Z (Z.of_nat (List.length qs))).
  assert (Hn : (0 < n)%Q).
  { unfold n, qs. cbn [List.length]. rewrite Nat2Z.inj_succ.
    unfold Qlt. simpl. lia. }
  assert (Hz : Qzero n = false).
  { apply Qzero_false. intros E. rewrite E in Hn. now apply Qlt_irrefl in Hn. }
  cbn [fdiv]. rewrite Hz.
  exists (Qred (total / n)). split; [reflexivity|].
  destruct (Qsum_bounds qs lo hi) as [Hlo Hhi].
  { intros q Hq. destruct (Hall (Num q)) as (q' & E & Hb).
    - now apply in_map.
    - injection E as ->. exact Hb. }
  fold n in Hlo, Hhi. rewrite Qred_correct, Htotal.
  split.
  - apply Qle_shift_div_l; [exact Hn|]. Lqa.lra.
  - apply Qle_shift_div_r; [exact Hn|]. Lqa.lra.
Qed.

Lemma X13_witness :
  exists m,
    at_label (dropna (mean_axis1 (concat_axis1 [series_A; series_B])))
             (d2024_01_08 + 1) = Num m
    /\ (-4 <= m <= 2)%Q.
Proof.
  apply X13_theme_average_lies_between_its_members.
  - vm_compute. discriminate.
  - intros v Hv. vm_compute in Hv.
    destruct Hv as [<-|[<-|[]]]; eexists; (split; [reflexivity|]);
      split; intros E; discriminate E.
Defined.

(** * The order of the codes of a theme *)

Lemma fadd_right_comm (a x y : float64) :
  fadd (fadd a x) y = fadd (fadd a y) x.
Proof.
  destruct a as [| sa|qa], x as [| sx|qx], y as [| sy|qy]; cbn [fadd];
    try reflexivity;
    try (destruct sa, sx; cbn [Bool.eqb fadd]; reflexivity);
    try (destruct sa, sy; cbn [Bool.eqb fadd]; reflexivity);
    try (destruct sx, sy; cbn [Bool.eqb fadd]; reflexivity);
    try (destruct sa, sx, sy; cbn [Bool.eqb fadd]; reflexivity).
  f_equal. apply Qred_complete. rewrite !Qred_correct. ring.
Qed.

Lemma fold_left_fadd_perm (l l' : list float64) (a : float64) :
  Permutation l l' -> fold_left fadd l a = fold_left fadd l' a.
Proof.
  intros H. revert a. induction H as [|x l l' _ IH|x y l|l l' l'' _ IH1 _ IH2];
    intros a; cbn [fold_left]; auto.
  - now rewrite fadd_right_comm.
  - now rewrite IH1.
Qed.

Lemma Permutation_filter_bool {A} (f : A -> bool) (l l' : list A) :
  Permutation l l' -> Permutation (filter f l) (filter f l').
Proof.
  induction 1 as [|x l l' _ IH|x y l|l l' l'' _ IH1 _ IH2]; cbn [filter].
  - constructor.
  - destruct (f x); auto.
  - destruct (f x), (f y); auto. constructor.
  - now transitivity (filter f l').
Qed.

Lemma Permutation_flat_map_list {A B} (f : A -> list B) (l l' : list A) :
  Permutation l l' -> Permutation (flat_map f l) (flat_map f l').
Proof.
  induction 1 as [|x l l' _ IH|x y l|l l' l'' _ IH1 _ IH2]; cbn [flat_map].
  - constructor.
  - now apply Permutation_app_head.
  - rewrite !app_assoc. apply Permutation_app_tail. apply Permutation_app_comm.
  - now transitivity (flat_map f l').
Qed.

Lemma nanmean_perm (row row' : list float64) :
  Permutation row row' -> nanmean row = nanmean row'.
Proof.
  intros H. unfold nanmean.
  pose proof (Permutation_filter_bool notna _ _ H) as Hf.
  destruct (filter notna row) as [|v vs] eqn:E.
  - apply Permutation_nil in Hf. now rewrite Hf.
  - destruct (filter notna row') as [|v' vs'] eqn:E'.
    + apply Permutation_sym, Permutation_nil in Hf. discriminate.
    + unfold fsum. rewrite (fold_left_fadd_perm _ _ (Num 0) Hf).
      now rewrite (Permutation_length Hf).
Qed.

(** A strictly increasing list is determined by its elements. *)
Lemma sorted_unique (l1 l2 : list Z) :
  StronglySorted Z.lt l1 -> StronglySorted Z.lt l2 ->
  (forall x, In x l1 <-> In x l2) -> l1 = l2.
Proof.
  intros H1. revert l2. induction H1 as [|a l1 Hs1 IH Ha]; intros l2 H2 Hin.
  - destruct l2 as [|b l2]; auto. exfalso. apply (Hin b). left. reflexivity.
  - inversion H2 as [|b l2' Hs2 Hb]; subst.
    + exfalso. apply (Hin a). left. reflexivity.
    + rewrite Forall_forall in Ha, Hb.
      assert (E : a = b).
      { destruct (proj1 (Hin a) (or_introl eq_refl)) as [E|Hal2]; auto.
        destruct (proj2 (Hin b) (or_introl eq_refl)) as [E|Hbl1]; auto.
        specialize (Ha b Hbl1). specialize (Hb a Hal2). lia. }
      subst b. f_equal. apply IH; auto.
      intros x. split; intros Hx.
      * destruct (proj1 (Hin x) (or_intror Hx)) as [E|H]; auto.
        specialize (Ha x Hx). lia.
      * destruct (proj2 (Hin x) (or_intror Hx)) as [E|H]; auto.
        specialize (Hb x Hx). lia.
Qed.

Lemma index_union_perm (l l' : list Series) :
  Permutation l l' -> index_union l = index_union l'.
Proof.
  intros H. apply sorted_unique; try apply index_union_sorted.
  intros x. rewrite !index_union_In. split; intros (s & Hs & Hx); exists s; split; auto.
  - now apply (Permutation_in _ H).
  - now apply (Permutation_in _ (Permutation_sym H)).
Qed.

(** The average series does not depend on the order of the member series. *)
Lemma theme_average_perm (l l' : list Series) :
  Permutation l l' ->
  mean_axis1 (concat_axis1 l) = mean_axis1 (concat_axis1 l').
Proof.
  intros H. rewrite !theme_average_tabulate, (index_union_perm _ _ H).
  apply map_ext. intros t. f_equal. apply nanmean_perm. now apply Permutation_map.
Qed.

Lemma Permutation_concat_list {A} (l l' : list (list A)) :
  Permutation l l' -> Permutation (List.concat l) (List.concat l').
Proof.
  induction 1 as [|x l l' _ IH|x y l|l l' l'' _ IH1 _ IH2]; cbn [List.concat].
  - constructor.
  - now apply Permutation_app_head.
  - rewrite !app_assoc. apply Permutation_app_tail. apply Permutation_app_comm.
  - now transitivity (List.concat l').
Qed.

Section Reordering.

Variable env : Env.

Lemma theme_update_perm (tf : string) (eff stop : Timestamp)
    (d : list (string * Series)) (theme_name : string) (cs cs' : list string) :
  Permutation cs cs' ->
  theme_update env tf eff stop d {| name := theme_name; codes := cs |}
  = theme_update env tf eff stop d {| name := theme_name; codes := cs' |}.
Proof.
  intros H. unfold theme_update. cbn [name codes].
  pose proof (Permutation_flat_map_list (period_returns_of env tf eff stop) _ _ H) as Hp.
  destruct (flat_map _ cs) as [|s l] eqn:E.
  - apply Permutation_nil in Hp. now rewrite Hp.
  - destruct (flat_map _ cs') as [|s' l'] eqn:E'.
    + apply Permutation_sym, Permutation_nil in Hp. discriminate.
    + now rewrite (theme_average_perm _ _ Hp).
Qed.

(** X14: the order in which a theme lists its codes does not matter for the
    averages: listing them in another order gives the same themed rows and
    the same correlation matrix, and the same stock-level rows in another
    order. *)
Theorem X14_order_of_the_codes_does_not_change_the_averages
    (ths1 ths2 : list Theme) (theme_name : string) (cs cs' : list string)
    (start : DateString) (stop : Timestamp) (tf : option string) :
  Permutation cs cs' ->
  let answer :=
    fst (get_stock_data env
           (request (ths1 ++ {| name := theme_name; codes := cs |} :: ths2)
                    start stop tf)) in
  let answer' :=
    fst (get_stock_data env
           (request (ths1 ++ {| name := theme_name; codes := cs' |} :: ths2)
                    start stop tf)) in
  themed_rows answer = themed_rows answer'
  /\ matrix_of answer = matrix_of answer'
  /\ Permutation (stock_rows answer) (stock_rows answer').
Proof.
  intros H answer answer'. unfold answer, answer'.
  rewrite !get_stock_data_checked by (now destruct ths1). cbv zeta. cbn [fst].
  rewrite !fold_left_app. cbn [fold_left].
  rewrite (theme_update_perm _ _ _ _ theme_name cs cs' H).
  set (themed := fold_left _ ths2 _).
  assert (Hstock :
    Permutation
      (List.concat
         (flat_map (stock_frames_of_theme env (get tf "D"%string) start (day start - 7) stop)
                   (ths1 ++ {| name := theme_name; codes := cs |} :: ths2)))
      (List.concat
         (flat_map (stock_frames_of_theme env (get tf "D"%string) start (day start - 7) stop)
                   (ths1 ++ {| name := theme_name; codes := cs' |} :: ths2)))).
  { apply Permutation_concat_list. rewrite !flat_map_app. cbn [flat_map].
    apply Permutation_app_head, Permutation_app_tail.
    unfold stock_frames_of_theme. cbn [codes].
    now apply Permutation_flat_map_list. }
  unfold themed_rows, matrix_of, stock_rows.
  destruct themed; cbn [payload_parts fst snd]; auto.
Qed.

End Reordering.

Lemma X14_witness :
  let env := sample_env true reader_AB in
  let answer :=
    fst (get_stock_data env
           (request [{| name := "AB"; codes := ["A"; "B"]%string |}]
                    (canonical d2024_01_08) d2024_01_10 None)) in
  let answer' :=
    fst (get_stock_data env
           (request [{| name := "AB"; codes := ["B"; "A"]%string |}]
                    (canonical d2024_01_08) d2024_01_10 None)) in
  themed_rows answer = themed_rows answer'
  /\ matrix_of answer = matrix_of answer'
  /\ Permutation (stock_rows answer) (stock_rows answer').
Proof.
  intros env.
  apply (X14_order_of_the_codes_does_not_change_the_averages env [] [] "AB"
           ["A"; "B"]%string ["B"; "A"]%string (canonical d2024_01_08) d2024_01_10 None).
  apply perm_swap.
Defined.

(** * A theme of one symbol *)

Lemma rint_comp (q q' : Q) : (q == q')%Q -> rint q = rint q'.
Proof.
  intros H. unfold rint.
  assert (Hf : Qfloor q = Qfloor q') by now apply Qfloor_comp.
  rewrite Hf.
  assert (Hc : Qcompare (q - inject_Z (Qfloor q')) (1 # 2)
               = Qcompare (q' - inject_Z (Qfloor q')) (1 # 2))
    by now rewrite H.
  now rewrite Hc.
Qed.

Lemma Qround2_comp (q q' : Q) : (q == q')%Q -> Qround2 q = Qround2 q'.
Proof.
  intros H. unfold Qround2.
  rewrite (rint_comp (q * 100) (q' * 100)) by now rewrite H.
  reflexivity.
Qed.

(** The mean of a single value is that value, up to what rounding sees. *)
Lemma nanmean_single (v : float64) :
  isna (nanmean [v]) = isna v /\ fround2 (nanmean [v]) = fround2 v.
Proof.
  destruct v as [| b|q].
  - split; reflexivity.
  - destruct b; split; reflexivity.
  - change (nanmean [Num q])
      with (Num (Qred (Qred (0 + q) / inject_Z (Z.of_nat 1)))).
    split; [reflexivity|]. cbn [fround2]. f_equal. apply Qround2_comp.
    rewrite !Qred_correct. change (inject_Z (Z.of_nat 1)) with 1%Q. field.
Qed.

Lemma insert_sorted_front (t : Timestamp) (ix : list Timestamp) :
  Forall (Z.lt t) ix -> insert_sorted t ix = t :: ix.
Proof.
  destruct ix as [|u ix]; auto. intros H. inversion H; subst. simpl.
  assert (E : (t <? u) = true) by now apply Z.ltb_lt. now rewrite E.
Qed.

Lemma index_union_single (s : Series) :
  StronglySorted Z.lt (index s) -> index_union [s] = index s.
Proof.
  unfold index_union. cbn [flat_map]. rewrite app_nil_r.
  induction 1 as [|t ix Hs IH Ht]; cbn [fold_right]; auto.
  rewrite IH. now apply insert_sorted_front.
Qed.

Lemma at_label_own (g : float64 -> float64) (s : Series) :
  StronglySorted Z.lt (index s) ->
  map (fun t => (t, g (at_label s t))) (index s) = smap g s.
Proof.
  induction s as [|[t v] s IH]; intros Hs; auto.
  cbn [index map fst] in Hs. inversion Hs as [|? ? Hs' Ht]; subst.
  unfold smap. cbn [index map fst snd at_label]. rewrite Z.eqb_refl. f_equal.
  change (map (fun r : Timestamp * float64 => (fst r, g (snd r))) s) with (smap g s).
  rewrite <- (IH Hs'). apply map_ext_in. intros u Hu.
  rewrite Forall_forall in Ht. specialize (Ht u Hu).
  assert (E : (u =? t) = false) by (apply Z.eqb_neq; lia).
  now rewrite E.
Qed.

Lemma single_theme_series (s : Series) :
  StronglySorted Z.lt (index s) ->
  mean_axis1 (concat_axis1 [s]) = smap (fun v => nanmean [v]) s.
Proof.
  intros Hs. rewrite theme_average_tabulate, (index_union_single s Hs).
  cbn [map]. apply (at_label_own (fun v => nanmean [v]) s Hs).
Qed.

Lemma round2_dropna_single (s : Series) :
  round2 (dropna (smap (fun v => nanmean [v]) s)) = round2 (dropna s).
Proof.
  induction s as [|[t v] s IH]; auto.
  destruct (nanmean_single v) as [Hna Hround].
  change (round2 (dropna (smap (fun v => nanmean [v]) ((t, v) :: s))))
    with (round2 (if notna (nanmean [v])
                  then (t, nanmean [v]) :: dropna (smap (fun v => nanmean [v]) s)
                  else dropna (smap (fun v => nanmean [v]) s))).
  change (round2 (dropna ((t, v) :: s)))
    with (round2 (if notna v then (t, v) :: dropna s else dropna s)).
  replace (notna (nanmean [v])) with (notna v) by (unfold notna; now rewrite Hna).
  destruct (notna v); [|exact IH].
  change (round2 ((t, nanmean [v]) :: dropna (smap (fun v => nanmean [v]) s)))
    with ((t, fround2 (nanmean [v]))
          :: round2 (dropna (smap (fun v => nanmean [v]) s))).
  rewrite Hround, IH. reflexivity.
Qed.

Lemma filter_round2 (f : Timestamp -> bool) (s : Series) :
  filter (fun r => f (fst r)) (round2 s) = round2 (filter (fun r => f (fst r)) s).
Proof.
  unfold round2, smap. induction s as [|[t v] s IH]; cbn [map filter fst snd]; auto.
  destruct (f t); cbn [map fst snd]; now rewrite IH.
Qed.

Lemma dropna_round2 (s : Series) : dropna (round2 s) = round2 (dropna s).
Proof.
  unfold round2, smap, dropna.
  induction s as [|[t v] s IH]; cbn [map filter fst snd]; auto.
  assert (E : notna (fround2 v) = notna v) by now destruct v.
  rewrite E. destruct (notna v); cbn [map fst snd]; now rewrite IH.
Qed.

Lemma stock_pairs (f : Timestamp -> bool) (label code : string) (daily_return : Series) :
  map (fun r => (stock_date r, stock_value r))
      (filter (fun r => f (stock_date r)) (stock_df label code daily_return))
  = filter (fun r => f (fst r)) (dropna (round2 daily_return)).
Proof.
  unfold stock_df. induction (dropna (round2 daily_return)) as [|[t v] rows IH];
    cbn [map filter stock_date fst snd]; auto.
  destruct (f t); cbn [map stock_date stock_value]; now rewrite IH.
Qed.

Lemma themed_pairs (start : Timestamp) (entry : string * Series) :
  map (fun r => (date r, value r)) (theme_df start entry)
  = round2 (loc_from start (snd entry)).
Proof.
  unfold theme_df. rewrite map_map. cbn [date value].
  induction (round2 (loc_from start (snd entry))) as [|[t v] rows IH];
    cbn [map fst snd]; auto.
  now rewrite IH.
Qed.

Section OneSymbol.

Variable env : Env.

(** X15: for a theme of a single symbol on the daily timeframe, fetched as
    a table of strictly increasing dates, the themed rows carry the same
    dates and the same values as the stock-level rows of the symbol,
    provided that the start string of the request is written as [strftime]
    writes its day.  The days are days of the calendar. *)
Theorem X15_theme_of_one_symbol_shows_the_returns_of_the_symbol
    (theme_name code : string) (start : DateString) (stop : Timestamp) (tf : option string)
    (price_df : PriceFrame) :
  get tf "D"%string = "D"%string ->
  DataReader env code (day start - 7) stop = Return price_df ->
  price_df <> [] ->
  StronglySorted Z.lt (map fst price_df) ->
  text start = strftime (day start) ->
  in_calendar (day start) ->
  Forall in_calendar (map fst price_df) ->
  let answer :=
    fst (get_stock_data env
           (request [{| name := theme_name; codes := [code] |}] start stop tf)) in
  map (fun r => (date r, value r)) (themed_rows answer)
  = map (fun r => (stock_date r, stock_value r)) (stock_rows answer).
Proof.
  intros Htf Hread Hne Hsorted Htext Hstart Hdates answer. unfold answer.
  assert (Horder : forall t, In t (map fst price_df) ->
                     String.leb (text start) (strftime t) = (day start <=? t)).
  { intros t Hin. rewrite Forall_forall in Hdates.
    rewrite Htext. apply strftime_leb; auto. }
  rewrite get_stock_data_checked by discriminate. cbv zeta. cbn [fst fold_left].
  rewrite Htf.
  set (s := times100 (pct_change (pct_change_pads env) (Close price_df))).
  assert (Hc : contribution env "D" (day start - 7) stop code = Some (price_df, s)).
  { unfold contribution. rewrite Hread.
    destruct price_df as [|r rest]; [contradiction|]. reflexivity. }
  assert (Hix : index s = map fst price_df).
  { unfold s, times100. now rewrite index_smap, pct_change_index, index_Close. }
  assert (Hs : StronglySorted Z.lt (index s)) by now rewrite Hix.
  assert (Hp : period_returns_of env "D" (day start - 7) stop code = [s])
    by (unfold period_returns_of; now rewrite Hc).
  assert (Hf : stock_frames_of env "D" start (day start - 7) stop code
               = [filter (fun r => String.leb (text start) (strftime (stock_date r)))
                         (stock_df (display_name env code) code s)])
    by (unfold stock_frames_of; now rewrite Hc).
  unfold theme_update, stock_frames_of_theme. cbn [codes name flat_map].
  rewrite Hp, Hf. cbn [app dict_set List.concat].
  unfold themed_rows, stock_rows. cbn [payload_parts fst snd flat_map].
  rewrite !app_nil_r.
  rewrite themed_pairs. cbn [snd].
  rewrite (stock_pairs (fun t => String.leb (text start) (strftime t))).
  rewrite loc_from_increasing by apply theme_average_increasing.
  rewrite <- (filter_round2 (fun t => day start <=? t)).
  rewrite (single_theme_series s Hs), round2_dropna_single, dropna_round2.
  apply filter_ext_in. intros r Hr. symmetry. apply Horder.
  rewrite <- Hix. unfold round2, smap in Hr. apply in_map_iff in Hr.
  destruct Hr as (row & <- & Hrow). cbn [fst].
  unfold dropna in Hrow. apply filter_In in Hrow. destruct Hrow as [Hrow _].
  unfold index. apply in_map. exact Hrow.
Qed.

End OneSymbol.

Lemma X15_witness :
  let env := sample_env true (only_X ten_days) in
  let answer :=
    fst (get_stock_data env
           (request [{| name := "T1"; codes := ["X"%string] |}]
                    (canonical d2024_01_08) d2024_01_10 None)) in
  map (fun r => (date r, value r)) (themed_rows answer)
  = map (fun r => (stock_date r, stock_value r)) (stock_rows answer).
Proof.
  intros env.
  apply (X15_theme_of_one_symbol_shows_the_returns_of_the_symbol env "T1" "X"
           (canonical d2024_01_08) d2024_01_10 None ten_days).
  - reflexivity.
  - reflexivity.
  - discriminate.
  - repeat constructor.
  - reflexivity.
  - unfold in_calendar. vm_compute. split; discriminate.
  - apply Forall_forall. intros t Hin. unfold in_calendar. vm_compute in Hin.
    repeat (destruct Hin as [<-|Hin]; [vm_compute; split; discriminate|]).
    destruct Hin.
Defined.

(** Without the hypothesis on the start string the two lists differ: the
    start date ['2024-1-8'] is read as 2024-01-08 and the themed rows are
    cut there, but as a string it is above every date string of January,
    and the filter of the stock-level rows keeps none of them. *)
Lemma start_without_padding_loses_the_stock_rows :
  let env := sample_env true (only_X ten_days) in
  let answer :=
    fst (get_stock_data env
           (request [theme_T1] {| text := "2024-1-8"; day := d2024_01_08 |}
                    d2024_01_10 None)) in
  map date (themed_rows answer) = [d2024_01_08; d2024_01_08 + 1; d2024_01_10]
  /\ stock_rows answer = [].
Proof. vm_compute. split; reflexivity. Qed.

(** * The properties of the answers on the sample data *)

Lemma X7_witness :
  stock_rows (fst (get_stock_data (sample_env true (only_X ten_days))
                     (request [theme_T1] (canonical d2024_01_08) d2024_01_10 (Some "W"%string))))
  = [].
Proof.
  apply (X7_stock_level_rows_only_for_the_daily_timeframe
           (sample_env true (only_X ten_days))
           (request [theme_T1] (canonical d2024_01_08) d2024_01_10 (Some "W"%string))
           "W"%string).
  - reflexivity.
  - discriminate.
Defined.

Lemma X8_witness :
  let data := request [{| name := "T"; codes := ["005930"; "X"]%string |}]
                      (canonical d2024_01_08) d2024_01_10 None in
  let r := {| stock_date := d2024_01_08 + 1;
              stock_name := "Samsung (005930)";
              stock_value := Num (-50) |} in
  In r (stock_rows (fst (get_stock_data listed_env data)))
  /\ String.leb "2024-01-08" (strftime (stock_date r)) = true
  /\ d2024_01_08 <= stock_date r
  /\ isna (stock_value r) = false
  /\ exists th code,
       In th (get (themes data) []) /\ In code (codes th)
       /\ stock_name r = stock_label listed_env code
       /\ (display_name listed_env code = code
           \/ In (code, display_name listed_env code) (ALL_STOCKS_LIST listed_env)).
Proof.
  intros data r.
  assert (Hr : In r (stock_rows (fst (get_stock_data listed_env data)))).
  { vm_compute. right. left. reflexivity. }
  split; [exact Hr|].
  destruct (X8_stock_level_rows_are_trimmed_and_labelled
              listed_env data (canonical d2024_01_08) r eq_refl Hr)
    as (Htext & Hday & Hvalue & Hlabel).
  split; [exact Htext|]. split; [|split; [exact Hvalue|exact Hlabel]].
  apply Hday.
  - reflexivity.
  - unfold in_calendar. vm_compute. split; discriminate.
  - unfold in_calendar. vm_compute. split; discriminate.
Defined.

Lemma X9_witness :
  let env := sample_env true reader_ABE in
  fst (get_stock_data env
         (request [{| name := "AB"; codes := ["A"; "E"; "B"]%string |}]
                  (canonical d2024_01_08) d2024_01_10 None))
  = fst (get_stock_data env (request [theme_AB] (canonical d2024_01_08) d2024_01_10 None)).
Proof.
  intros env.
  apply (X9_symbol_with_an_empty_table_is_skipped env [] [] "AB"%string
           ["A"%string] ["B"%string] "E"%string (canonical d2024_01_08) d2024_01_10 None).
  reflexivity.
Defined.

Lemma X10_witness :
  let env := sample_env true reader_AB in
  let answer :=
    fst (get_stock_data env
           (request [theme_T1; theme_AB] (canonical d2024_01_08) d2024_01_10 None)) in
  map fst (matrix_of answer) = ["AB"%string]
  /\ NoDup (map fst (matrix_of answer))
  /\ ~ contributes env "D" (d2024_01_08 - 7) d2024_01_10 theme_T1
  /\ Forall (fun r => sector r = "AB"%string) (themed_rows answer).
Proof.
  intros env answer.
  assert (E : map fst (matrix_of answer) = ["AB"%string]) by (vm_compute; reflexivity).
  destruct (X10_matrix_has_the_themes_that_got_data env
              [theme_T1; theme_AB] (canonical d2024_01_08) d2024_01_10 None
              (themed_rows answer) (stock_rows answer) (matrix_of answer))
    as (Hnd & Hnames & _ & Hrows).
  - discriminate.
  - vm_compute. reflexivity.
  - split; [exact E|]. split; [exact Hnd|]. split.
    + intros Hc.
      assert (Hin : In "T1"%string (map fst (matrix_of answer))).
      { apply Hnames. exists theme_T1. split; [left; reflexivity|].
        split; [reflexivity|exact Hc]. }
      rewrite E in Hin. destruct Hin as [Hin|[]]. discriminate Hin.
    + apply Forall_forall. intros r Hr. specialize (Hrows r Hr).
      rewrite E in Hrows. destruct Hrows as [Hs|[]]. symmetry. exact Hs.
Defined.

Lemma X11_witness :
  let env := sample_env true reader_AB in
  let first := {| name := "T"; codes := ["A"%string] |} in
  let last := {| name := "T"; codes := ["B"%string] |} in
  let answer :=
    fst (get_stock_data env (request [first; last] (canonical d2024_01_08) d2024_01_10 None)) in
  dict_get (themed_returns_data
              (run_themes env [first; last] (canonical d2024_01_08) d2024_01_10 "D"))
           "T"
  = Some (theme_average env "D" (d2024_01_08 - 7) d2024_01_10 last)
  /\ Forall (fun r =>
               In r (theme_df d2024_01_08
                       ("T"%string,
                        theme_average env "D" (d2024_01_08 - 7) d2024_01_10 last)))
            (themed_rows answer)
  /\ In {| stock_date := d2024_01_08; stock_name := "A (A)";
           stock_value := Num 10 |}
        (stock_rows answer).
Proof.
  intros env first last answer.
  destruct (X11_last_theme_of_a_name_wins env [first] [] last
              (canonical d2024_01_08) d2024_01_10 None) as (Hget & Hrows & Hstock).
  - exists "B"%string. split; [left; reflexivity|]. vm_compute. discriminate.
  - intros th' [].
  - split; [exact Hget|]. split.
    + apply Forall_forall. intros r Hr.
      apply Hrows; [exact Hr|].
      vm_compute in Hr. destruct Hr as [<-|[]]. reflexivity.
    + apply (Hstock first "A"%string
               [{| stock_date := d2024_01_08; stock_name := "A (A)";
                   stock_value := Num 10 |};
                {| stock_date := d2024_01_08 + 1; stock_name := "A (A)";
                   stock_value := Num (-10) |}]).
      * left. reflexivity.
      * left. reflexivity.
      * vm_compute. left. reflexivity.
      * left. reflexivity.
Defined.

Lemma X12_witness :
  let env := sample_env true reader_AB in
  let answer :=
    fst (get_stock_data env
           (request [theme_A; theme_B] (canonical d2024_01_08) d2024_01_10 None)) in
  let themed :=
    themed_returns_data
      (run_themes env [theme_A; theme_B] (canonical d2024_01_08) d2024_01_10 "D") in
  themed_rows answer = flat_map (theme_df d2024_01_08) themed
  /\ map fst themed = map fst (matrix_of answer)
  /\ Forall (fun entry =>
               StronglySorted Z.lt (map date (theme_df d2024_01_08 entry)))
            themed.
Proof.
  intros env answer themed.
  destruct (X12_themed_rows_come_theme_by_theme_in_date_order env
              [theme_A; theme_B] (canonical d2024_01_08) d2024_01_10 None
              (themed_rows answer) (stock_rows answer) (matrix_of answer))
    as (Hrows & Hkeys & Hentries).
  - discriminate.
  - vm_compute. reflexivity.
  - split; [exact Hrows|]. split; [exact Hkeys|].
    apply Forall_forall. intros entry Hin. apply (Hentries entry Hin).
Defined.

(** * The symbol directory *)

Lemma seen_In (code : string) (seen : list string) :
  existsb (String.eqb code) seen = true <-> In code seen.
Proof.
  rewrite existsb_exists. split.
  - intros (x & Hin & Heq). apply String.eqb_eq in Heq. now subst.
  - intros Hin. exists code. split; [exact Hin|apply String.eqb_refl].
Qed.

Lemma drop_duplicates_In (seen : list string) (rows : list (string * string))
    (code name : string) :
  In (code, name) (drop_duplicates seen rows) ->
  In (code, name) rows /\ ~ In code seen.
Proof.
  revert seen. induction rows as [|[c n] rows IH]; intros seen Hin; [destruct Hin|].
  cbn [drop_duplicates] in Hin.
  destruct (existsb (String.eqb c) seen) eqn:E.
  - destruct (IH _ Hin) as [H1 H2]. split; [right; exact H1|exact H2].
  - destruct Hin as [Heq|Hin].
    + injection Heq as -> ->. split; [left; reflexivity|].
      rewrite <- seen_In, E. discriminate.
    + destruct (IH _ Hin) as [H1 H2]. split; [right; exact H1|].
      intros H. apply H2. right. exact H.
Qed.

Lemma drop_duplicates_NoDup (seen : list string) (rows : list (string * string)) :
  NoDup (map fst (drop_duplicates seen rows)).
Proof.
  revert seen. induction rows as [|[c n] rows IH]; intros seen; [constructor|].
  cbn [drop_duplicates]. destruct (existsb (String.eqb c) seen); [apply IH|].
  cbn [map fst]. constructor; [|apply IH].
  intros Hin. apply in_map_iff in Hin. destruct Hin as ([c' n'] & Heq & Hin).
  cbn [fst] in Heq. subst c'. apply drop_duplicates_In in Hin.
  destruct Hin as [_ Hin]. apply Hin. left. reflexivity.
Qed.

Lemma drop_duplicates_lookup (seen : list string) (rows : list (string * string))
    (code : string) :
  lookup (drop_duplicates seen rows) code
  = if existsb (String.eqb code) seen then None else lookup rows code.
Proof.
  revert seen. induction rows as [|[c n] rows IH]; intros seen.
  - cbn. now destruct (existsb _ seen).
  - cbn [drop_duplicates]. unfold lookup in *. cbn [find fst].
    destruct (existsb (String.eqb c) seen) eqn:Ec.
    + rewrite IH. destruct (existsb (String.eqb code) seen) eqn:E; [reflexivity|].
      destruct (String.eqb c code) eqn:Ecc; [|reflexivity].
      apply String.eqb_eq in Ecc. subst. congruence.
    + cbn [find fst]. destruct (String.eqb c code) eqn:Ecc.
      * apply String.eqb_eq in Ecc. subst. now rewrite Ec.
      * rewrite IH. cbn [existsb]. rewrite String.eqb_sym, Ecc. reflexivity.
Qed.

Lemma lookup_In (rows : list (string * string)) (code : string) :
  In code (map fst rows) <-> exists name, lookup rows code = Some (code, name).
Proof.
  unfold lookup. induction rows as [|[c n] rows IH]; cbn [map fst find In].
  - split; [intros []|intros (? & ?); discriminate].
  - destruct (String.eqb c code) eqn:E.
    + apply String.eqb_eq in E. subst. split; [eauto|auto].
    + rewrite <- IH. apply String.eqb_neq in E. tauto.
Qed.

Lemma complete_rows_In (rows : list (Cell * Cell)) (code name : string) :
  In (code, name) (complete_rows rows) <-> In (Some code, Some name) rows.
Proof.
  unfold complete_rows. rewrite in_flat_map. split.
  - intros ([[c|] [n|]] & Hin & H); try destruct H.
    + injection H as -> ->. exact Hin.
    + destruct H.
  - intros Hin. exists (Some code, Some name). split; [exact Hin|left; reflexivity].
Qed.

Lemma complete_rows_app (r1 r2 : list (Cell * Cell)) :
  complete_rows (r1 ++ r2) = complete_rows r1 ++ complete_rows r2.
Proof. unfold complete_rows. apply flat_map_app. Qed.

Lemma has_column_get {V} (df : list (string * V)) (c : string) :
  dict_get df c = None <-> existsb (fun col => String.eqb (fst col) c) df = false.
Proof.
  induction df as [|[k v] df IH]; cbn [dict_get existsb fst]; [tauto|].
  rewrite (String.eqb_sym c k). destruct (String.eqb k c); cbn [orb].
  - split; discriminate.
  - exact IH.
Qed.

Lemma rename_get_other (old new c : string) (df : Listing) :
  c <> old -> c <> new ->
  dict_get (rename_column old new df) c = dict_get df c.
Proof.
  intros Ho Hn. induction df as [|[k v] df IH]; [reflexivity|].
  cbn [rename_column map dict_get fst snd] in *.
  destruct (String.eqb k old) eqn:E.
  - apply String.eqb_eq in E. subst k.
    apply String.eqb_neq in Ho, Hn. rewrite Ho, Hn. exact IH.
  - destruct (String.eqb c k); [reflexivity|exact IH].
Qed.

Lemma rename_get_new (old new : string) (df : Listing) :
  dict_get df new = None ->
  dict_get (rename_column old new df) new = dict_get df old.
Proof.
  induction df as [|[k v] df IH]; [reflexivity|].
  cbn [rename_column map dict_get fst snd].
  destruct (String.eqb new k) eqn:En; [discriminate|]. intros Hnone.
  rewrite (String.eqb_sym old k).
  destruct (String.eqb k old) eqn:E.
  - now rewrite String.eqb_refl.
  - rewrite En. apply IH, Hnone.
Qed.

Section DirectoryFacts.

Variable StockListing : string -> Result Listing.

Lemma load_steps (markets : list (string * string)) (all_dfs : list (list (Cell * Cell))) :
  fold_left (load_step StockListing) markets all_dfs
  = all_dfs ++ flat_map (loaded StockListing) markets.
Proof.
  revert all_dfs. induction markets as [|m markets IH]; intros all_dfs.
  - cbn. now rewrite app_nil_r.
  - cbn [fold_left flat_map]. rewrite IH. unfold load_step, loaded.
    destruct (load_listing StockListing (snd m)); cbn [app].
    + now rewrite <- app_assoc.
    + reflexivity.
Qed.

Lemma concat_loaded (markets : list (string * string)) :
  complete_rows (List.concat (flat_map (loaded StockListing) markets))
  = loaded_rows StockListing markets.
Proof.
  unfold loaded_rows. f_equal.
  induction markets as [|m markets IH]; [reflexivity|].
  cbn [flat_map]. rewrite concat_app, IH. unfold loaded.
  destruct (load_listing StockListing (snd m)); cbn [List.concat app].
  - now rewrite app_nil_r.
  - reflexivity.
Qed.

Lemma load_all_stocks_rows (markets : list (string * string)) :
  load_all_stocks StockListing markets
  = drop_duplicates [] (loaded_rows StockListing markets).
Proof.
  unfold load_all_stocks. rewrite load_steps. cbn [app]. cbv zeta.
  rewrite <- concat_loaded.
  destruct (flat_map (loaded StockListing) markets); reflexivity.
Qed.

Lemma loaded_rows_In (markets : list (string * string)) (code name : string) :
  In (code, name) (loaded_rows StockListing markets)
  <-> exists market rows,
        In market markets
        /\ load_listing StockListing (snd market) = Return rows
        /\ In (Some code, Some name) rows.
Proof.
  unfold loaded_rows. rewrite complete_rows_In, in_flat_map. split.
  - intros (market & Hm & Hin).
    destruct (load_listing StockListing (snd market)) as [rows|] eqn:E;
      [|destruct Hin].
    exists market, rows. auto.
  - intros (market & rows & Hm & E & Hin). exists market. rewrite E. auto.
Qed.

Lemma listed_code_in_directory
    (markets : list (string * string)) (market : string * string)
    (rows : list (Cell * Cell)) (code name : string) :
  In market markets ->
  load_listing StockListing (snd market) = Return rows ->
  In (Some code, Some name) rows ->
  In code (map fst (load_all_stocks StockListing markets)).
Proof.
  intros Hm E Hin. rewrite load_all_stocks_rows.
  assert (Hl : In (code, name) (loaded_rows StockListing markets)).
  { apply loaded_rows_In. exists market, rows. auto. }
  apply lookup_In.
  assert (Hc : In code (map fst (loaded_rows StockListing markets))).
  { apply in_map_iff. exists (code, name). auto. }
  apply lookup_In in Hc. destruct Hc as (n & Hc). exists n.
  rewrite drop_duplicates_lookup. exact Hc.
Qed.

(** X16: no code appears twice in the directory; every record of the
    directory is a row, complete in both columns, of a listing that loaded;
    and every code of such a row is in the directory. *)
Theorem X16_directory_lists_each_loaded_code_once
    (markets : list (string * string)) :
  let directory := load_all_stocks StockListing markets in
  NoDup (map fst directory)
  /\ (forall code name,
        In (code, name) directory ->
        exists market rows,
          In market markets
          /\ load_listing StockListing (snd market) = Return rows
          /\ In (Some code, Some name) rows)
  /\ (forall market rows code name,
        In market markets ->
        load_listing StockListing (snd market) = Return rows ->
        In (Some code, Some name) rows ->
        In code (map fst directory)).
Proof.
  cbv zeta. split.
  - rewrite load_all_stocks_rows. apply drop_duplicates_NoDup.
  - split.
    + intros code name Hin. rewrite load_all_stocks_rows in Hin.
      apply drop_duplicates_In in Hin. apply loaded_rows_In, Hin.
    + intros market rows code name. apply listed_code_in_directory.
Qed.

(** X17: when a code is listed more than once, in one market or in
    several, the directory keeps the first complete row in the order of the
    markets; the name that the handler shows for a code is the name of that
    row, and the code itself when no listing that loaded has it. *)
Theorem X17_first_listing_of_a_code_names_it
    (markets : list (string * string)) (env : Env) (code : string) :
  ALL_STOCKS_LIST env = load_all_stocks StockListing markets ->
  lookup (ALL_STOCKS_LIST env) code = lookup (loaded_rows StockListing markets) code
  /\ display_name env code
     = match lookup (loaded_rows StockListing markets) code with
       | Some item => snd item
       | None => code
       end.
Proof.
  intros E.
  assert (H : lookup (ALL_STOCKS_LIST env) code
              = lookup (loaded_rows StockListing markets) code).
  { rewrite E, load_all_stocks_rows, drop_duplicates_lookup. reflexivity. }
  split; [exact H|]. unfold display_name. unfold lookup in H. rewrite H.
  reflexivity.
Qed.

(** X18: a market whose listing cannot be fetched, or comes without a
    [Name] column, is skipped: the directory is the one loaded from the
    other markets. *)
Theorem X18_market_that_fails_to_load_is_skipped
    (ms1 ms2 : list (string * string)) (market : string * string) :
  StockListing (snd market) = Raised
  \/ (exists df, StockListing (snd market) = Return df
                 /\ has_column df "Name" = false) ->
  load_all_stocks StockListing (ms1 ++ market :: ms2)
  = load_all_stocks StockListing (ms1 ++ ms2).
Proof.
  intros H.
  assert (E : load_listing StockListing (snd market) = Raised).
  { unfold load_listing. destruct H as [->|(df & -> & Hname)]; [reflexivity|].
    cbv zeta. apply has_column_get in Hname.
    assert (Hn : forall df' : Listing,
               dict_get df' "Name" = None -> select_Code_Name df' = Raised).
    { intros df' Hn. unfold select_Code_Name. rewrite Hn.
      now destruct (dict_get df' "Code"). }
    apply Hn. destruct (has_column df "Symbol"); [|exact Hname].
    rewrite rename_get_other by discriminate. exact Hname. }
  rewrite !load_all_stocks_rows. f_equal. unfold loaded_rows. f_equal.
  rewrite !flat_map_app. cbn [flat_map]. now rewrite E.
Qed.

(** X19: a listing that has no [Code] column is read through its [Symbol]
    column: its rows pair the symbols with the names, and it fails to load
    when it has no [Symbol] column or no [Name] column. *)
Theorem X19_symbol_column_stands_for_the_code
    (market_code : string) (df : Listing) :
  StockListing market_code = Return df ->
  has_column df "Code" = false ->
  load_listing StockListing market_code
  = match dict_get df "Symbol", dict_get df "Name" with
    | Some symbols, Some names => Return (combine symbols names)
    | _, _ => Raised
    end.
Proof.
  intros E Hcode. unfold load_listing. rewrite E. cbv zeta.
  apply has_column_get in Hcode.
  destruct (has_column df "Symbol") eqn:Hs; unfold select_Code_Name.
  - rewrite rename_get_new by exact Hcode.
    rewrite rename_get_other by discriminate. reflexivity.
  - apply has_column_get in Hs. rewrite Hcode, Hs. reflexivity.
Qed.

(** X20: [/api/all-stocks] answers with the 500 error exactly when no
    listing that loaded has a row complete in both columns; otherwise it
    answers with the directory, which is then not empty. *)
Theorem X20_all_stocks_fails_exactly_when_nothing_was_loaded
    (markets : list (string * string)) :
  let directory := load_all_stocks StockListing markets in
  (get_all_stocks directory = StocksError 500
   <-> forall market rows,
         In market markets ->
         load_listing StockListing (snd market) = Return rows ->
         complete_rows rows = [])
  /\ (get_all_stocks directory <> StocksError 500 ->
      get_all_stocks directory = Stocks directory /\ directory <> []).
Proof.
  cbv zeta. split.
  - split.
    + intros Herr market rows Hm E.
      destruct (complete_rows rows) as [|[code name] rest] eqn:Er; [reflexivity|].
      exfalso.
      assert (Hc : In code (map fst (load_all_stocks StockListing markets))).
      { apply (listed_code_in_directory markets market rows code name Hm E).
        apply complete_rows_In.
        rewrite Er. left. reflexivity. }
      unfold get_all_stocks in Herr.
      destruct (load_all_stocks StockListing markets); [destruct Hc|discriminate].
    + intros Hnone. rewrite load_all_stocks_rows.
      assert (El : loaded_rows StockListing markets = []).
      { destruct (loaded_rows StockListing markets) as [|[code name] rest] eqn:El;
          [reflexivity|]. exfalso.
        assert (Hin : In (code, name) (loaded_rows StockListing markets))
          by (rewrite El; left; reflexivity).
        apply loaded_rows_In in Hin. destruct Hin as (market & rows & Hm & E & Hin).
        apply complete_rows_In in Hin. rewrite (Hnone market rows Hm E) in Hin.
        destruct Hin. }
      rewrite El. reflexivity.
  - unfold get_all_stocks.
    destruct (load_all_stocks StockListing markets);
      [intros H; now elim H|intros _; split; [reflexivity|discriminate]].
Qed.

End DirectoryFacts.

Lemma X17_witness :
  lookup (ALL_STOCKS_LIST listed_env) "005930"
  = lookup (loaded_rows sample_listings market_list) "005930"
  /\ display_name listed_env "005930" = "Samsung"%string.
Proof.
  apply (X17_first_listing_of_a_code_names_it sample_listings market_list
           listed_env "005930"%string).
  reflexivity.
Defined.

Lemma X18_witness :
  load_all_stocks sample_listings market_list
  = load_all_stocks sample_listings
      [("KOSPI", "KOSPI"); ("ETF", "ETF-KR"); ("NASDAQ", "NASDAQ");
       ("NYSE", "NYSE")]%string.
Proof.
  apply (X18_market_that_fails_to_load_is_skipped sample_listings
           [("KOSPI", "KOSPI")]%string
           [("ETF", "ETF-KR"); ("NASDAQ", "NASDAQ"); ("NYSE", "NYSE")]%string
           ("KOSDAQ", "KOSDAQ")%string).
  left. reflexivity.
Defined.

Lemma X19_witness :
  load_listing sample_listings "ETF-KR"
  = Return [(Some "069500", Some "KODEX 200");
            (Some "005930", Some "Samsung again")]%string.
Proof.
  apply (X19_symbol_column_stands_for_the_code sample_listings "ETF-KR"%string
           listing_etf).
  - reflexivity.
  - reflexivity.
Defined.

Lemma C4_witness :
  let env := sample_env true reader_AB in
  let answer :=
    fst (get_stock_data env (request [theme_AB] (canonical d2024_01_08) d2024_01_10 None)) in
  (exists theme_avg,
     dict_get (themed_returns_data
                 (run_themes env [theme_AB] (canonical d2024_01_08) d2024_01_10 "D"))
              "AB" = Some theme_avg
     /\ at_label theme_avg d2024_01_08 = Num 10
     /\ at_label theme_avg (d2024_01_08 + 1) = Num (-4))
  /\ In {| date := d2024_01_08; sector := "AB"; value := Num 10 |}
        (themed_rows answer)
  /\ In {| date := d2024_01_08 + 1; sector := "AB"; value := Num (-4) |}
        (themed_rows answer)
  /\ mean_of_present [series_A; series_B] d2024_01_08 = Num 10
  /\ feq (mean_of_present [series_A; series_B] (d2024_01_08 + 1))
         (Num (Qmean [(-4)%Q; 2%Q])).
Proof.
  intros env answer.
  destruct (C4_theme_average_skips_missing_symbols
              env [] [] theme_AB (canonical d2024_01_08) d2024_01_10 None)
    as (Havg & _ & Hex & Hmean).
  destruct Havg as ((theme_avg & Hget & Hat) & _ & Hrows).
  - vm_compute. discriminate.
  - intros th' [].
  - split; [|split; [|split; [|split]]].
    + exists theme_avg. split; [exact Hget|]. rewrite !Hat.
      split; vm_compute; reflexivity.
    + apply (Hrows d2024_01_08); [cbn [canonical day]; lia|vm_compute; reflexivity].
    + apply (Hrows (d2024_01_08 + 1));
        [cbn [canonical day]; lia|vm_compute; reflexivity].
    + apply (Hex series_A series_B d2024_01_08).
      * reflexivity.
      * vm_compute. intros [E|[]]. discriminate E.
    + apply (Hmean [series_A; series_B] (d2024_01_08 + 1) [(-4)%Q; 2%Q]).
      * reflexivity.
      * discriminate.
Defined.
